(** * JavaDrive: booking, availability and rating engine

    A shallow embedding of the storage layer ([DatabaseStorage], over the
    relational schema of [schema.ts]) and of the request handlers of
    [registerRoutes], followed by the properties of the booking lifecycle.

    Conventions of the embedding.
    - A table is the list of its rows in the order a [select] without
      [orderBy] returns them: an inserted row comes last, and so does the
      new version of an updated row.
    - A string is the UTF-8 encoding of its text. A [varchar(n)] column
      holds at most [n] characters, a [decimal(10,2)] column a number with
      two decimals below [10^8], an [integer] column a 32-bit integer; the
      store rounds or refuses what does not fit.
    - [timestamp] columns and JavaScript [Date] values are integers
      (milliseconds since the epoch).
    - A JavaScript number is an IEEE 754 double: a finite one is the
      rational it denotes, and every operation rounds to the nearest double.
    - The values the environment contributes to a statement (the uuid drawn
      by [gen_random_uuid()], the clock read by [now()] or [new Date()], and
      whether the connection to the store is lost) are an explicit [Draw].
    - An [await]ed storage call is a computation in the [Store] monad:
      it reads and writes the database and may throw. *)

From Stdlib Require Import List ZArith QArith Qround Qabs Qreduction Qpower String Ascii
  Bool Lia Lqa Permutation Sorted SpecFloat.
Import ListNotations.

Local Open Scope string_scope.
Local Open Scope Z_scope.
Local Open Scope list_scope.

(** ** Column types *)

Definition varchar := string.
Definition text := string.
Definition timestamp := Z.
Definition integer := Z.
Definition decimal := Q.

(** *** [varchar(n)]: at most [n] characters *)

(** A byte [10xxxxxx] continues a character; a byte [11110xxx] starts a
    character outside the basic plane, which JavaScript counts twice. *)
Definition continuation_byte (c : ascii) : bool :=
  ((128 <=? nat_of_ascii c) && (nat_of_ascii c <? 192))%nat.

Definition astral_lead (c : ascii) : bool := (240 <=? nat_of_ascii c)%nat.

(** The number of characters, as the store counts them. *)
Fixpoint char_length (s : string) : nat :=
  match s with
  | EmptyString => 0%nat
  | String c r => if continuation_byte c then char_length r else S (char_length r)
  end.

(** [s.length] in JavaScript: the number of UTF-16 code units. *)
Fixpoint js_length (s : string) : nat :=
  match s with
  | EmptyString => 0%nat
  | String c r =>
      if continuation_byte c then js_length r
      else if astral_lead c then S (S (js_length r))
      else S (js_length r)
  end.

(** The first [n] characters of a string, and the rest. *)
Fixpoint take_chars (n : nat) (s : string) : string :=
  match s with
  | EmptyString => EmptyString
  | String c r =>
      if continuation_byte c then String c (take_chars n r)
      else match n with
           | O => EmptyString
           | S k => String c (take_chars k r)
           end
  end.

Fixpoint drop_chars (n : nat) (s : string) : string :=
  match s with
  | EmptyString => EmptyString
  | String c r =>
      if continuation_byte c then drop_chars n r
      else match n with
           | O => s
           | S k => drop_chars k r
           end
  end.

Fixpoint blank (s : string) : bool :=
  match s with
  | EmptyString => true
  | String c r => Ascii.eqb c " "%char && blank r
  end.

(** What the store makes of a string assigned to a [varchar(n)] column: a
    string that fits is kept; characters in excess are cut off when they
    are all spaces; any other string is left as it is, for the column
    check to refuse. *)
Definition varchar_n (n : nat) (s : string) : string :=
  if (char_length s <=? n)%nat then s
  else if blank (drop_chars n s) then take_chars n s
  else s.

Definition fits (n : nat) (s : string) : bool := (char_length s <=? n)%nat.

(** *** [integer]: 32 bits *)

Definition int32 (z : integer) : bool := (-2147483648 <=? z) && (z <=? 2147483647).

(** *** [decimal(10,2)] *)

(** Rounding to two decimals, halves away from zero. *)
Definition round2 (q : Q) : decimal :=
  Qred ((Z.sgn (Qnum q) * Qfloor (Qabs q * 100 + (1 # 2))) # 100).

(** A value the column holds: two decimals, absolute value below [10^8]. *)
Definition decimal_10_2 (v : decimal) : bool :=
  Qeq_bool (round2 v) v && negb (Qle_bool 100000000 (Qabs v)).

(** ** Rows of [schema.ts] *)

Module User.
Record t := mk {
  id : varchar;
  email : option varchar;
  firstName : option varchar;
  lastName : option varchar;
  profileImageUrl : option varchar;
  role : varchar;
  governmentId : option varchar;
  createdAt : timestamp;
  updatedAt : timestamp }.
End User.

Module Car.
Record t := mk {
  id : varchar;
  ownerId : varchar;
  brand : varchar;
  model : varchar;
  year : integer;
  registrationNumber : varchar;
  carType : varchar;
  transmission : varchar;
  fuelType : varchar;
  seats : integer;
  pricePerDay : decimal;
  images : list text;
  features : option (list text);
  description : option text;
  isAvailable : bool;
  createdAt : option timestamp;
  updatedAt : timestamp }.
End Car.

Module Booking.
Record t := mk {
  id : varchar;
  carId : varchar;
  userId : varchar;
  startDate : timestamp;
  endDate : timestamp;
  totalCost : decimal;
  status : varchar;
  paymentStatus : varchar;
  createdAt : timestamp;
  updatedAt : timestamp }.
End Booking.

Module Payment.
Record t := mk {
  id : varchar;
  bookingId : varchar;
  amount : decimal;
  currency : varchar;
  razorpayOrderId : option varchar;
  razorpayPaymentId : option varchar;
  status : varchar;
  createdAt : timestamp;
  updatedAt : timestamp }.
End Payment.

Module Review.
Record t := mk {
  id : varchar;
  carId : varchar;
  userId : varchar;
  rating : integer;
  comment : option text;
  ownerResponse : option text;
  createdAt : timestamp;
  updatedAt : timestamp }.
End Review.

(** ** Insert shapes ([$inferInsert] and the [createInsertSchema] types).
    A column with a default is optional: [None] selects the default.
    For a nullable column [None] stores NULL. *)

Module UpsertUser.
Record t := mk {
  id : option varchar;
  email : option varchar;
  firstName : option varchar;
  lastName : option varchar;
  profileImageUrl : option varchar;
  role : option varchar;
  governmentId : option varchar }.
End UpsertUser.

Module InsertCar.
Record t := mk {
  ownerId : varchar;
  brand : varchar;
  model : varchar;
  year : integer;
  registrationNumber : varchar;
  carType : varchar;
  transmission : varchar;
  fuelType : varchar;
  seats : integer;
  pricePerDay : decimal;
  images : list text;
  features : option (list text);
  description : option text;
  isAvailable : option bool }.
End InsertCar.

Module InsertBooking.
Record t := mk {
  carId : varchar;
  userId : varchar;
  startDate : timestamp;
  endDate : timestamp;
  totalCost : decimal;
  status : option varchar;
  paymentStatus : option varchar }.
End InsertBooking.

Module InsertPayment.
Record t := mk {
  bookingId : varchar;
  amount : decimal;
  currency : option varchar;
  razorpayOrderId : option varchar;
  razorpayPaymentId : option varchar;
  status : option varchar }.
End InsertPayment.

Module InsertReview.
Record t := mk {
  carId : varchar;
  userId : varchar;
  rating : integer;
  comment : option text }.
End InsertReview.

(** ** Partial shapes ([Partial<Insert...>]): [None] is an absent key, which
    [set] leaves alone; for a nullable column [Some None] writes NULL. *)

(** A JSON body carries no [Date]: where a timestamp column is named, the
    value is [null] or one the column cannot encode. *)
Inductive JsonDate : Type :=
| JsonNull
| JsonNotADate.

(** [updateCar] receives the [req.body] of [PUT /api/cars/:id] as it came:
    besides the columns of the insert schema the body may name [id] and
    [createdAt]. ([updatedAt] is overwritten by the handler's own
    [updatedAt: new Date()], whatever the body says.) A key the body names
    holds a value of the type of its column; bodies with values of other
    types, which the store refuses, are not part of the embedding. *)
Module PartialCar.
Record t := mk {
  id : option varchar;
  createdAt : option JsonDate;
  ownerId : option varchar;
  brand : option varchar;
  model : option varchar;
  year : option integer;
  registrationNumber : option varchar;
  carType : option varchar;
  transmission : option varchar;
  fuelType : option varchar;
  seats : option integer;
  pricePerDay : option decimal;
  images : option (list text);
  features : option (option (list text));
  description : option (option text);
  isAvailable : option bool }.
End PartialCar.

Module PartialBooking.
Record t := mk {
  carId : option varchar;
  userId : option varchar;
  startDate : option timestamp;
  endDate : option timestamp;
  totalCost : option decimal;
  status : option varchar;
  paymentStatus : option varchar }.
Definition empty : t := mk None None None None None None None.
End PartialBooking.

Module PartialPayment.
Record t := mk {
  bookingId : option varchar;
  amount : option decimal;
  currency : option varchar;
  razorpayOrderId : option (option varchar);
  razorpayPaymentId : option (option varchar);
  status : option varchar }.
Definition empty : t := mk None None None None None None.
End PartialPayment.

(** [updateReview] is called with [{ ownerResponse } as any], so the partial
    review also carries the column the insert schema omits. *)
Module PartialReview.
Record t := mk {
  carId : option varchar;
  userId : option varchar;
  rating : option integer;
  comment : option (option text);
  ownerResponse : option (option text) }.
End PartialReview.

(** ** The database *)

Record DB := mkDB {
  users : list User.t;
  cars : list Car.t;
  bookings : list Booking.t;
  payments : list Payment.t;
  reviews : list Review.t }.

Definition emptyDB : DB := mkDB [] [] [] [] [].

Definition with_users (db : DB) (l : list User.t) : DB :=
  mkDB l (cars db) (bookings db) (payments db) (reviews db).
Definition with_cars (db : DB) (l : list Car.t) : DB :=
  mkDB (users db) l (bookings db) (payments db) (reviews db).
Definition with_bookings (db : DB) (l : list Booking.t) : DB :=
  mkDB (users db) (cars db) l (payments db) (reviews db).
Definition with_payments (db : DB) (l : list Payment.t) : DB :=
  mkDB (users db) (cars db) (bookings db) l (reviews db).
Definition with_reviews (db : DB) (l : list Review.t) : DB :=
  mkDB (users db) (cars db) (bookings db) (payments db) l.

(** ** Integrity constraints declared by the schema *)

(** [eq(column, value)] of drizzle, on [varchar] columns. *)
Definition eq_ (a b : varchar) : bool := String.eqb a b.

Definition refers (keys : list varchar) (k : varchar) : bool :=
  existsb (eq_ k) keys.

(** [primaryKey()] and [unique()]: no value occurs twice. *)
Fixpoint distinct (l : list varchar) : bool :=
  match l with
  | [] => true
  | k :: r => negb (refers r k) && distinct r
  end.

(** NULLs never collide under [unique()]. *)
Definition present {A : Type} (l : list (option A)) : list A :=
  flat_map (fun o => match o with Some a => [a] | None => [] end) l.

Definition users_ok (db : DB) : bool :=
  distinct (map User.id (users db)) &&
  distinct (present (map User.email (users db))).

Definition cars_ok (db : DB) : bool :=
  distinct (map Car.id (cars db)) &&
  distinct (map Car.registrationNumber (cars db)) &&
  forallb (fun c => refers (map User.id (users db)) (Car.ownerId c)) (cars db).

Definition bookings_ok (db : DB) : bool :=
  distinct (map Booking.id (bookings db)) &&
  forallb (fun b => refers (map Car.id (cars db)) (Booking.carId b)) (bookings db) &&
  forallb (fun b => refers (map User.id (users db)) (Booking.userId b)) (bookings db).

Definition payments_ok (db : DB) : bool :=
  distinct (map Payment.id (payments db)) &&
  distinct (map Payment.bookingId (payments db)) &&
  forallb (fun p => refers (map Booking.id (bookings db)) (Payment.bookingId p))
          (payments db).

Definition reviews_ok (db : DB) : bool :=
  distinct (map Review.id (reviews db)) &&
  forallb (fun r => refers (map Car.id (cars db)) (Review.carId r)) (reviews db) &&
  forallb (fun r => refers (map User.id (users db)) (Review.userId r)) (reviews db).

(** The column types: lengths, 32-bit integers, [decimal(10,2)]. *)
Definition user_columns (u : User.t) : bool := fits 20 (User.role u).

Definition car_columns (c : Car.t) : bool :=
  fits 100 (Car.brand c) && fits 100 (Car.model c)
  && int32 (Car.year c)
  && fits 50 (Car.registrationNumber c) && fits 50 (Car.carType c)
  && fits 20 (Car.transmission c) && fits 20 (Car.fuelType c)
  && int32 (Car.seats c)
  && decimal_10_2 (Car.pricePerDay c).

Definition booking_columns (b : Booking.t) : bool :=
  decimal_10_2 (Booking.totalCost b)
  && fits 20 (Booking.status b) && fits 20 (Booking.paymentStatus b).

Definition payment_columns (p : Payment.t) : bool :=
  decimal_10_2 (Payment.amount p)
  && fits 3 (Payment.currency p) && fits 20 (Payment.status p).

Definition review_columns (r : Review.t) : bool := int32 (Review.rating r).

Definition columns_ok (db : DB) : bool :=
  forallb user_columns (users db) && forallb car_columns (cars db)
  && forallb booking_columns (bookings db) && forallb payment_columns (payments db)
  && forallb review_columns (reviews db).

Definition constraints_ok (db : DB) : bool :=
  users_ok db && cars_ok db && bookings_ok db && payments_ok db && reviews_ok db
  && columns_ok db.

(** A database the store can hold. *)
Definition consistent (db : DB) : Prop := constraints_ok db = true.

(** ** The store monad *)

Inductive result (A : Type) : Type :=
| Ok (a : A)
| Throw (message : string).
Arguments Ok {A} a.
Arguments Throw {A} message.

Definition Store (A : Type) : Type := DB -> result A * DB.

Definition ret {A} (a : A) : Store A := fun db => (Ok a, db).

Definition throw {A} (message : string) : Store A := fun db => (Throw message, db).

Definition bind {A B} (m : Store A) (k : A -> Store B) : Store B :=
  fun db =>
    match m db with
    | (Ok a, db') => k a db'
    | (Throw e, db') => (Throw e, db')
    end.

(** [try { m } catch (error) { h error.message }]: the writes [m] made before
    it threw stay in the database. *)
Definition try_catch {A} (m : Store A) (h : string -> Store A) : Store A :=
  fun db =>
    match m db with
    | (Ok a, db') => (Ok a, db')
    | (Throw e, db') => h e db'
    end.

Notation "x <- m ;; k" := (bind m (fun x => k))
  (at level 61, m at next level, right associativity).

(** What the environment contributes to one statement. *)
Record Draw := mkDraw {
  uuid : varchar;
  now : timestamp;
  outage : bool }.

(** A [select]: reads the database, never writes it. *)
Definition select {A} (q : DB -> A) : Store A := fun db => (Ok (q db), db).

(** A single [insert], [update] or [delete] statement: atomic, and refused
    when the table contents it would produce break a declared constraint or
    hold a value its column cannot. *)
Definition statement {A} (d : Draw) (next : DB -> DB) (returning : DB -> A) : Store A :=
  fun db =>
    if outage d then (Throw "connection terminated", db)
    else if constraints_ok (next db) then (Ok (returning (next db)), next db)
    else (Throw "violates constraint", db).

(** [const [row] = rows]: the first row, [undefined] when there is none. *)
Definition first_row {A} (rows : list A) : option A :=
  match rows with
  | [] => None
  | r :: _ => Some r
  end.

Definition or_default {A} (o : option A) (d : A) : A :=
  match o with
  | Some a => a
  | None => d
  end.

(** [orderBy(desc(key))], as a stable insertion sort. *)
Fixpoint insert_desc {A} (key : A -> timestamp) (x : A) (l : list A) : list A :=
  match l with
  | [] => [x]
  | y :: r => if key y <=? key x then x :: y :: r else y :: insert_desc key x r
  end.

Definition orderBy_desc {A} (key : A -> timestamp) (l : list A) : list A :=
  fold_right (insert_desc key) [] l.

(** ** JavaScript numbers

    IEEE 754 doubles. A finite number is the rational it denotes; the two
    zeros are one, as no handler divides by a computed zero and JSON prints
    both as [0]. *)
Inductive number : Type :=
| Finite (q : Q)
| Infinity (negative : bool)
| NaN.

Definition zero : number := Finite 0.

(** [floor (log2 q)] of a positive rational. *)
Definition binade (q : Q) : Z :=
  let k := Z.log2 (Qnum q) - Z.log2 (Zpos (Qden q)) in
  if Qle_bool (Qpower 2 k) q then k else k - 1.

(** The integer nearest to [x], the even one of two equally near. *)
Definition nearest_even (x : Q) : Z :=
  let f := Qfloor x in
  match (x - inject_Z f ?= 1 # 2)%Q with
  | Lt => f
  | Gt => f + 1
  | Eq => if Z.even f then f else f + 1
  end.

(** Rounding to the nearest double, ties to even: 53 significant bits,
    least exponent [-1022] (below it the spacing stays [2^-1074]), and
    infinity from [2^1024] on. *)
Definition to_double (q : Q) : number :=
  if Qeq_bool q 0 then Finite 0
  else
    let a := Qabs q in
    let e := Z.max (binade a) (-1022) in
    let ulp := Qpower 2 (e - 52) in
    let r := (inject_Z (nearest_even (a / ulp)) * ulp)%Q in
    if Qle_bool (Qpower 2 1024) r then Infinity (Qnum q <? 0)
    else Finite (Qred (if Qnum q <? 0 then (- r)%Q else r)).

(** [x + y] *)
Definition add (x y : number) : number :=
  match x, y with
  | NaN, _ | _, NaN => NaN
  | Infinity s, Infinity t => if Bool.eqb s t then Infinity s else NaN
  | Infinity s, Finite _ | Finite _, Infinity s => Infinity s
  | Finite a, Finite b => to_double (a + b)
  end.

(** [x / y] *)
Definition div (x y : number) : number :=
  match x, y with
  | NaN, _ | _, NaN => NaN
  | Infinity _, Infinity _ => NaN
  | Infinity s, Finite b => Infinity (xorb s (Qnum b <? 0))
  | Finite _, Infinity _ => Finite 0
  | Finite a, Finite b =>
      if Qeq_bool b 0
      then if Qeq_bool a 0 then NaN else Infinity (Qnum a <? 0)
      else to_double (a / b)
  end.

(** [x <= y] and [x >= y]: false as soon as one side is NaN. *)
Definition leb (x y : number) : bool :=
  match x, y with
  | NaN, _ | _, NaN => false
  | Infinity true, _ => true
  | Infinity false, Infinity t => negb t
  | Infinity false, Finite _ => false
  | Finite _, Infinity t => negb t
  | Finite a, Finite b => Qle_bool a b
  end.

Definition geb (x y : number) : bool := leb y x.

(** The number read from an [integer] column or from [length], and
    [Number(s)] for the string [s] read from a [decimal] column. *)
Definition of_integer (z : Z) : number := to_double (inject_Z z).
Definition of_nat (n : nat) : number := of_integer (Z.of_nat n).
Definition Number (v : decimal) : number := to_double v.

(** The doubles of the Standard Library's specification of IEEE 754, read
    as numbers. *)
Definition of_spec_float (x : spec_float) : number :=
  match x with
  | S754_zero _ => Finite 0
  | S754_infinity s => Infinity s
  | S754_nan => NaN
  | S754_finite s m e =>
      let v := (inject_Z (Zpos m) * Qpower 2 e)%Q in
      Finite (Qred (if s then (- v)%Q else v))
  end.

Definition binary64 (z : Z) : spec_float := binary_normalize 53 1024 z 0 false.

(** [for (const x of l) { s = body(s, x) }] with awaited calls in the body. *)
Fixpoint for_of {A S} (l : list A) (body : S -> A -> Store S) (s : S) : Store S :=
  match l with
  | [] => ret s
  | x :: r => s' <- body s x ;; for_of r body s'
  end.

(** [await Promise.all(l.map(async (x) => f x))]. *)
Fixpoint promise_all_map {A B} (f : A -> Store B) (l : list A) : Store (list B) :=
  match l with
  | [] => ret []
  | x :: r => y <- f x ;; ys <- promise_all_map f r ;; ret (y :: ys)
  end.

(** [rows.reduce((sum, r) => sum + value(r), 0)]. *)
Definition reduce_sum {A} (value : A -> number) (rows : list A) : number :=
  fold_left (fun sum r => add sum (value r)) rows zero.

Definition length_number {A} (rows : list A) : number := of_nat (List.length rows).

(** [{ ...car, averageRating, reviewCount }]. *)
Module CarWithRating.
Record t := mk {
  car : Car.t;
  averageRating : number;
  reviewCount : nat }.
End CarWithRating.

(** ** Row construction and partial updates

    What [values(data)] and [set(data)] write: the store keeps a value in
    the form its column gives it ([varchar_n], [round2]). *)

(** A column under [set]: the given value as the column stores it, or the
    old value when the key is absent. *)
Definition set_to {A} (stored : A -> A) (given : option A) (old : A) : A :=
  match given with
  | Some v => stored v
  | None => old
  end.

Definition keep {A} (a : A) : A := a.

Definition patch_user (u : User.t) (p : UpsertUser.t) (at_ : timestamp) : User.t :=
  User.mk (User.id u)
    (match UpsertUser.email p with Some e => Some e | None => User.email u end)
    (match UpsertUser.firstName p with Some e => Some e | None => User.firstName u end)
    (match UpsertUser.lastName p with Some e => Some e | None => User.lastName u end)
    (match UpsertUser.profileImageUrl p with Some e => Some e | None => User.profileImageUrl u end)
    (set_to (varchar_n 20) (UpsertUser.role p) (User.role u))
    (match UpsertUser.governmentId p with Some e => Some e | None => User.governmentId u end)
    (User.createdAt u) at_.

Definition new_user (d : Draw) (p : UpsertUser.t) : User.t :=
  User.mk (or_default (UpsertUser.id p) (uuid d))
    (UpsertUser.email p) (UpsertUser.firstName p) (UpsertUser.lastName p)
    (UpsertUser.profileImageUrl p) (varchar_n 20 (or_default (UpsertUser.role p) "user"))
    (UpsertUser.governmentId p) (now d) (now d).

Definition new_car (d : Draw) (c : InsertCar.t) : Car.t :=
  Car.mk (uuid d) (InsertCar.ownerId c)
    (varchar_n 100 (InsertCar.brand c)) (varchar_n 100 (InsertCar.model c))
    (InsertCar.year c)
    (varchar_n 50 (InsertCar.registrationNumber c)) (varchar_n 50 (InsertCar.carType c))
    (varchar_n 20 (InsertCar.transmission c)) (varchar_n 20 (InsertCar.fuelType c))
    (InsertCar.seats c)
    (round2 (InsertCar.pricePerDay c)) (InsertCar.images c) (InsertCar.features c)
    (InsertCar.description c) (or_default (InsertCar.isAvailable c) true)
    (Some (now d)) (now d).

(** [createdAt] can only be set to NULL: see [updateCar]. *)
Definition patch_car (c : Car.t) (p : PartialCar.t) (at_ : timestamp) : Car.t :=
  Car.mk (set_to keep (PartialCar.id p) (Car.id c))
    (set_to keep (PartialCar.ownerId p) (Car.ownerId c))
    (set_to (varchar_n 100) (PartialCar.brand p) (Car.brand c))
    (set_to (varchar_n 100) (PartialCar.model p) (Car.model c))
    (set_to keep (PartialCar.year p) (Car.year c))
    (set_to (varchar_n 50) (PartialCar.registrationNumber p) (Car.registrationNumber c))
    (set_to (varchar_n 50) (PartialCar.carType p) (Car.carType c))
    (set_to (varchar_n 20) (PartialCar.transmission p) (Car.transmission c))
    (set_to (varchar_n 20) (PartialCar.fuelType p) (Car.fuelType c))
    (set_to keep (PartialCar.seats p) (Car.seats c))
    (set_to round2 (PartialCar.pricePerDay p) (Car.pricePerDay c))
    (set_to keep (PartialCar.images p) (Car.images c))
    (set_to keep (PartialCar.features p) (Car.features c))
    (set_to keep (PartialCar.description p) (Car.description c))
    (set_to keep (PartialCar.isAvailable p) (Car.isAvailable c))
    (match PartialCar.createdAt p with
     | Some _ => None
     | None => Car.createdAt c
     end)
    at_.

Definition new_booking (d : Draw) (b : InsertBooking.t) : Booking.t :=
  Booking.mk (uuid d) (InsertBooking.carId b) (InsertBooking.userId b)
    (InsertBooking.startDate b) (InsertBooking.endDate b)
    (round2 (InsertBooking.totalCost b))
    (varchar_n 20 (or_default (InsertBooking.status b) "pending"))
    (varchar_n 20 (or_default (InsertBooking.paymentStatus b) "pending"))
    (now d) (now d).

Definition patch_booking (b : Booking.t) (p : PartialBooking.t) (at_ : timestamp)
  : Booking.t :=
  Booking.mk (Booking.id b)
    (set_to keep (PartialBooking.carId p) (Booking.carId b))
    (set_to keep (PartialBooking.userId p) (Booking.userId b))
    (set_to keep (PartialBooking.startDate p) (Booking.startDate b))
    (set_to keep (PartialBooking.endDate p) (Booking.endDate b))
    (set_to round2 (PartialBooking.totalCost p) (Booking.totalCost b))
    (set_to (varchar_n 20) (PartialBooking.status p) (Booking.status b))
    (set_to (varchar_n 20) (PartialBooking.paymentStatus p) (Booking.paymentStatus b))
    (Booking.createdAt b) at_.

Definition new_payment (d : Draw) (p : InsertPayment.t) : Payment.t :=
  Payment.mk (uuid d) (InsertPayment.bookingId p) (round2 (InsertPayment.amount p))
    (varchar_n 3 (or_default (InsertPayment.currency p) "INR"))
    (InsertPayment.razorpayOrderId p) (InsertPayment.razorpayPaymentId p)
    (varchar_n 20 (or_default (InsertPayment.status p) "pending"))
    (now d) (now d).

Definition patch_payment (x : Payment.t) (p : PartialPayment.t) (at_ : timestamp)
  : Payment.t :=
  Payment.mk (Payment.id x)
    (set_to keep (PartialPayment.bookingId p) (Payment.bookingId x))
    (set_to round2 (PartialPayment.amount p) (Payment.amount x))
    (set_to (varchar_n 3) (PartialPayment.currency p) (Payment.currency x))
    (set_to keep (PartialPayment.razorpayOrderId p) (Payment.razorpayOrderId x))
    (set_to keep (PartialPayment.razorpayPaymentId p) (Payment.razorpayPaymentId x))
    (set_to (varchar_n 20) (PartialPayment.status p) (Payment.status x))
    (Payment.createdAt x) at_.

Definition new_review (d : Draw) (r : InsertReview.t) : Review.t :=
  Review.mk (uuid d) (InsertReview.carId r) (InsertReview.userId r)
    (InsertReview.rating r) (InsertReview.comment r) None (now d) (now d).

Definition patch_review (r : Review.t) (p : PartialReview.t) (at_ : timestamp)
  : Review.t :=
  Review.mk (Review.id r)
    (set_to keep (PartialReview.carId p) (Review.carId r))
    (set_to keep (PartialReview.userId p) (Review.userId r))
    (set_to keep (PartialReview.rating p) (Review.rating r))
    (set_to keep (PartialReview.comment p) (Review.comment r))
    (set_to keep (PartialReview.ownerResponse p) (Review.ownerResponse r))
    (Review.createdAt r) at_.

(** [update(t).set(f).where(w).returning()]: every row selected by [w] is
    rewritten; the new versions come last in the table, and they are what
    [returning()] answers. *)
Definition updated_rows {A} (w : A -> bool) (f : A -> A) (rows : list A) : list A :=
  map f (filter w rows).

Definition update_where {A} (w : A -> bool) (f : A -> A) (rows : list A) : list A :=
  filter (fun r => negb (w r)) rows ++ updated_rows w f rows.

(** [delete(cars).where(eq(cars.id, id))] with the [onDelete: 'cascade']
    references of bookings, reviews and (through bookings) payments. *)
Definition delete_car_cascade (id : varchar) (db : DB) : DB :=
  if refers (map Car.id (cars db)) id then
    let gone := filter (fun b => eq_ (Booking.carId b) id) (bookings db) in
    mkDB (users db)
         (filter (fun c => negb (eq_ (Car.id c) id)) (cars db))
         (filter (fun b => negb (eq_ (Booking.carId b) id)) (bookings db))
         (filter (fun p => negb (refers (map Booking.id gone) (Payment.bookingId p)))
                 (payments db))
         (filter (fun r => negb (eq_ (Review.carId r) id)) (reviews db))
  else db.

(** ** [DatabaseStorage] *)

Module Storage.

(** *** User operations *)

Definition getUser (id : varchar) : Store (option User.t) :=
  select (fun db => first_row (filter (fun u => eq_ (User.id u) id) (users db))).

Definition upsertUser (d : Draw) (userData : UpsertUser.t) : Store User.t :=
  fun db =>
    let key := or_default (UpsertUser.id userData) (uuid d) in
    match first_row (filter (fun u => eq_ (User.id u) key) (users db)) with
    | None =>
        let user := new_user d userData in
        statement d (fun db => with_users db (users db ++ [user])) (fun _ => user) db
    | Some u =>
        let user := patch_user u userData (now d) in
        statement d
          (fun db => with_users db
             (update_where (fun u => eq_ (User.id u) key)
                           (fun u => patch_user u userData (now d)) (users db)))
          (fun _ => user) db
    end.

(** *** Car operations *)

Definition carReviews_of (db : DB) (carId : varchar) : list Review.t :=
  filter (fun r => eq_ (Review.carId r) carId) (reviews db).

Definition getAllCars : Store (list CarWithRating.t) :=
  allCars <- select (fun db => filter (fun c => Bool.eqb (Car.isAvailable c) true) (cars db)) ;;
  carsWithRatings <-
    promise_all_map
      (fun car =>
         carReviews <- select (fun db => carReviews_of db (Car.id car)) ;;
         let avgRating :=
           if (0 <? List.length carReviews)%nat
           then div (reduce_sum (fun r => of_integer (Review.rating r)) carReviews)
                    (length_number carReviews)
           else zero in
         ret (CarWithRating.mk car avgRating (List.length carReviews)))
      allCars ;;
  ret carsWithRatings.

Definition getCarById (id : varchar) : Store (option Car.t) :=
  select (fun db => first_row (filter (fun c => eq_ (Car.id c) id) (cars db))).

Definition getCarsByOwner (ownerId : varchar) : Store (list Car.t) :=
  select (fun db => filter (fun c => eq_ (Car.ownerId c) ownerId) (cars db)).

Definition createCar (d : Draw) (carData : InsertCar.t) : Store Car.t :=
  let car := new_car d carData in
  statement d (fun db => with_cars db (cars db ++ [car])) (fun _ => car).

(** The timestamp column encodes a value with [value.toISOString()]: a
    [createdAt] that is not [null] throws before any statement is sent. *)
Definition updateCar (d : Draw) (id : varchar) (carData : PartialCar.t)
  : Store (option Car.t) :=
  match PartialCar.createdAt carData with
  | Some JsonNotADate => throw "value.toISOString is not a function"
  | _ =>
      fun db =>
        let w := fun c => eq_ (Car.id c) id in
        let f := fun c => patch_car c carData (now d) in
        statement d
          (fun db => with_cars db (update_where w f (cars db)))
          (fun _ => first_row (updated_rows w f (cars db))) db
  end.

Definition deleteCar (d : Draw) (id : varchar) : Store unit :=
  statement d (delete_car_cascade id) (fun _ => tt).

(** *** Booking operations *)

Definition getAllBookings : Store (list Booking.t) :=
  select (fun db => orderBy_desc Booking.createdAt (bookings db)).

Definition getBookingById (id : varchar) : Store (option Booking.t) :=
  select (fun db => first_row (filter (fun b => eq_ (Booking.id b) id) (bookings db))).

Definition getBookingsByUser (userId : varchar) : Store (list Booking.t) :=
  select (fun db =>
    orderBy_desc Booking.createdAt
      (filter (fun b => eq_ (Booking.userId b) userId) (bookings db))).

Definition getBookingsByOwner (ownerId : varchar) : Store (list Booking.t) :=
  ownerCars <- getCarsByOwner ownerId ;;
  let carIds := map Car.id ownerCars in
  if (List.length carIds =? 0)%nat then ret []
  else
    for_of carIds
      (fun allBookings carId =>
         carBookings <-
           select (fun db =>
             orderBy_desc Booking.createdAt
               (filter (fun b => eq_ (Booking.carId b) carId) (bookings db))) ;;
         ret (allBookings ++ carBookings))
      [].

Definition createBooking (d : Draw) (bookingData : InsertBooking.t) : Store Booking.t :=
  let booking := new_booking d bookingData in
  statement d (fun db => with_bookings db (bookings db ++ [booking])) (fun _ => booking).

Definition updateBooking (d : Draw) (id : varchar) (bookingData : PartialBooking.t)
  : Store (option Booking.t) :=
  fun db =>
    let w := fun b => eq_ (Booking.id b) id in
    let f := fun b => patch_booking b bookingData (now d) in
    statement d
      (fun db => with_bookings db (update_where w f (bookings db)))
      (fun _ => first_row (updated_rows w f (bookings db))) db.

(** The rows selected by [checkAvailability]: same car, status
    [IN ('confirmed', 'pending')], and
    [start_date <= endDate AND end_date >= startDate]. *)
Definition overlappingBookings (db : DB) (carId : varchar) (startDate endDate : timestamp)
  : list Booking.t :=
  filter
    (fun b =>
       eq_ (Booking.carId b) carId
       && (eq_ (Booking.status b) "confirmed" || eq_ (Booking.status b) "pending")
       && ((Booking.startDate b <=? endDate) && (Booking.endDate b >=? startDate)))
    (bookings db).

Definition checkAvailability (carId : varchar) (startDate endDate : timestamp)
  : Store bool :=
  overlapping <- select (fun db => overlappingBookings db carId startDate endDate) ;;
  ret (List.length overlapping =? 0)%nat.

(** *** Payment operations *)

Definition createPayment (d : Draw) (paymentData : InsertPayment.t) : Store Payment.t :=
  let payment := new_payment d paymentData in
  statement d (fun db => with_payments db (payments db ++ [payment])) (fun _ => payment).

Definition getPaymentByBookingId (bookingId : varchar) : Store (option Payment.t) :=
  select (fun db =>
    first_row (filter (fun p => eq_ (Payment.bookingId p) bookingId) (payments db))).

Definition updatePayment (d : Draw) (id : varchar) (paymentData : PartialPayment.t)
  : Store (option Payment.t) :=
  fun db =>
    let w := fun p => eq_ (Payment.id p) id in
    let f := fun p => patch_payment p paymentData (now d) in
    statement d
      (fun db => with_payments db (update_where w f (payments db)))
      (fun _ => first_row (updated_rows w f (payments db))) db.

(** *** Review operations *)

Definition getReviewsByCarId (carId : varchar) : Store (list Review.t) :=
  select (fun db => orderBy_desc Review.createdAt (carReviews_of db carId)).

Definition createReview (d : Draw) (reviewData : InsertReview.t) : Store Review.t :=
  let review := new_review d reviewData in
  statement d (fun db => with_reviews db (reviews db ++ [review])) (fun _ => review).

Definition updateReview (d : Draw) (id : varchar) (reviewData : PartialReview.t)
  : Store (option Review.t) :=
  fun db =>
    let w := fun r => eq_ (Review.id r) id in
    let f := fun r => patch_review r reviewData (now d) in
    statement d
      (fun db => with_reviews db (update_where w f (reviews db)))
      (fun _ => first_row (updated_rows w f (reviews db))) db.

Definition getAverageRating (carId : varchar) : Store number :=
  carReviews <- getReviewsByCarId carId ;;
  if (List.length carReviews =? 0)%nat then ret zero
  else
    let total := reduce_sum (fun review => of_integer (Review.rating review)) carReviews in
    ret (div total (length_number carReviews)).

End Storage.

(** ** [registerRoutes]: the request handlers *)

(** String helpers of the car filter: [String.prototype.includes] and
    [split(',')], which on UTF-8 text are the same on bytes as on
    characters. [toLowerCase] follows the case tables of Unicode, which are
    no part of this development: the handler takes it as a parameter.
    [lower_ascii_only] is the function that lowers the letters A to Z and
    nothing else, for running the handler on ASCII text. *)
Definition lower_ascii (c : ascii) : ascii :=
  let n := nat_of_ascii c in
  if ((65 <=? n) && (n <=? 90))%nat then ascii_of_nat (n + 32) else c.

Fixpoint lower_ascii_only (s : string) : string :=
  match s with
  | EmptyString => EmptyString
  | String c r => String (lower_ascii c) (lower_ascii_only r)
  end.

Fixpoint includes (s sub : string) : bool :=
  String.prefix sub s ||
  match s with
  | EmptyString => false
  | String _ r => includes r sub
  end.

Fixpoint split_from (s cur : string) : list string :=
  match s with
  | EmptyString => [cur]
  | String c r =>
      if Ascii.eqb c ","%char then cur :: split_from r EmptyString
      else split_from r (cur ++ String c EmptyString)%string
  end.

Definition split_comma (s : string) : list string := split_from s EmptyString.

(** [req.query] of [GET /api/cars]. A field is [Some] when the parameter is
    a non-empty string, the only case in which the handler filters on it;
    a price bound comes as its value under [Number], which may be NaN or
    infinite. *)
Module CarsQuery.
Record t := mk {
  search : option string;
  minPrice : option number;
  maxPrice : option number;
  brands : option string;
  carTypes : option string;
  transmission : option string }.
Definition none : t := mk None None None None None None.
End CarsQuery.

(** [req.body] of [POST /api/bookings], dates already under [new Date]. *)
Module BookingBody.
Record t := mk {
  carId : varchar;
  startDate : timestamp;
  endDate : timestamp;
  totalCost : decimal }.
End BookingBody.

(** [req.body] of [POST /api/reviews]. *)
Module ReviewBody.
Record t := mk {
  carId : varchar;
  rating : integer;
  comment : option text }.
End ReviewBody.

Module OwnerStats.
Record t := mk {
  totalCars : nat;
  totalRevenue : number;
  activeBookings : nat;
  averageRating : number }.
End OwnerStats.

Module AdminStats.
Record t := mk {
  totalUsers : nat;
  totalCars : nat;
  totalBookings : nat;
  totalRevenue : number }.
End AdminStats.

Inductive Json : Type :=
| JMessage (message : string)
| JUser (user : option User.t)
| JCars (cars : list CarWithRating.t)
| JCarDetail (car : Car.t) (owner : option User.t)
             (reviews : list (Review.t * option User.t)) (averageRating : number)
| JCar (car : option Car.t)
| JBooking (booking : Booking.t)
| JReview (review : option Review.t)
| JOwnerDashboard (cars : list Car.t) (bookings : list (Booking.t * option Car.t))
                  (stats : OwnerStats.t)
| JAdminDashboard (users : list User.t) (cars : list (CarWithRating.t * option User.t))
                  (bookings : list (Booking.t * option Car.t * option User.t))
                  (stats : AdminStats.t).

Module Response.
Record t := mk {
  status : nat;
  body : Json }.
End Response.

(** [res.json(x)] and [res.status(code).json(x)]. *)
Definition json (x : Json) : Response.t := Response.mk 200 x.
Definition status_json (code : nat) (x : Json) : Response.t := Response.mk code x.

(** [error.message || fallback]. *)
Definition message_or (message fallback : string) : string :=
  if String.eqb message "" then fallback else message.

(** [user?.role !== expected]. *)
Definition role_is_not (user : option User.t) (expected : varchar) : bool :=
  match user with
  | Some u => negb (eq_ (User.role u) expected)
  | None => true
  end.

Definition with_ownerId (c : InsertCar.t) (ownerId : varchar) : InsertCar.t :=
  InsertCar.mk ownerId (InsertCar.brand c) (InsertCar.model c) (InsertCar.year c)
    (InsertCar.registrationNumber c) (InsertCar.carType c) (InsertCar.transmission c)
    (InsertCar.fuelType c) (InsertCar.seats c) (InsertCar.pricePerDay c)
    (InsertCar.images c) (InsertCar.features c) (InsertCar.description c)
    (InsertCar.isAvailable c).

Definition when_param {P A} (param : option P) (holds : P -> A -> bool) (l : list A)
  : list A :=
  match param with
  | Some p => filter (holds p) l
  | None => l
  end.

(** [insertCarSchema.parse] and [insertReviewSchema.parse] on a body whose
    fields have the types of the schema: a string column of length [n]
    accepts [n] UTF-16 code units, an integer column a 32-bit integer;
    [pricePerDay] is turned into a string, which is the same decimal. *)
Definition insertCarSchema_parse (c : InsertCar.t) : result InsertCar.t :=
  if ((js_length (InsertCar.brand c) <=? 100) && (js_length (InsertCar.model c) <=? 100)
      && (js_length (InsertCar.registrationNumber c) <=? 50)
      && (js_length (InsertCar.carType c) <=? 50)
      && (js_length (InsertCar.transmission c) <=? 20)
      && (js_length (InsertCar.fuelType c) <=? 20))%nat
     && int32 (InsertCar.year c) && int32 (InsertCar.seats c)
  then Ok c
  else Throw "invalid car".

Definition insertReviewSchema_parse (r : InsertReview.t) : result InsertReview.t :=
  if int32 (InsertReview.rating r) then Ok r else Throw "invalid review".

(** A synchronous call that may throw, in the middle of a handler. *)
Definition parsed {A} (r : result A) : Store A := fun db => (r, db).

Module UserStats.
Record t := mk {
  totalBookings : nat;
  upcomingBookings : nat;
  completedBookings : nat }.
End UserStats.

(** What [GET /api/user/bookings] sends: the bookings with their car and
    payment and the three counters, or a status with a message. *)
Inductive UserBookings : Type :=
| UserBookingsJson (bookings : list (Booking.t * option Car.t * option Payment.t))
                   (stats : UserStats.t)
| UserBookingsFailed (status : nat) (message : string).

Module Routes.

(** [GET /api/cars] *)
Definition get_api_cars (toLowerCase : string -> string) (query : CarsQuery.t)
  : Store Response.t :=
  try_catch
    (cars <- Storage.getAllCars ;;
     let by_car {P} (holds : P -> Car.t -> bool) (p : P) (x : CarWithRating.t) :=
       holds p (CarWithRating.car x) in
     let cars :=
       when_param (CarsQuery.search query)
         (by_car (fun search car =>
            let searchLower := toLowerCase search in
            includes (toLowerCase (Car.brand car)) searchLower
            || includes (toLowerCase (Car.model car)) searchLower))
         cars in
     let cars :=
       when_param (CarsQuery.minPrice query)
         (by_car (fun minPrice car => geb (Number (Car.pricePerDay car)) minPrice))
         cars in
     let cars :=
       when_param (CarsQuery.maxPrice query)
         (by_car (fun maxPrice car => leb (Number (Car.pricePerDay car)) maxPrice))
         cars in
     let cars :=
       when_param (CarsQuery.brands query)
         (by_car (fun brands car =>
            let brandList := split_comma brands in
            existsb (String.eqb (Car.brand car)) brandList))
         cars in
     let cars :=
       when_param (CarsQuery.carTypes query)
         (by_car (fun carTypes car =>
            let typeList := split_comma carTypes in
            existsb (String.eqb (Car.carType car)) typeList))
         cars in
     let cars :=
       when_param (CarsQuery.transmission query)
         (by_car (fun transmission car =>
            let transmissionList := split_comma transmission in
            existsb (String.eqb (Car.transmission car)) transmissionList))
         cars in
     ret (json (JCars cars)))
    (fun _ => ret (status_json 500 (JMessage "Failed to fetch cars"))).

(** [GET /api/cars/:id] *)
Definition get_api_cars_id (id : varchar) : Store Response.t :=
  try_catch
    (car <- Storage.getCarById id ;;
     match car with
     | None => ret (status_json 404 (JMessage "Car not found"))
     | Some car =>
         owner <- Storage.getUser (Car.ownerId car) ;;
         carReviews <- Storage.getReviewsByCarId (Car.id car) ;;
         reviewsWithUsers <-
           promise_all_map
             (fun review =>
                user <- Storage.getUser (Review.userId review) ;;
                ret (review, user))
             carReviews ;;
         averageRating <- Storage.getAverageRating (Car.id car) ;;
         ret (json (JCarDetail car owner reviewsWithUsers averageRating))
     end)
    (fun _ => ret (status_json 500 (JMessage "Failed to fetch car details"))).

(** [POST /api/cars] *)
Definition post_api_cars (d : Draw) (userId : varchar) (body : InsertCar.t)
  : Store Response.t :=
  try_catch
    (user <- Storage.getUser userId ;;
     if role_is_not user "owner"
     then ret (status_json 403 (JMessage "Only owners can add cars"))
     else
       carData <- parsed (insertCarSchema_parse (with_ownerId body userId)) ;;
       car <- Storage.createCar d carData ;;
       ret (json (JCar (Some car))))
    (fun message =>
       ret (status_json 400 (JMessage (message_or message "Failed to create car")))).

(** [PUT /api/cars/:id] *)
Definition put_api_cars_id (d : Draw) (userId id : varchar) (body : PartialCar.t)
  : Store Response.t :=
  try_catch
    (car <- Storage.getCarById id ;;
     match car with
     | None => ret (status_json 404 (JMessage "Car not found"))
     | Some car =>
         if negb (eq_ (Car.ownerId car) userId)
         then ret (status_json 403 (JMessage "Not authorized"))
         else
           updatedCar <- Storage.updateCar d id body ;;
           ret (json (JCar updatedCar))
     end)
    (fun message =>
       ret (status_json 400 (JMessage (message_or message "Failed to update car")))).

(** [DELETE /api/cars/:id] *)
Definition delete_api_cars_id (d : Draw) (userId id : varchar) : Store Response.t :=
  try_catch
    (car <- Storage.getCarById id ;;
     match car with
     | None => ret (status_json 404 (JMessage "Car not found"))
     | Some car =>
         if negb (eq_ (Car.ownerId car) userId)
         then ret (status_json 403 (JMessage "Not authorized"))
         else
           _ <- Storage.deleteCar d id ;;
           ret (json (JMessage "Car deleted successfully"))
     end)
    (fun _ => ret (status_json 500 (JMessage "Failed to delete car"))).

(** The record [insertBookingSchema.parse] returns in [POST /api/bookings]. *)
Definition bookingData_of (userId : varchar) (body : BookingBody.t) : InsertBooking.t :=
  InsertBooking.mk (BookingBody.carId body) userId
    (BookingBody.startDate body) (BookingBody.endDate body)
    (BookingBody.totalCost body) (Some "pending") (Some "pending").

Definition paymentData_of (booking : Booking.t) (totalCost : decimal) : InsertPayment.t :=
  InsertPayment.mk (Booking.id booking) totalCost (Some "INR") None None (Some "pending").

(** [POST /api/bookings]: [d1] is drawn for the booking insert, [d2] for
    the payment insert. *)
Definition post_api_bookings (d1 d2 : Draw) (userId : varchar) (body : BookingBody.t)
  : Store Response.t :=
  try_catch
    (isAvailable <-
       Storage.checkAvailability (BookingBody.carId body)
         (BookingBody.startDate body) (BookingBody.endDate body) ;;
     if negb isAvailable
     then ret (status_json 400
                 (JMessage "Car is not available for the selected dates"))
     else
       let bookingData := bookingData_of userId body in
       booking <- Storage.createBooking d1 bookingData ;;
       _ <- Storage.createPayment d2
              (paymentData_of booking (BookingBody.totalCost body)) ;;
       ret (json (JBooking booking)))
    (fun message =>
       ret (status_json 400 (JMessage (message_or message "Failed to create booking")))).

(** [totalRevenue] of both dashboards. *)
Definition totalRevenue_of (someBookings : list Booking.t) : number :=
  reduce_sum (fun b => Number (Booking.totalCost b))
    (filter (fun b => eq_ (Booking.paymentStatus b) "paid") someBookings).

(** [GET /api/owner/dashboard] *)
Definition get_api_owner_dashboard (userId : varchar) : Store Response.t :=
  try_catch
    (user <- Storage.getUser userId ;;
     if role_is_not user "owner"
     then ret (status_json 403 (JMessage "Not authorized"))
     else
       ownerCars <- Storage.getCarsByOwner userId ;;
       ownerBookings <- Storage.getBookingsByOwner userId ;;
       bookingsWithCars <-
         promise_all_map
           (fun booking =>
              car <- Storage.getCarById (Booking.carId booking) ;;
              ret (booking, car))
           ownerBookings ;;
       let totalRevenue := totalRevenue_of ownerBookings in
       let activeBookings :=
         List.length
           (filter (fun b => eq_ (Booking.status b) "confirmed"
                             || eq_ (Booking.status b) "pending")
                   ownerBookings) in
       totals <-
         for_of ownerCars
           (fun (acc : number * nat) car =>
              let (totalRating, totalReviews) := acc in
              reviews <- Storage.getReviewsByCarId (Car.id car) ;;
              ret (add totalRating
                       (reduce_sum (fun r => of_integer (Review.rating r)) reviews),
                   (totalReviews + List.length reviews)%nat))
           (zero, 0%nat) ;;
       let (totalRating, totalReviews) := totals in
       let averageRating :=
         if (0 <? totalReviews)%nat
         then div totalRating (of_nat totalReviews)
         else zero in
       ret (json (JOwnerDashboard ownerCars bookingsWithCars
                    (OwnerStats.mk (List.length ownerCars) totalRevenue
                                   activeBookings averageRating))))
    (fun _ => ret (status_json 500 (JMessage "Failed to fetch dashboard data"))).

(** [GET /api/admin/dashboard] *)
Definition get_api_admin_dashboard (userId : varchar) : Store Response.t :=
  try_catch
    (user <- Storage.getUser userId ;;
     if role_is_not user "admin"
     then ret (status_json 403 (JMessage "Not authorized"))
     else
       allCars <- Storage.getAllCars ;;
       allBookings <- Storage.getAllBookings ;;
       let allUsers : list User.t := [] in
       carsWithOwners <-
         promise_all_map
           (fun car =>
              owner <- Storage.getUser (Car.ownerId (CarWithRating.car car)) ;;
              ret (car, owner))
           allCars ;;
       bookingsWithDetails <-
         promise_all_map
           (fun booking =>
              car <- Storage.getCarById (Booking.carId booking) ;;
              bookingUser <- Storage.getUser (Booking.userId booking) ;;
              ret (booking, car, bookingUser))
           allBookings ;;
       let totalRevenue := totalRevenue_of allBookings in
       ret (json (JAdminDashboard allUsers carsWithOwners bookingsWithDetails
                    (AdminStats.mk 0 (List.length allCars) (List.length allBookings)
                                   totalRevenue))))
    (fun _ => ret (status_json 500 (JMessage "Failed to fetch dashboard data"))).

(** [POST /api/reviews] *)
Definition post_api_reviews (d : Draw) (userId : varchar) (body : ReviewBody.t)
  : Store Response.t :=
  try_catch
    (reviewData <-
       parsed (insertReviewSchema_parse
                 (InsertReview.mk (ReviewBody.carId body) userId (ReviewBody.rating body)
                                  (ReviewBody.comment body))) ;;
     review <- Storage.createReview d reviewData ;;
     ret (json (JReview (Some review))))
    (fun message =>
       ret (status_json 400 (JMessage (message_or message "Failed to create review")))).

(** [PUT /api/reviews/:id/response]; [ownerResponse] is [req.body.ownerResponse],
    [None] when the key is missing. *)
Definition put_api_reviews_id_response (d : Draw) (userId id : varchar)
           (ownerResponse : option (option text)) : Store Response.t :=
  try_catch
    (user <- Storage.getUser userId ;;
     if role_is_not user "owner"
     then ret (status_json 403 (JMessage "Only owners can respond to reviews"))
     else
       review <- Storage.updateReview d id
                   (PartialReview.mk None None None None ownerResponse) ;;
       ret (json (JReview review)))
    (fun message =>
       ret (status_json 400 (JMessage (message_or message "Failed to update review")))).

(** [GET /api/auth/user] *)
Definition get_api_auth_user (userId : varchar) : Store Response.t :=
  try_catch
    (user <- Storage.getUser userId ;;
     ret (json (JUser user)))
    (fun _ => ret (status_json 500 (JMessage "Failed to fetch user"))).

(** [GET /api/user/bookings]; [clock] is what [new Date()] reads while the
    upcoming bookings are counted. *)
Definition get_api_user_bookings (clock : timestamp) (userId : varchar)
  : Store UserBookings :=
  try_catch
    (userBookings <- Storage.getBookingsByUser userId ;;
     bookingsWithDetails <-
       promise_all_map
         (fun booking =>
            car <- Storage.getCarById (Booking.carId booking) ;;
            payment <- Storage.getPaymentByBookingId (Booking.id booking) ;;
            ret (booking, car, payment))
         userBookings ;;
     let totalBookings := List.length userBookings in
     let upcomingBookings :=
       List.length
         (filter (fun b => eq_ (Booking.status b) "confirmed"
                           && (clock <? Booking.startDate b))
                 userBookings) in
     let completedBookings :=
       List.length (filter (fun b => eq_ (Booking.status b) "completed") userBookings) in
     ret (UserBookingsJson bookingsWithDetails
            (UserStats.mk totalBookings upcomingBookings completedBookings)))
    (fun _ => ret (UserBookingsFailed 500 "Failed to fetch bookings")).

End Routes.

(** ** Running computations *)

Definition answer {A} (m : Store A) (db : DB) : result A := fst (m db).
Definition after {A} (m : Store A) (db : DB) : DB := snd (m db).

(** ** Requests in flight

    An [async] handler runs until its next [await] and is resumed when the
    awaited statement has been executed by the store; between two resumptions
    of one request the store may serve another. A [POST /api/bookings]
    request is suspended at one of its three awaits, or has responded. *)

Inductive InFlight : Type :=
| AtCheckAvailability (userId : varchar) (body : BookingBody.t)
| AtCreateBooking (userId : varchar) (body : BookingBody.t)
| AtCreatePayment (body : BookingBody.t) (booking : Booking.t)
| Responded (response : Response.t).

Definition failed_booking (message : string) : Response.t :=
  status_json 400 (JMessage (message_or message "Failed to create booking")).

(** Executes the awaited statement and runs the handler to its next await. *)
Definition resume (d : Draw) (r : InFlight) (db : DB) : InFlight * DB :=
  match r with
  | AtCheckAvailability userId body =>
      match Storage.checkAvailability (BookingBody.carId body)
              (BookingBody.startDate body) (BookingBody.endDate body) db with
      | (Ok isAvailable, db') =>
          if negb isAvailable
          then (Responded (status_json 400
                  (JMessage "Car is not available for the selected dates")), db')
          else (AtCreateBooking userId body, db')
      | (Throw message, db') => (Responded (failed_booking message), db')
      end
  | AtCreateBooking userId body =>
      match Storage.createBooking d (Routes.bookingData_of userId body) db with
      | (Ok booking, db') => (AtCreatePayment body booking, db')
      | (Throw message, db') => (Responded (failed_booking message), db')
      end
  | AtCreatePayment body booking =>
      match Storage.createPayment d
              (Routes.paymentData_of booking (BookingBody.totalCost body)) db with
      | (Ok _, db') => (Responded (json (JBooking booking)), db')
      | (Throw message, db') => (Responded (failed_booking message), db')
      end
  | Responded response => (Responded response, db)
  end.

(** Two requests against one store. A schedule names, step by step, the
    request the store serves next ([true] for the first) and what is drawn
    for that statement. *)
Record TwoRequests := mkTwo {
  store : DB;
  first_request : InFlight;
  second_request : InFlight }.

Fixpoint interleave (schedule : list (bool * Draw)) (w : TwoRequests) : TwoRequests :=
  match schedule with
  | [] => w
  | (true, d) :: rest =>
      let (r, db) := resume d (first_request w) (store w) in
      interleave rest (mkTwo db r (second_request w))
  | (false, d) :: rest =>
      let (r, db) := resume d (second_request w) (store w) in
      interleave rest (mkTwo db (first_request w) r)
  end.

(** ** The engine under concurrent requests

    Requests are served await by await, and the store executes one
    statement at a time. A [POST /api/bookings] request is in flight from
    its arrival to its response; the store serves its awaits in any order
    with those of the other requests. Every other handler, and every other
    method of [DatabaseStorage], sends at most one writing statement,
    decided on what it read at earlier awaits: whatever it read, what
    reaches the store is one of the statements of [Write]. *)

Inductive Write : Type :=
| WUpsertUser (d : Draw) (userData : UpsertUser.t)
| WCreateCar (d : Draw) (carData : InsertCar.t)
| WUpdateCar (d : Draw) (id : varchar) (carData : PartialCar.t)
| WDeleteCar (d : Draw) (id : varchar)
| WUpdateBooking (d : Draw) (id : varchar) (bookingData : PartialBooking.t)
| WUpdatePayment (d : Draw) (id : varchar) (paymentData : PartialPayment.t)
| WCreateReview (d : Draw) (reviewData : InsertReview.t)
| WUpdateReview (d : Draw) (id : varchar) (reviewData : PartialReview.t).

Definition write (w : Write) (db : DB) : DB :=
  match w with
  | WUpsertUser d userData => after (Storage.upsertUser d userData) db
  | WCreateCar d carData => after (Storage.createCar d carData) db
  | WUpdateCar d id carData => after (Storage.updateCar d id carData) db
  | WDeleteCar d id => after (Storage.deleteCar d id) db
  | WUpdateBooking d id bookingData => after (Storage.updateBooking d id bookingData) db
  | WUpdatePayment d id paymentData => after (Storage.updatePayment d id paymentData) db
  | WCreateReview d reviewData => after (Storage.createReview d reviewData) db
  | WUpdateReview d id reviewData => after (Storage.updateReview d id reviewData) db
  end.

Inductive Event : Type :=
| Arrives (userId : varchar) (body : BookingBody.t)
| Resumes (n : nat) (d : Draw)
| Writes (w : Write).

(** The database, the [POST /api/bookings] requests received so far, each
    where it stands, and the number of payment inserts refused so far. *)
Record World := mkWorld {
  database : DB;
  requests : list InFlight;
  refused_payments : nat }.

Fixpoint replace_nth {A} (n : nat) (a : A) (l : list A) : list A :=
  match l, n with
  | [], _ => []
  | _ :: r, O => a :: r
  | x :: r, S k => x :: replace_nth k a r
  end.

Definition payment_refused (before later : InFlight) : bool :=
  match before, later with
  | AtCreatePayment _ _, Responded response => negb (Response.status response =? 200)%nat
  | _, _ => false
  end.

Definition happens (e : Event) (w : World) : World :=
  match e with
  | Arrives userId body =>
      mkWorld (database w) (requests w ++ [AtCheckAvailability userId body])
              (refused_payments w)
  | Resumes n d =>
      match nth_error (requests w) n with
      | Some r =>
          let (r', db) := resume d r (database w) in
          mkWorld db (replace_nth n r' (requests w))
                  (if payment_refused r r' then S (refused_payments w)
                   else refused_payments w)
      | None => w
      end
  | Writes x => mkWorld (write x (database w)) (requests w) (refused_payments w)
  end.

Definition run (events : list Event) (w : World) : World :=
  fold_left (fun w e => happens e w) events w.

(** The requests suspended between their booking insert and their payment
    insert. *)
Definition awaits_payment (r : InFlight) : bool :=
  match r with
  | AtCreatePayment _ _ => true
  | _ => false
  end.

Definition between_inserts (w : World) : nat :=
  List.length (filter awaits_payment (requests w)).

(** The payments of a booking, and the pairing of bookings with payments. *)
Definition payments_of (db : DB) (bookingId : varchar) : list Payment.t :=
  filter (fun p => eq_ (Payment.bookingId p) bookingId) (payments db).

Definition one_payment_each (db : DB) : Prop :=
  forall b, In b (bookings db) -> List.length (payments_of db (Booking.id b)) = 1%nat.

Definition at_most_one_payment_each (db : DB) : Prop :=
  forall b, In b (bookings db) -> (List.length (payments_of db (Booking.id b)) <= 1)%nat.

(** Every booking id is the [bookingId] of some payment. *)
Definition paired (db : DB) : Prop :=
  incl (map Booking.id (bookings db)) (map Payment.bookingId (payments db)).

(** A computation that only reads: it answers [q db] and leaves [db] alone. *)
Definition reads {A} (m : Store A) (q : DB -> A) : Prop :=
  forall db, m db = (Ok (q db), db).

(** The bookings that have no payment. *)
Definition unpaid (db : DB) : list Booking.t :=
  filter (fun b => negb (refers (map Payment.bookingId (payments db)) (Booking.id b)))
         (bookings db).

(** A step does not widen the gap between the bookings and the payments. *)
Definition deficit_grows_not (db db' : DB) : Prop :=
  (List.length (bookings db') + List.length (payments db)
   <= List.length (bookings db) + List.length (payments db'))%nat.

(** Bookings without a payment are accounted for: each by a request
    between its two inserts or by a refused payment insert. *)
Definition accounted (w : World) : Prop :=
  (List.length (bookings (database w))
   <= List.length (payments (database w)) + between_inserts w + refused_payments w)%nat.

(** ** Properties, in the words of the specification *)

Definition active_status (status : varchar) : Prop :=
  status = "pending" \/ status = "confirmed".

(** Closed-interval overlap of an existing booking [[bs, be]] with [[s, e]]. *)
Definition overlaps (bs be s e : timestamp) : Prop := bs <= e /\ be >= s.

Definition conflicting (b : Booking.t) (carId : varchar) (s e : timestamp) : Prop :=
  Booking.carId b = carId
  /\ active_status (Booking.status b)
  /\ overlaps (Booking.startDate b) (Booking.endDate b) s e.

Definition total (l : list integer) : integer := fold_right Z.add 0 l.

(** The arithmetic mean, [0] for no value. *)
Definition exact_mean (l : list integer) : Q :=
  match l with
  | [] => 0%Q
  | _ => (inject_Z (total l) / inject_Z (Z.of_nat (List.length l)))%Q
  end.

(** The sum of numbers from left to right, each addition rounded. *)
Definition sum_doubles (l : list number) : number := fold_left add l zero.

(** The mean in JavaScript arithmetic: the sum from left to right, divided
    by the count; [0] for no value. *)
Definition mean (l : list integer) : number :=
  match l with
  | [] => zero
  | _ => div (sum_doubles (map of_integer l)) (of_nat (List.length l))
  end.

(** Ratings for which the sum of doubles is the sum of integers: fewer than
    [2^22] of them, 32 bits each. *)
Definition summable (l : list integer) : Prop :=
  Z.of_nat (List.length l) <= 4194304 /\ Forall (fun r => int32 r = true) l.

(** A finite number within [[lo, hi]]. *)
Definition within (lo hi : Q) (x : number) : Prop :=
  exists q, x = Finite q /\ (lo <= q)%Q /\ (q <= hi)%Q.

Definition ratings_of (db : DB) (carId : varchar) : list integer :=
  map Review.rating (Storage.carReviews_of db carId).

Definition owned_by (db : DB) (ownerId : varchar) (carId : varchar) : bool :=
  existsb (fun c => eq_ (Car.id c) carId && eq_ (Car.ownerId c) ownerId) (cars db).

(** The ratings of all reviews of the cars of an owner. *)
Definition owner_ratings (db : DB) (ownerId : varchar) : list integer :=
  map Review.rating
      (filter (fun r => owned_by db ownerId (Review.carId r)) (reviews db)).

(** The rating loop of the owner dashboard as a function of the database:
    the running sum of the ratings and the count of the reviews, car by car,
    and the average it ends with. *)
Definition owner_rating_totals (db : DB) (ownerCars : list Car.t) : number * nat :=
  fold_left
    (fun (acc : number * nat) car =>
       let (totalRating, totalReviews) := acc in
       let reviews :=
         orderBy_desc Review.createdAt (Storage.carReviews_of db (Car.id car)) in
       (add totalRating (reduce_sum (fun r => of_integer (Review.rating r)) reviews),
        (totalReviews + List.length reviews)%nat))
    ownerCars (zero, 0%nat).

Definition owner_average (db : DB) (ownerId : varchar) : number :=
  let (totalRating, totalReviews) :=
    owner_rating_totals db (filter (fun c => eq_ (Car.ownerId c) ownerId) (cars db)) in
  if (0 <? totalReviews)%nat then div totalRating (of_nat totalReviews) else zero.

(** The bookings whose payment status is [paid], and the exact sum of
    their [totalCost]. *)
Definition paid (b : Booking.t) : bool := eq_ (Booking.paymentStatus b) "paid".

Definition exact_total (l : list Booking.t) : Q :=
  fold_right (fun b sum => (Booking.totalCost b + sum)%Q) 0%Q l.

(** Whole amounts, few enough for their sums to stay below [2^53]. *)
Definition whole_amount (b : Booking.t) : Prop :=
  exists z, (Booking.totalCost b == inject_Z z)%Q /\ Z.abs z <= 100000000.

Definition whole_amounts (l : list Booking.t) : Prop :=
  Z.of_nat (List.length l) <= 67108864 /\ Forall whole_amount l.

(** An amount the [decimal(10,2)] column accepts: below [10^8] once
    rounded to two decimals. *)
Definition storable (q : Q) : Prop := (Qabs (round2 q) < 100000000)%Q.

(** A string the [varchar(n)] column takes: one of at most [n] characters,
    or one with nothing but spaces after the [n]th. *)
Definition column_takes (n : nat) (s : string) : Prop :=
  fits n s = true \/ blank (drop_chars n s) = true.

(** The values a partial record gives are values the columns take. *)
Definition booking_values_fit (data : PartialBooking.t) : Prop :=
  (forall v, PartialBooking.totalCost data = Some v -> storable v)
  /\ (forall s, PartialBooking.status data = Some s -> column_takes 20 s)
  /\ (forall s, PartialBooking.paymentStatus data = Some s -> column_takes 20 s).

Definition payment_values_fit (data : PartialPayment.t) : Prop :=
  (forall v, PartialPayment.amount data = Some v -> storable v)
  /\ (forall s, PartialPayment.currency data = Some s -> column_takes 3 s)
  /\ (forall s, PartialPayment.status data = Some s -> column_takes 20 s).

(** A body [insertCarSchema] accepts: the strings within the lengths of
    their columns, counted in UTF-16 code units, the integers within 32
    bits. *)
Definition car_body_valid (c : InsertCar.t) : Prop :=
  (js_length (InsertCar.brand c) <= 100)%nat
  /\ (js_length (InsertCar.model c) <= 100)%nat
  /\ (js_length (InsertCar.registrationNumber c) <= 50)%nat
  /\ (js_length (InsertCar.carType c) <= 50)%nat
  /\ (js_length (InsertCar.transmission c) <= 20)%nat
  /\ (js_length (InsertCar.fuelType c) <= 20)%nat
  /\ int32 (InsertCar.year c) = true
  /\ int32 (InsertCar.seats c) = true.

Definition car_values_fit (data : PartialCar.t) : Prop :=
  (forall s, PartialCar.brand data = Some s -> column_takes 100 s)
  /\ (forall s, PartialCar.model data = Some s -> column_takes 100 s)
  /\ (forall s, PartialCar.registrationNumber data = Some s -> column_takes 50 s)
  /\ (forall s, PartialCar.carType data = Some s -> column_takes 50 s)
  /\ (forall s, PartialCar.transmission data = Some s -> column_takes 20 s)
  /\ (forall s, PartialCar.fuelType data = Some s -> column_takes 20 s)
  /\ (forall y, PartialCar.year data = Some y -> int32 y = true)
  /\ (forall n, PartialCar.seats data = Some n -> int32 n = true)
  /\ (forall v, PartialCar.pricePerDay data = Some v -> storable v).

(** A column after a partial update: the given value as the column stores
    it, else the old one. *)
Definition overwrites {A} (stored : A -> A) (given : option A) (old new : A) : Prop :=
  match given with
  | Some v => new = stored v
  | None => new = old
  end.

(** [new] is [old] with exactly the fields of the partial record
    overwritten and [updatedAt] stamped. *)
Definition booking_updated (data : PartialBooking.t) (at_ : timestamp)
           (old new : Booking.t) : Prop :=
  Booking.id new = Booking.id old
  /\ overwrites keep (PartialBooking.carId data) (Booking.carId old) (Booking.carId new)
  /\ overwrites keep (PartialBooking.userId data) (Booking.userId old) (Booking.userId new)
  /\ overwrites keep (PartialBooking.startDate data) (Booking.startDate old)
                (Booking.startDate new)
  /\ overwrites keep (PartialBooking.endDate data) (Booking.endDate old)
                (Booking.endDate new)
  /\ overwrites round2 (PartialBooking.totalCost data) (Booking.totalCost old)
                (Booking.totalCost new)
  /\ overwrites (varchar_n 20) (PartialBooking.status data) (Booking.status old)
                (Booking.status new)
  /\ overwrites (varchar_n 20) (PartialBooking.paymentStatus data)
                (Booking.paymentStatus old) (Booking.paymentStatus new)
  /\ Booking.createdAt new = Booking.createdAt old
  /\ Booking.updatedAt new = at_.

Definition payment_updated (data : PartialPayment.t) (at_ : timestamp)
           (old new : Payment.t) : Prop :=
  Payment.id new = Payment.id old
  /\ overwrites keep (PartialPayment.bookingId data) (Payment.bookingId old)
                (Payment.bookingId new)
  /\ overwrites round2 (PartialPayment.amount data) (Payment.amount old)
                (Payment.amount new)
  /\ overwrites (varchar_n 3) (PartialPayment.currency data) (Payment.currency old)
                (Payment.currency new)
  /\ overwrites keep (PartialPayment.razorpayOrderId data) (Payment.razorpayOrderId old)
                (Payment.razorpayOrderId new)
  /\ overwrites keep (PartialPayment.razorpayPaymentId data)
                (Payment.razorpayPaymentId old) (Payment.razorpayPaymentId new)
  /\ overwrites (varchar_n 20) (PartialPayment.status data) (Payment.status old)
                (Payment.status new)
  /\ Payment.createdAt new = Payment.createdAt old
  /\ Payment.updatedAt new = at_.

(** Rows listed newest first. *)
Definition newest_first {A} (created : A -> timestamp) (l : list A) : Prop :=
  StronglySorted (fun a b => created b <= created a) l.

(** [new] is [old] with exactly the fields of the body overwritten, as the
    columns store them, [createdAt] emptied when the body names it, and
    [updatedAt] stamped. *)
Definition car_updated (data : PartialCar.t) (at_ : timestamp) (old new : Car.t) : Prop :=
  overwrites keep (PartialCar.id data) (Car.id old) (Car.id new)
  /\ overwrites keep (PartialCar.ownerId data) (Car.ownerId old) (Car.ownerId new)
  /\ overwrites (varchar_n 100) (PartialCar.brand data) (Car.brand old) (Car.brand new)
  /\ overwrites (varchar_n 100) (PartialCar.model data) (Car.model old) (Car.model new)
  /\ overwrites keep (PartialCar.year data) (Car.year old) (Car.year new)
  /\ overwrites (varchar_n 50) (PartialCar.registrationNumber data)
                (Car.registrationNumber old) (Car.registrationNumber new)
  /\ overwrites (varchar_n 50) (PartialCar.carType data) (Car.carType old)
                (Car.carType new)
  /\ overwrites (varchar_n 20) (PartialCar.transmission data) (Car.transmission old)
                (Car.transmission new)
  /\ overwrites (varchar_n 20) (PartialCar.fuelType data) (Car.fuelType old)
                (Car.fuelType new)
  /\ overwrites keep (PartialCar.seats data) (Car.seats old) (Car.seats new)
  /\ overwrites round2 (PartialCar.pricePerDay data) (Car.pricePerDay old)
                (Car.pricePerDay new)
  /\ overwrites keep (PartialCar.images data) (Car.images old) (Car.images new)
  /\ overwrites keep (PartialCar.features data) (Car.features old) (Car.features new)
  /\ overwrites keep (PartialCar.description data) (Car.description old)
                (Car.description new)
  /\ overwrites keep (PartialCar.isAvailable data) (Car.isAvailable old)
                (Car.isAvailable new)
  /\ Car.createdAt new
     = match PartialCar.createdAt data with
       | Some _ => None
       | None => Car.createdAt old
       end
  /\ Car.updatedAt new = at_.

(** A car passes the filters of [GET /api/cars]: every criterion the query
    names holds of it. The text is sought anywhere in the lowered brand or
    model; the price, read as a double, is compared with the bounds in the
    order of the doubles; a list names a value when the value is one of the
    comma-free pieces that, joined by commas, give the list. *)
Definition contains (s sub : string) : Prop :=
  exists before later, s = (before ++ sub ++ later)%string.

Fixpoint comma_free (s : string) : bool :=
  match s with
  | EmptyString => true
  | String c r => negb (Ascii.eqb c ","%char) && comma_free r
  end.

Definition named_in (value list_ : string) : Prop :=
  exists pieces,
    pieces <> []
    /\ Forall (fun piece => comma_free piece = true) pieces
    /\ String.concat "," pieces = list_
    /\ In value pieces.

(** The order of the doubles: NaN is unordered, the infinities are the
    ends. *)
Definition value_le (x y : number) : Prop :=
  match x, y with
  | NaN, _ | _, NaN => False
  | Infinity true, _ | _, Infinity false => True
  | Finite a, Finite b => (a <= b)%Q
  | _, _ => False
  end.

Definition if_given {P} (param : option P) (holds : P -> Prop) : Prop :=
  match param with
  | Some p => holds p
  | None => True
  end.

Definition passes (toLowerCase : string -> string) (query : CarsQuery.t) (c : Car.t)
  : Prop :=
  if_given (CarsQuery.search query)
    (fun search =>
       contains (toLowerCase (Car.brand c)) (toLowerCase search)
       \/ contains (toLowerCase (Car.model c)) (toLowerCase search))
  /\ if_given (CarsQuery.minPrice query)
       (fun minPrice => value_le minPrice (Number (Car.pricePerDay c)))
  /\ if_given (CarsQuery.maxPrice query)
       (fun maxPrice => value_le (Number (Car.pricePerDay c)) maxPrice)
  /\ if_given (CarsQuery.brands query) (named_in (Car.brand c))
  /\ if_given (CarsQuery.carTypes query) (named_in (Car.carType c))
  /\ if_given (CarsQuery.transmission query) (named_in (Car.transmission c)).

(** ** Sample data *)

(** Midnight UTC of four days of June 2024, in milliseconds. *)
Definition jun01 : timestamp := 1717200000000.
Definition jun05 : timestamp := 1717545600000.
Definition jun06 : timestamp := 1717632000000.
Definition jun07 : timestamp := 1717718400000.

Definition plain_user (id role : varchar) : User.t :=
  User.mk id None None None None role None 0 0.

Definition alice : User.t := plain_user "alice" "owner".
Definition bob : User.t := plain_user "bob" "user".
Definition carol : User.t := plain_user "carol" "owner".
Definition dave : User.t := plain_user "dave" "admin".

Definition plain_car (id ownerId registrationNumber : varchar) (isAvailable : bool)
  : Car.t :=
  Car.mk id ownerId "Maruti" "Swift" 2022 registrationNumber "Hatchback" "Manual"
         "Petrol" 5 (1500 # 1) ["swift.jpg"] None None isAvailable (Some 0) 0.

Definition car1 : Car.t := plain_car "car-1" "alice" "KA01AB1234" true.
Definition car2 : Car.t := plain_car "car-2" "alice" "KA01AB5678" false.

Definition booking1 : Booking.t :=
  Booking.mk "booking-1" "car-1" "bob" jun01 jun05 (6000 # 1) "confirmed" "paid" 10 10.

Definition payment1 : Payment.t :=
  Payment.mk "payment-1" "booking-1" (6000 # 1) "INR" None None "success" 10 10.

Definition plain_review (id carId : varchar) (rating : integer) (createdAt : timestamp)
  : Review.t :=
  Review.mk id carId "bob" rating None None createdAt createdAt.

(** A car park with one confirmed, paid booking of [car-1] from 1 to 5 June. *)
Definition june : DB :=
  mkDB [alice; bob; carol; dave] [car1; car2] [booking1] [payment1] [].

(** The same, with three reviews of [car-1] rated 5, 3 and 4. *)
Definition june_reviewed : DB :=
  with_reviews june
    [plain_review "review-1" "car-1" 5 20;
     plain_review "review-2" "car-1" 3 30;
     plain_review "review-3" "car-1" 4 25].

(** The same, with ratings 5, 3 and 5. *)
Definition june_thirds : DB :=
  with_reviews june
    [plain_review "review-1" "car-1" 5 20;
     plain_review "review-2" "car-1" 3 30;
     plain_review "review-3" "car-1" 5 25].

(** Two paid bookings of [car-1], of 0.10 and of 0.20. *)
Definition small_change : DB :=
  with_bookings june
    [Booking.mk "booking-1" "car-1" "bob" jun01 jun05 (1 # 10) "confirmed" "paid" 10 10;
     Booking.mk "booking-2" "car-1" "bob" jun06 jun07 (1 # 5) "confirmed" "paid" 20 20].

(** Draws for a second booking and its payment. *)
Definition draw_booking2 : Draw := mkDraw "booking-2" 100 false.
Definition draw_payment2 : Draw := mkDraw "payment-2" 100 false.

(** Bob asks for [car-1] from 6 to 7 June, and for a car that does not exist. *)
Definition body_free : BookingBody.t := BookingBody.mk "car-1" jun06 jun07 (3000 # 1).
Definition body_ghost : BookingBody.t := BookingBody.mk "ghost" jun06 jun07 (3000 # 1).

(** Draws for a third booking and its payment, and a payment insert that
    finds the connection gone. *)
Definition draw_booking3 : Draw := mkDraw "booking-3" 101 false.
Definition draw_payment3 : Draw := mkDraw "payment-3" 101 false.
Definition draw_payment_lost : Draw := mkDraw "payment-2" 100 true.

(** Carol, an owner without cars, answers a review of Alice's car. *)
Definition draw_response : Draw := mkDraw "unused" 200 false.

(** An update that moves [booking-1] to a car that does not exist. *)
Definition draw_update : Draw := mkDraw "unused" 300 false.
Definition to_ghost_car : PartialBooking.t :=
  PartialBooking.mk (Some "ghost") None None None None None None.

Definition only_status (status : varchar) : PartialBooking.t :=
  PartialBooking.mk None None None None None (Some status) None.

Definition only_payment_status (status : varchar) : PartialPayment.t :=
  PartialPayment.mk None None None None None (Some status).

(** A car to add, named for Alice, and the draw for its insert. *)
Definition nexon : InsertCar.t :=
  InsertCar.mk "alice" "Tata" "Nexon" 2023 "KA02CD0001" "SUV" "Manual" "Petrol" 5
               (2500 # 1) [] None None None.
Definition draw_car3 : Draw := mkDraw "car-3" 400 false.

(** A partial car that only takes the car off the listing, and one that
    hands it to Carol. *)
Definition unlist : PartialCar.t :=
  PartialCar.mk None None None None None None None None None None None None None None
                None (Some false).
Definition hand_to_carol : PartialCar.t :=
  PartialCar.mk None None (Some "carol") None None None None None None None None None
                None None None None.

(** A review body, and the draw for its insert. *)
Definition four_stars : ReviewBody.t := ReviewBody.mk "car-1" 4 (Some "Smooth ride").
Definition draw_review4 : Draw := mkDraw "review-4" 500 false.

(** * Properties *)

(** ** Booleans and lists *)

Lemma eq_true_iff (a b : varchar) : eq_ a b = true <-> a = b.
Proof. apply String.eqb_eq. Qed.

Lemma eq_false_iff (a b : varchar) : eq_ a b = false <-> a <> b.
Proof. apply String.eqb_neq. Qed.

Lemma eq_refl_true (a : varchar) : eq_ a a = true.
Proof. apply String.eqb_refl. Qed.

Lemma eq_sym_bool (a b : varchar) : eq_ a b = eq_ b a.
Proof. apply String.eqb_sym. Qed.

Lemma refers_In (keys : list varchar) (k : varchar) : refers keys k = true <-> In k keys.
Proof.
  unfold refers. rewrite existsb_exists. split.
  - intros [x [Hx He]]. apply eq_true_iff in He. now subst.
  - intros H. exists k. split; [assumption | apply eq_refl_true].
Qed.

Lemma refers_not_In (keys : list varchar) (k : varchar) :
  refers keys k = false <-> ~ In k keys.
Proof.
  rewrite <- refers_In. destruct (refers keys k); split; intros; congruence.
Qed.

Lemma distinct_NoDup (l : list varchar) : distinct l = true <-> NoDup l.
Proof.
  induction l as [|k r IH]; simpl.
  - split; [constructor | reflexivity].
  - rewrite andb_true_iff, negb_true_iff, refers_not_In, IH. split.
    + intros [Hk Hr]. now constructor.
    + intros H. inversion H. now split.
Qed.

Lemma filter_none {A} (f : A -> bool) (l : list A) :
  (List.length (filter f l) =? 0)%nat = true <-> forall x, In x l -> f x = false.
Proof.
  rewrite Nat.eqb_eq. induction l as [|a r IH]; simpl.
  - split; [intros _ x [] | reflexivity].
  - destruct (f a) eqn:Ha; simpl.
    + split; [discriminate |]. intros H. specialize (H a (or_introl Logic.eq_refl)). congruence.
    + rewrite IH. split.
      * intros H x [<- | Hx]; auto.
      * intros H x Hx. apply H. now right.
Qed.

Lemma filter_some {A} (f : A -> bool) (l : list A) :
  (List.length (filter f l) =? 0)%nat = false <-> exists x, In x l /\ f x = true.
Proof.
  destruct (List.length (filter f l) =? 0)%nat eqn:E.
  - split; [discriminate |]. intros [x [Hx Hf]].
    apply filter_none with (x := x) in E; [congruence | assumption].
  - split; [intros _ | reflexivity].
    destruct (filter f l) as [|x r] eqn:F; [discriminate |].
    assert (Hx : In x (filter f l)) by (rewrite F; now left).
    apply filter_In in Hx. now exists x.
Qed.

(** ** Columns *)

Lemma varchar_n_fits (n : nat) (s : string) : fits n s = true -> varchar_n n s = s.
Proof. unfold fits, varchar_n. now intros ->. Qed.

Lemma char_length_js_length (s : string) : (char_length s <= js_length s)%nat.
Proof.
  induction s as [|c r IH]; [apply Nat.le_refl |]. cbn [char_length js_length].
  destruct (continuation_byte c); [assumption |].
  destruct (astral_lead c); lia.
Qed.

Lemma js_length_fits (n : nat) (s : string) : (js_length s <=? n)%nat = true -> fits n s = true.
Proof.
  unfold fits. rewrite !Nat.leb_le. pose proof (char_length_js_length s). lia.
Qed.

Lemma take_chars_length (n : nat) (s : string) : (char_length (take_chars n s) <= n)%nat.
Proof.
  revert n. induction s as [|c r IH]; intros n; [cbn; lia |].
  cbn [take_chars]. destruct (continuation_byte c) eqn:E.
  - cbn [char_length]. rewrite E. apply IH.
  - destruct n as [|k]; [cbn; lia |]. cbn [char_length]. rewrite E.
    specialize (IH k). lia.
Qed.

(** What the column makes of a string is stored unless characters other
    than spaces are in excess. *)
Lemma varchar_n_stored (n : nat) (s : string) :
  fits n (varchar_n n s) = true
  <-> fits n s = true \/ blank (drop_chars n s) = true.
Proof.
  unfold varchar_n, fits. destruct (char_length s <=? n)%nat eqn:E.
  - rewrite E. tauto.
  - destruct (blank (drop_chars n s)).
    + split; [auto |]. intros _. apply Nat.leb_le, take_chars_length.
    + rewrite E. intuition discriminate.
Qed.

Lemma Qfloor_half (z : Z) : Qfloor (inject_Z z + (1 # 2)) = z.
Proof.
  pose proof (Qfloor_le (inject_Z z + (1 # 2))) as Hl.
  pose proof (Qlt_floor (inject_Z z + (1 # 2))) as Hu.
  set (f := Qfloor _) in *.
  rewrite inject_Z_plus in Hu. change (inject_Z 1) with 1%Q in Hu.
  destruct (Z.lt_trichotomy f z) as [H | [H | H]]; [exfalso | assumption | exfalso].
  - assert (Hq : (inject_Z (f + 1) <= inject_Z z)%Q) by (rewrite <- Zle_Qle; lia).
    rewrite inject_Z_plus in Hq. change (inject_Z 1) with 1%Q in Hq. lra.
  - assert (Hq : (inject_Z (z + 1) <= inject_Z f)%Q) by (rewrite <- Zle_Qle; lia).
    rewrite inject_Z_plus in Hq. change (inject_Z 1) with 1%Q in Hq. lra.
Qed.

Lemma sgn_comp (p q : Q) : (p == q)%Q -> Z.sgn (Qnum p) = Z.sgn (Qnum q).
Proof.
  unfold Qeq. intros He.
  destruct (Z.lt_trichotomy (Qnum p) 0) as [H | [H | H]],
           (Z.lt_trichotomy (Qnum q) 0) as [H' | [H' | H']];
    try (rewrite ?(Z.sgn_neg _ H), ?(Z.sgn_neg _ H'), ?(Z.sgn_pos _ H), ?(Z.sgn_pos _ H');
         try rewrite H; try rewrite H'; reflexivity);
    exfalso; nia.
Qed.

#[local] Instance round2_comp : Proper (Qeq ==> eq) round2.
Proof.
  intros p q He. unfold round2. apply Qred_complete.
  rewrite (sgn_comp p q He).
  assert (Hf : Qfloor (Qabs p * 100 + (1 # 2)) = Qfloor (Qabs q * 100 + (1 # 2)))
    by now rewrite He.
  now rewrite Hf.
Qed.

Lemma cents_as_division (c : Z) : (c # 100 == inject_Z c / 100)%Q.
Proof. apply Qmake_Qdiv. Qed.

Lemma cents_scaled (c : Z) : (c # 100 == inject_Z c * (1 # 100))%Q.
Proof. rewrite cents_as_division. field. Qed.

(** A number of cents is stored as it is. *)
Lemma round2_cents (c : Z) : round2 (c # 100) = Qred (c # 100).
Proof.
  unfold round2. apply Qred_complete. cbn [Qnum].
  assert (Hf : Qfloor (Qabs (c # 100) * 100 + (1 # 2)) = Z.abs c).
  { rewrite <- (Qfloor_half (Z.abs c)). apply Qfloor_comp.
    change (Qabs (c # 100)) with (Z.abs c # 100). rewrite cents_as_division. field. }
  rewrite Hf. replace (Z.sgn c * Z.abs c) with c by lia.
  reflexivity.
Qed.

Lemma round2_is_cents (q : Q) : exists c, round2 q = Qred (c # 100).
Proof. unfold round2. eauto. Qed.

Lemma round2_idempotent (q : Q) : round2 (round2 q) = round2 q.
Proof.
  destruct (round2_is_cents q) as [c ->].
  rewrite (round2_comp _ _ (Qred_correct (c # 100))).
  apply round2_cents.
Qed.

(** What [decimal(10,2)] stores of a number fits the column when it is
    below [10^8]. *)
Lemma decimal_10_2_round2 (q : Q) :
  decimal_10_2 (round2 q) = true <-> (Qabs (round2 q) < 100000000)%Q.
Proof.
  unfold decimal_10_2. rewrite round2_idempotent.
  rewrite andb_true_iff, negb_true_iff. split.
  - intros [_ H]. apply Qnot_le_lt. intros Hle. apply Qle_bool_iff in Hle. congruence.
  - intros H. split; [apply Qeq_bool_refl |].
    apply not_true_is_false. intros Hle. apply Qle_bool_iff in Hle. lra.
Qed.

(** An amount with at most two decimals is stored as sent. *)
Lemma round2_exact (q : Q) (c : Z) : (q == c # 100)%Q -> (round2 q == q)%Q.
Proof.
  intros He. rewrite (round2_comp _ _ He), round2_cents, Qred_correct. now symmetry.
Qed.

(** Rounding moves an amount by half a cent at most. *)
Lemma round2_close (q : Q) : (Qabs (round2 q - q) <= 1 # 200)%Q.
Proof.
  unfold round2. rewrite Qred_correct.
  set (f := Qfloor (Qabs q * 100 + (1 # 2))).
  pose proof (Qfloor_le (Qabs q * 100 + (1 # 2))) as Hl.
  pose proof (Qlt_floor (Qabs q * 100 + (1 # 2))) as Hu. fold f in Hl, Hu.
  rewrite inject_Z_plus in Hu. change (inject_Z 1) with 1%Q in Hu. clearbody f.
  rewrite cents_scaled, inject_Z_mult.
  apply Qabs_Qle_condition. set (F := inject_Z f) in *. clearbody F.
  destruct (Z.lt_trichotomy (Qnum q) 0) as [H | [H | H]].
  - rewrite (Z.sgn_neg _ H). change (inject_Z (-1)) with (- 1)%Q.
    assert (Hq : (q < 0)%Q) by (unfold Qlt; cbn; lia).
    rewrite (Qabs_neg q) in Hl, Hu by lra. split; lra.
  - assert (Hq : (q == 0)%Q) by (unfold Qeq; cbn; lia).
    rewrite H. cbn [Z.sgn]. change (inject_Z 0) with 0%Q. split; lra.
  - rewrite (Z.sgn_pos _ H). change (inject_Z 1) with 1%Q.
    assert (Hq : (0 < q)%Q) by (unfold Qlt; cbn; lia).
    rewrite (Qabs_pos q) in Hl, Hu by lra. split; lra.
Qed.

(** ** Doubles *)

Lemma pow2_positive (k : Z) : (0 < Qpower 2 k)%Q.
Proof. apply Qpower_0_lt. reflexivity. Qed.

Lemma pow2_plus (a b : Z) : (Qpower 2 (a + b) == Qpower 2 a * Qpower 2 b)%Q.
Proof. apply Qpower_plus. discriminate. Qed.

Lemma pow2_integer (k : Z) : 0 <= k -> (Qpower 2 k == inject_Z (2 ^ k))%Q.
Proof. intros Hk. symmetry. now apply (Zpower_Qpower 2 k). Qed.

Lemma pow2_succ (k : Z) : (Qpower 2 (k + 1) == 2 * Qpower 2 k)%Q.
Proof. rewrite pow2_plus. change (Qpower 2 1) with 2%Q. ring. Qed.

Lemma pow2_monotone (a b : Z) : a <= b -> (Qpower 2 a <= Qpower 2 b)%Q.
Proof.
  intros H. replace b with (a + (b - a)) by lia. rewrite pow2_plus.
  rewrite (pow2_integer (b - a)) by lia.
  assert (1 <= 2 ^ (b - a)) by (change 1 with (2 ^ 0); apply Z.pow_le_mono_r; lia).
  pose proof (pow2_positive a).
  assert ((1 <= inject_Z (2 ^ (b - a)))%Q) by (change 1%Q with (inject_Z 1); now rewrite <- Zle_Qle).
  nra.
Qed.

Lemma pow2_strict (a b : Z) : a < b -> (Qpower 2 a < Qpower 2 b)%Q.
Proof.
  intros H. pose proof (pow2_monotone (a + 1) b ltac:(lia)) as Hm.
  rewrite pow2_succ in Hm. pose proof (pow2_positive a). lra.
Qed.

Lemma pow2_cancel (a b : Z) : (Qpower 2 a < Qpower 2 b)%Q -> a < b.
Proof.
  intros H. destruct (Z.lt_ge_cases a b) as [|Hge]; [assumption |].
  apply pow2_monotone in Hge. lra.
Qed.

(** The exponent of a positive rational. *)
Lemma binade_spec (q : Q) :
  (0 < q)%Q -> (Qpower 2 (binade q) <= q)%Q /\ (q < Qpower 2 (binade q + 1))%Q.
Proof.
  intros Hq. destruct q as [n d]. unfold binade. cbn [Qnum Qden].
  assert (Hn : 0 < n) by (unfold Qlt in Hq; cbn in Hq; lia).
  set (ln := Z.log2 n). set (ld := Z.log2 (Zpos d)).
  destruct (Z.log2_spec n Hn) as [Hn1 Hn2]. fold ln in Hn1, Hn2.
  destruct (Z.log2_spec (Zpos d) ltac:(lia)) as [Hd1 Hd2]. fold ld in Hd1, Hd2.
  assert (Hln : 0 <= ln) by apply Z.log2_nonneg.
  assert (Hld : 0 <= ld) by apply Z.log2_nonneg.
  assert (Hq' : (n # d == inject_Z n / inject_Z (Zpos d))%Q) by apply Qmake_Qdiv.
  assert (Hdpos : (0 < inject_Z (Zpos d))%Q) by (unfold Qlt; cbn; lia).
  assert (Hnb1 : (Qpower 2 ln <= inject_Z n)%Q)
    by (rewrite pow2_integer by lia; now rewrite <- Zle_Qle).
  assert (Hnb2 : (inject_Z n < Qpower 2 (ln + 1))%Q)
    by (rewrite pow2_integer by lia; rewrite <- Zlt_Qlt; now rewrite <- Z.add_1_r in Hn2).
  assert (Hdb1 : (Qpower 2 ld <= inject_Z (Zpos d))%Q)
    by (rewrite pow2_integer by lia; now rewrite <- Zle_Qle).
  assert (Hdb2 : (inject_Z (Zpos d) < Qpower 2 (ld + 1))%Q)
    by (rewrite pow2_integer by lia; rewrite <- Zlt_Qlt; now rewrite <- Z.add_1_r in Hd2).
  assert (Hmul : ((n # d) * inject_Z (Zpos d) == inject_Z n)%Q)
    by (rewrite Hq'; field; lra).
  pose proof (pow2_positive (ln - ld)) as Hk.
  pose proof (pow2_positive ld) as Hpd.
  assert (Hsplit : (Qpower 2 ln == Qpower 2 (ln - ld) * Qpower 2 ld)%Q)
    by (rewrite <- pow2_plus; now replace (ln - ld + ld) with ln by lia).
  assert (Hup : (n # d < Qpower 2 (ln - ld + 1))%Q).
  { rewrite pow2_succ. rewrite pow2_succ in Hnb2. nra. }
  assert (Hlow : (Qpower 2 (ln - ld - 1) < n # d)%Q).
  { assert (Hs : (Qpower 2 (ln - ld) == 2 * Qpower 2 (ln - ld - 1))%Q)
      by (rewrite <- pow2_succ; now replace (ln - ld - 1 + 1) with (ln - ld) by lia).
    rewrite pow2_succ in Hdb2. pose proof (pow2_positive (ln - ld - 1)). nra. }
  destruct (Qle_bool (Qpower 2 (ln - ld)) (n # d)) eqn:E.
  - apply Qle_bool_iff in E. split; assumption.
  - assert (Hlt : (n # d < Qpower 2 (ln - ld))%Q).
    { apply Qnot_le_lt. intros H. apply Qle_bool_iff in H. congruence. }
    split; [now apply Qlt_le_weak |].
    now replace (ln - ld - 1 + 1) with (ln - ld) by lia.
Qed.

Lemma binade_unique (q : Q) (k : Z) :
  (Qpower 2 k <= q)%Q -> (q < Qpower 2 (k + 1))%Q -> binade q = k.
Proof.
  intros H1 H2.
  assert (Hq : (0 < q)%Q) by (pose proof (pow2_positive k); lra).
  destruct (binade_spec q Hq) as [H3 H4].
  assert (binade q < k + 1) by (apply pow2_cancel; lra).
  assert (k < binade q + 1) by (apply pow2_cancel; lra).
  lia.
Qed.

Lemma binade_comp (p q : Q) : (0 < p)%Q -> (p == q)%Q -> binade p = binade q.
Proof.
  intros Hp He. destruct (binade_spec p Hp) as [H1 H2].
  symmetry. apply binade_unique; now rewrite <- He.
Qed.

#[local] Instance nearest_even_comp : Proper (Qeq ==> eq) nearest_even.
Proof.
  intros x y He. unfold nearest_even. rewrite <- (Qfloor_comp _ _ He).
  assert (Hc : ((x - inject_Z (Qfloor x) ?= 1 # 2) = (y - inject_Z (Qfloor x) ?= 1 # 2))%Q)
    by (apply Qcompare_comp; [apply Qminus_comp; [assumption | reflexivity] | reflexivity]).
  now rewrite Hc.
Qed.

Lemma nearest_even_integer (z : Z) : nearest_even (inject_Z z) = z.
Proof.
  unfold nearest_even. rewrite Qfloor_Z.
  assert (H : (inject_Z z - inject_Z z ?= 1 # 2)%Q = Lt) by (apply (proj1 (Qlt_alt _ _)); lra).
  now rewrite H.
Qed.

Lemma nearest_even_cases (x : Q) :
  nearest_even x = Qfloor x \/ nearest_even x = Qfloor x + 1.
Proof.
  unfold nearest_even. destruct (_ ?= _)%Q; auto. destruct (Z.even _); auto.
Qed.

Lemma nearest_even_close (x : Q) :
  (x - (1 # 2) <= inject_Z (nearest_even x))%Q /\ (inject_Z (nearest_even x) <= x + (1 # 2))%Q.
Proof.
  pose proof (Qfloor_le x) as Hl. pose proof (Qlt_floor x) as Hu.
  rewrite inject_Z_plus in Hu. change (inject_Z 1) with 1%Q in Hu.
  unfold nearest_even.
  destruct (x - inject_Z (Qfloor x) ?= 1 # 2)%Q eqn:E.
  - apply Qeq_alt in E. destruct (Z.even _); [| rewrite inject_Z_plus; change (inject_Z 1) with 1%Q]; lra.
  - apply Qlt_alt in E. lra.
  - apply Qgt_alt in E. rewrite inject_Z_plus. change (inject_Z 1) with 1%Q. lra.
Qed.

Lemma nearest_even_above (x : Q) (a : Z) :
  (inject_Z a <= x)%Q -> a <= nearest_even x.
Proof.
  intros H. apply Qfloor_resp_le in H. rewrite Qfloor_Z in H.
  destruct (nearest_even_cases x) as [-> | ->]; lia.
Qed.

Lemma nearest_even_below (x : Q) (b : Z) :
  (x <= inject_Z b)%Q -> nearest_even x <= b.
Proof.
  intros H. destruct (Qle_lt_or_eq _ _ H) as [Hlt | He].
  - assert (Hf : Qfloor x < b).
    { pose proof (Qfloor_le x) as Hl. rewrite Zlt_Qlt. lra. }
    destruct (nearest_even_cases x) as [-> | ->]; lia.
  - rewrite He, nearest_even_integer. lia.
Qed.

Lemma sign_comp (p q : Q) : (p == q)%Q -> (Qnum p <? 0) = (Qnum q <? 0).
Proof.
  intros He.
  destruct (Z.ltb_spec (Qnum p) 0) as [H | H], (Z.ltb_spec (Qnum q) 0) as [H' | H'];
    try reflexivity; exfalso; unfold Qeq in He; nia.
Qed.

Lemma sign_negative (q : Q) : (Qnum q <? 0) = true <-> (q < 0)%Q.
Proof. rewrite Z.ltb_lt. unfold Qlt. cbn. lia. Qed.

#[local] Instance to_double_comp : Proper (Qeq ==> eq) to_double.
Proof.
  intros p q He. unfold to_double. cbv zeta.
  assert (Hz : Qeq_bool p 0 = Qeq_bool q 0).
  { destruct (Qeq_bool p 0) eqn:E1, (Qeq_bool q 0) eqn:E2; try reflexivity.
    - apply Qeq_bool_iff in E1. rewrite He in E1. apply Qeq_bool_iff in E1. congruence.
    - apply Qeq_bool_iff in E2. rewrite <- He in E2. apply Qeq_bool_iff in E2. congruence. }
  rewrite Hz. destruct (Qeq_bool q 0) eqn:E; [reflexivity |].
  assert (Hne : ~ (q == 0)%Q) by (intros H; apply Qeq_bool_iff in H; congruence).
  assert (Ha : (Qabs p == Qabs q)%Q) by now rewrite He.
  assert (Hpos : (0 < Qabs p)%Q).
  { rewrite Ha. pose proof (Qabs_nonneg q). destruct (Qle_lt_or_eq _ _ H) as [|H0]; [assumption |].
    exfalso. apply Hne.
    assert (Hb : (Qabs q <= 0)%Q) by (rewrite <- H0; apply Qle_refl).
    apply Qabs_Qle_condition in Hb. lra. }
  rewrite (binade_comp _ _ Hpos Ha). rewrite (sign_comp _ _ He).
  set (ulp := Qpower 2 (_ - 52)).
  assert (Hm : nearest_even (Qabs p / ulp) = nearest_even (Qabs q / ulp)) by now rewrite Ha.
  rewrite Hm. reflexivity.
Qed.

Lemma Qred_integer (z : Z) : Qred (inject_Z z) = inject_Z z.
Proof.
  unfold Qred, inject_Z.
  pose proof (Z.ggcd_gcd z 1) as Hg. pose proof (Z.ggcd_correct_divisors z 1) as Hd.
  destruct (Z.ggcd z 1) as [g [n d]]. cbn in *.
  rewrite Z.gcd_1_r in Hg. subst g. destruct Hd as [H1 H2].
  rewrite Z.mul_1_l in H1, H2. now subst.
Qed.

(** An integer of at most 53 bits is a double. *)
Lemma to_double_integer (z : Z) :
  Z.abs z <= 2 ^ 53 -> to_double (inject_Z z) = Finite (inject_Z z).
Proof.
  intros Hz. destruct (Z.eq_dec z 0) as [-> | Hne]; [reflexivity |].
  unfold to_double. cbv zeta.
  assert (E : Qeq_bool (inject_Z z) 0 = false).
  { apply not_true_is_false. intros H. apply Qeq_bool_iff in H.
    unfold Qeq in H. cbn in H. lia. }
  rewrite E.
  assert (Ha : (Qabs (inject_Z z) == inject_Z (Z.abs z))%Q) by reflexivity.
  set (a := Z.abs z) in *. assert (Hpos : 0 < a) by (subst a; lia).
  assert (Hb : binade (Qabs (inject_Z z)) = Z.log2 a).
  { destruct (Z.log2_spec a Hpos) as [H1 H2].
    apply binade_unique; rewrite Ha, pow2_integer by (try apply Z.log2_nonneg;
      pose proof (Z.log2_nonneg a); lia).
    - now rewrite <- Zle_Qle.
    - rewrite <- Zlt_Qlt. now rewrite Z.add_1_r. }
  rewrite Hb. pose proof (Z.log2_nonneg a) as Hl.
  assert (Hl53 : Z.log2 a <= 53).
  { rewrite <- (Z.log2_pow2 53) by lia. now apply Z.log2_le_mono. }
  rewrite Z.max_l by lia.
  set (k := 52 - Z.log2 a).
  assert (Hulp : (Qpower 2 (Z.log2 a - 52) * Qpower 2 k == 1)%Q).
  { rewrite <- pow2_plus. subst k. now replace (Z.log2 a - 52 + (52 - Z.log2 a)) with 0 by lia. }
  pose proof (pow2_positive (Z.log2 a - 52)) as Hu.
  assert (Hint : exists m, (Qabs (inject_Z z) / Qpower 2 (Z.log2 a - 52) == inject_Z m)%Q
                           /\ (inject_Z m * Qpower 2 (Z.log2 a - 52) == inject_Z a)%Q).
  { destruct (Z.le_gt_cases 0 k) as [Hk | Hk].
    - exists (a * 2 ^ k). rewrite Ha, inject_Z_mult, <- pow2_integer by assumption.
      assert (Hinv : (/ Qpower 2 (Z.log2 a - 52) == Qpower 2 k)%Q).
      { subst k. replace (52 - Z.log2 a) with (- (Z.log2 a - 52)) by lia.
        symmetry. apply Qpower_opp. }
      split.
      + unfold Qdiv. now rewrite Hinv.
      + rewrite <- Qmult_assoc, (Qmult_comm (Qpower 2 k)), Hulp. ring.
    - assert (Hl' : Z.log2 a = 53) by (subst k; lia).
      assert (Ha53 : a = 2 ^ 53).
      { destruct (Z.log2_spec a Hpos) as [H1 _]. rewrite Hl' in H1. lia. }
      exists (2 ^ 52). rewrite Ha, Hl', Ha53. split; reflexivity. }
  destruct Hint as [m [Hm1 Hm2]].
  rewrite Hm1, nearest_even_integer.
  assert (Hno : Qle_bool (Qpower 2 1024) (inject_Z m * Qpower 2 (Z.log2 a - 52)) = false).
  { apply not_true_is_false. intros H. apply Qle_bool_iff in H. rewrite Hm2 in H.
    rewrite pow2_integer in H by lia. rewrite <- Zle_Qle in H.
    assert (2 ^ 53 < 2 ^ 1024) by (apply Z.pow_lt_mono_r; lia). lia. }
  rewrite Hno. f_equal.
  etransitivity; [apply Qred_complete with (q := inject_Z z) | apply Qred_integer].
  destruct (Z.ltb_spec (Qnum (inject_Z z)) 0) as [Hs | Hs]; cbn in Hs.
  - rewrite Hm1, nearest_even_integer, Hm2. subst a. rewrite Z.abs_neq by lia.
    rewrite inject_Z_opp. ring.
  - rewrite Hm1, nearest_even_integer, Hm2. subst a. rewrite Z.abs_eq by lia. reflexivity.
Qed.

Lemma of_integer_int32 (r : Z) : int32 r = true -> of_integer r = Finite (inject_Z r).
Proof.
  unfold int32. rewrite andb_true_iff, !Z.leb_le. intros [H1 H2].
  apply to_double_integer. change (2 ^ 53) with 9007199254740992. lia.
Qed.

Lemma add_integers (a b : Z) :
  Z.abs (a + b) <= 2 ^ 53 ->
  add (Finite (inject_Z a)) (Finite (inject_Z b)) = Finite (inject_Z (a + b)).
Proof.
  intros H. cbn [add]. rewrite <- inject_Z_plus. now apply to_double_integer.
Qed.

Lemma total_bound (l : list Z) :
  Forall (fun r => int32 r = true) l ->
  Z.abs (total l) <= Z.of_nat (List.length l) * 2147483648.
Proof.
  induction 1 as [|r l Hr _ IH]; [cbn; lia |].
  unfold int32 in Hr. rewrite andb_true_iff, !Z.leb_le in Hr.
  cbn [total fold_right List.length]. fold (total l). lia.
Qed.

Lemma sum_integers_from (l : list Z) (a : Z) :
  Forall (fun r => int32 r = true) l ->
  Z.abs a + Z.of_nat (List.length l) * 2147483648 <= 2 ^ 53 ->
  fold_left add (map of_integer l) (Finite (inject_Z a)) = Finite (inject_Z (a + total l)).
Proof.
  change (2 ^ 53) with 9007199254740992.
  intros Hl. revert a. induction Hl as [|r l Hr Hl IH]; intros a Ha.
  - cbn. now rewrite Z.add_0_r.
  - cbn [map fold_left total fold_right]. fold (total l).
    pose proof Hr as Hr'. unfold int32 in Hr'. rewrite andb_true_iff, !Z.leb_le in Hr'.
    cbn [List.length] in Ha.
    rewrite of_integer_int32, add_integers
      by (assumption || (change (2 ^ 53) with 9007199254740992; lia)).
    rewrite IH by lia. f_equal. f_equal. lia.
Qed.

Lemma sum_doubles_integers (l : list Z) :
  summable l -> sum_doubles (map of_integer l) = Finite (inject_Z (total l)).
Proof.
  intros [Hn Hl]. unfold sum_doubles, zero. change 0%Q with (inject_Z 0).
  rewrite sum_integers_from; [reflexivity | assumption |].
  change (2 ^ 53) with 9007199254740992. unfold integer in *. lia.
Qed.

Lemma of_nat_exact (n : nat) :
  Z.of_nat n <= 2 ^ 53 -> of_nat n = Finite (inject_Z (Z.of_nat n)).
Proof. intros H. apply to_double_integer. lia. Qed.

(** With integers that sum exactly, the mean is the double nearest to the
    arithmetic mean. *)
Lemma mean_exact (l : list Z) : summable l -> mean l = to_double (exact_mean l).
Proof.
  intros Hs. destruct l as [|r l]; [reflexivity |].
  unfold mean, exact_mean. rewrite sum_doubles_integers by assumption.
  destruct Hs as [Hn _]. unfold integer in *.
  rewrite of_nat_exact by (change (2 ^ 53) with 9007199254740992; lia).
  cbn [div].
  assert (E : Qeq_bool (inject_Z (Z.of_nat (List.length (r :: l)))) 0 = false).
  { apply not_true_is_false. intros H. apply Qeq_bool_iff in H.
    unfold Qeq in H. cbn in H. lia. }
  now rewrite E.
Qed.

(** Rounding keeps a number between two integers it lies between. *)
Lemma to_double_between (a b : Z) (q : Q) :
  1 <= a -> b <= 2 ^ 52 ->
  (inject_Z a <= q)%Q -> (q <= inject_Z b)%Q ->
  within (inject_Z a) (inject_Z b) (to_double q).
Proof.
  intros Ha Hb Haq Hqb.
  assert (Hq1 : (1 <= q)%Q).
  { apply Qle_trans with (inject_Z a); [| assumption].
    change 1%Q with (inject_Z 1). now rewrite <- Zle_Qle. }
  assert (Hq52 : (q <= Qpower 2 52)%Q).
  { apply Qle_trans with (inject_Z b); [assumption |].
    rewrite pow2_integer by lia. now rewrite <- Zle_Qle. }
  unfold to_double. cbv zeta.
  assert (E : Qeq_bool q 0 = false).
  { apply not_true_is_false. intros H. apply Qeq_bool_iff in H. lra. }
  rewrite E.
  assert (Habs : (Qabs q == q)%Q) by (apply Qabs_pos; lra).
  assert (Hpos : (0 < Qabs q)%Q) by lra.
  destruct (binade_spec (Qabs q) Hpos) as [He1 He2].
  set (e := binade (Qabs q)) in *.
  assert (He0 : 0 <= e).
  { assert (0 < e + 1); [| lia]. apply pow2_cancel. change (Qpower 2 0) with 1%Q. lra. }
  assert (He52 : e <= 52).
  { destruct (Z.le_gt_cases e 52) as [|Hgt]; [assumption | exfalso].
    pose proof (pow2_strict 52 e Hgt). lra. }
  rewrite Z.max_l by lia.
  set (k := 52 - e).
  assert (Hinv : (/ Qpower 2 (e - 52) == inject_Z (2 ^ k))%Q).
  { rewrite <- pow2_integer by (subst k; lia). subst k.
    replace (52 - e) with (- (e - 52)) by lia. symmetry. apply Qpower_opp. }
  assert (Hk : 1 <= 2 ^ k) by (change 1 with (2 ^ 0); apply Z.pow_le_mono_r; subst k; lia).
  assert (Hkq : (1 <= inject_Z (2 ^ k))%Q)
    by (change 1%Q with (inject_Z 1); now rewrite <- Zle_Qle).
  pose proof (pow2_positive (e - 52)) as Hu.
  assert (Hone : (Qpower 2 (e - 52) * inject_Z (2 ^ k) == 1)%Q)
    by (rewrite <- Hinv; field; lra).
  set (x := (Qabs q / Qpower 2 (e - 52))%Q).
  assert (Hx : (x == q * inject_Z (2 ^ k))%Q)
    by (subst x; unfold Qdiv; now rewrite Hinv, Habs).
  assert (Hlo : a * 2 ^ k <= nearest_even x).
  { apply nearest_even_above. rewrite Hx, inject_Z_mult. nra. }
  assert (Hhi : nearest_even x <= b * 2 ^ k).
  { apply nearest_even_below. rewrite Hx, inject_Z_mult. nra. }
  set (m := nearest_even x) in *.
  rewrite Zle_Qle, inject_Z_mult in Hlo, Hhi.
  set (r := (inject_Z m * Qpower 2 (e - 52))%Q).
  assert (Hscale : forall c : Z,
             (inject_Z c == inject_Z c * inject_Z (2 ^ k) * Qpower 2 (e - 52))%Q).
  { intros c. rewrite <- Qmult_assoc, (Qmult_comm (inject_Z (2 ^ k))), Hone. ring. }
  assert (Hr1 : (inject_Z a <= r)%Q).
  { subst r. rewrite (Hscale a). apply Qmult_le_compat_r; [assumption | lra]. }
  assert (Hr2 : (r <= inject_Z b)%Q).
  { subst r. rewrite (Hscale b). apply Qmult_le_compat_r; [assumption | lra]. }
  assert (Hno : Qle_bool (Qpower 2 1024) r = false).
  { apply not_true_is_false. intros H. apply Qle_bool_iff in H.
    pose proof (pow2_strict 52 1024 ltac:(lia)).
    assert (Hb52 : (inject_Z b <= Qpower 2 52)%Q)
      by (rewrite pow2_integer by lia; now rewrite <- Zle_Qle).
    lra. }
  rewrite Hno.
  assert (Hs : (Qnum q <? 0) = false).
  { apply not_true_is_false. intros H. apply sign_negative in H. lra. }
  rewrite Hs. exists (Qred r). split; [reflexivity |].
  rewrite Qred_correct. split; assumption.
Qed.

(** Rounding moves a number by at most one part in [2^53]. *)
Lemma to_double_close (q : Q) :
  (1 <= q)%Q -> (q <= Qpower 2 52)%Q ->
  exists r, to_double q = Finite r /\ (Qabs (r - q) * Qpower 2 53 <= q)%Q.
Proof.
  intros Hq1 Hq52.
  unfold to_double. cbv zeta.
  assert (E : Qeq_bool q 0 = false).
  { apply not_true_is_false. intros H. apply Qeq_bool_iff in H. lra. }
  rewrite E.
  assert (Habs : (Qabs q == q)%Q) by (apply Qabs_pos; lra).
  assert (Hpos : (0 < Qabs q)%Q) by lra.
  destruct (binade_spec (Qabs q) Hpos) as [He1 He2].
  set (e := binade (Qabs q)) in *.
  assert (He0 : 0 <= e).
  { assert (0 < e + 1); [| lia]. apply pow2_cancel. change (Qpower 2 0) with 1%Q. lra. }
  assert (He52 : e <= 52).
  { destruct (Z.le_gt_cases e 52) as [|Hgt]; [assumption | exfalso].
    pose proof (pow2_strict 52 e Hgt). lra. }
  rewrite Z.max_l by lia.
  set (k := 52 - e).
  assert (Hinv : (/ Qpower 2 (e - 52) == inject_Z (2 ^ k))%Q).
  { rewrite <- pow2_integer by (subst k; lia). subst k.
    replace (52 - e) with (- (e - 52)) by lia. symmetry. apply Qpower_opp. }
  pose proof (pow2_positive (e - 52)) as Hu.
  assert (Hone : (Qpower 2 (e - 52) * inject_Z (2 ^ k) == 1)%Q)
    by (rewrite <- Hinv; field; lra).
  assert (Hup : (Qpower 2 (e - 52) * Qpower 2 53 == 2 * Qpower 2 e)%Q).
  { rewrite <- pow2_plus. replace (e - 52 + 53) with (e + 1) by lia. apply pow2_succ. }
  pose proof (pow2_positive 53) as HP.
  set (x := (Qabs q / Qpower 2 (e - 52))%Q).
  assert (Hx : (x == q * inject_Z (2 ^ k))%Q)
    by (subst x; unfold Qdiv; now rewrite Hinv, Habs).
  destruct (nearest_even_close x) as [Hlo Hhi].
  set (m := nearest_even x) in *.
  rewrite Hx in Hlo, Hhi. rewrite Habs in He1.
  set (r := (inject_Z m * Qpower 2 (e - 52))%Q).
  assert (Hrq : (r - q == (inject_Z m - q * inject_Z (2 ^ k)) * Qpower 2 (e - 52))%Q).
  { subst r. transitivity (inject_Z m * Qpower 2 (e - 52)
                           - q * (Qpower 2 (e - 52) * inject_Z (2 ^ k)))%Q;
      [rewrite Hone; ring | ring]. }
  assert (Hd : (Qabs (r - q) <= Qpower 2 (e - 52) * (1 # 2))%Q).
  { rewrite Hrq. apply Qabs_Qle_condition.
    remember (Qpower 2 (e - 52)) as u eqn:Eu.
    remember (inject_Z m) as M eqn:EM.
    remember (q * inject_Z (2 ^ k))%Q as y eqn:Ey.
    clear - Hu Hlo Hhi. split; nra. }
  assert (Hsmall : (Qabs (r - q) * Qpower 2 53 <= q)%Q).
  { pose proof (Qabs_nonneg (r - q)) as H0.
    remember (Qabs (r - q)) as A eqn:EA.
    remember (Qpower 2 (e - 52)) as u eqn:Eu.
    remember (Qpower 2 53) as P eqn:EP.
    remember (Qpower 2 e) as P2 eqn:EP2.
    assert (A * P <= u * (1 # 2) * P)%Q by (apply Qmult_le_compat_r; lra).
    clear - H Hup He1. lra. }
  assert (Hr : (r <= q + q)%Q).
  { destruct (Qabs_Qle_condition (r - q) (Qpower 2 (e - 52) * (1 # 2))) as [Hc _].
    specialize (Hc Hd).
    assert (Qpower 2 (e - 52) <= 1)%Q
      by (change 1%Q with (Qpower 2 0); apply pow2_monotone; lia).
    lra. }
  assert (Hno : Qle_bool (Qpower 2 1024) r = false).
  { apply not_true_is_false. intros H. apply Qle_bool_iff in H.
    pose proof (pow2_strict 53 1024 ltac:(lia)).
    pose proof (pow2_succ 52). replace (52 + 1) with 53 in * by lia. lra. }
  rewrite Hno.
  assert (Hs : (Qnum q <? 0) = false).
  { apply not_true_is_false. intros H. apply sign_negative in H. lra. }
  rewrite Hs. exists (Qred r). split; [reflexivity |].
  now rewrite Qred_correct.
Qed.

(** The rounding agrees with the binary64 of the Standard Library on
    samples: quotients, ties at [2^53], subnormal numbers, and the two sides
    of the overflow threshold. *)
Example doubles_agree_with_binary64 :
  to_double (1 # 3) = of_spec_float (SFdiv 53 1024 (binary64 1) (binary64 3))
  /\ to_double (13 # 3) = of_spec_float (SFdiv 53 1024 (binary64 13) (binary64 3))
  /\ to_double (- (1 # 10)) = of_spec_float (SFdiv 53 1024 (binary64 (-1)) (binary64 10))
  /\ to_double (inject_Z (2 ^ 53 + 1)) = of_spec_float (binary64 (2 ^ 53 + 1))
  /\ to_double (inject_Z (2 ^ 53 + 3)) = of_spec_float (binary64 (2 ^ 53 + 3))
  /\ to_double (Qpower 2 (-1075))
     = of_spec_float (binary_normalize 53 1024 1 (-1075) false)
  /\ to_double (3 * Qpower 2 (-1075))
     = of_spec_float (binary_normalize 53 1024 3 (-1075) false)
  /\ to_double (inject_Z (2 ^ 1024 - 2 ^ 970)) = Infinity false
  /\ of_spec_float (binary64 (2 ^ 1024 - 2 ^ 970)) = Infinity false
  /\ to_double (inject_Z (2 ^ 1024 - 2 ^ 970 - 1))
     = of_spec_float (binary64 (2 ^ 1024 - 2 ^ 970 - 1)).
Proof. repeat split; vm_compute; reflexivity. Qed.

(** ** Availability *)

Lemma overlapping_row (b : Booking.t) (carId : varchar) (s e : timestamp) :
  eq_ (Booking.carId b) carId
  && (eq_ (Booking.status b) "confirmed" || eq_ (Booking.status b) "pending")
  && ((Booking.startDate b <=? e) && (Booking.endDate b >=? s)) = true
  <-> conflicting b carId s e.
Proof.
  unfold conflicting, active_status, overlaps.
  rewrite !andb_true_iff, orb_true_iff, !eq_true_iff, Z.leb_le, Z.geb_le.
  intuition lia.
Qed.

Lemma checkAvailability_runs (db : DB) (carId : varchar) (s e : timestamp) :
  Storage.checkAvailability carId s e db
  = (Ok (List.length (Storage.overlappingBookings db carId s e) =? 0)%nat, db).
Proof. reflexivity. Qed.

Lemma available_iff (db : DB) (carId : varchar) (s e : timestamp) :
  (List.length (Storage.overlappingBookings db carId s e) =? 0)%nat = true
  <-> forall b, In b (bookings db) -> ~ conflicting b carId s e.
Proof.
  unfold Storage.overlappingBookings. rewrite filter_none. split.
  - intros H b Hb Hc. apply overlapping_row in Hc. rewrite H in Hc; [discriminate | assumption].
  - intros H b Hb. apply not_true_is_false. intros Hc. apply overlapping_row in Hc.
    now apply (H b).
Qed.

Lemma unavailable_iff (db : DB) (carId : varchar) (s e : timestamp) :
  (List.length (Storage.overlappingBookings db carId s e) =? 0)%nat = false
  <-> exists b, In b (bookings db) /\ conflicting b carId s e.
Proof.
  unfold Storage.overlappingBookings. rewrite filter_some.
  split; intros [b [Hb Hc]]; exists b; split; auto; now apply overlapping_row.
Qed.

Lemma overlapping_without (db : DB) (carId : varchar) (s e : timestamp)
      (b : Booking.t) (before later : list Booking.t) :
  bookings db = before ++ b :: later ->
  Booking.status b = "cancelled" \/ Booking.status b = "completed" ->
  Storage.overlappingBookings db carId s e
  = Storage.overlappingBookings (with_bookings db (before ++ later)) carId s e.
Proof.
  intros Hl Hs. unfold Storage.overlappingBookings. rewrite Hl. simpl.
  rewrite !filter_app. simpl.
  destruct Hs as [-> | ->]; simpl; rewrite andb_false_r; reflexivity.
Qed.

(** C1. [checkAvailability(carId, s, e)] answers [true] exactly when no
    booking of [carId] with status pending or confirmed overlaps [[s, e]]
    under the closed-interval rule ([bs <= e] and [be >= s]), and [false]
    exactly when one does; taking a cancelled or completed booking out of
    the table never changes the answer; a range that shares a boundary date
    with an active booking conflicts with it (with the confirmed booking of
    1 to 5 June, 5 to 7 June is unavailable and 6 to 7 June is available);
    and the check leaves the database as it found it. *)
Theorem checkAvailability_closed_interval :
  forall (db : DB) (carId : varchar) (s e : timestamp),
    (answer (Storage.checkAvailability carId s e) db = Ok true
     <-> forall b, In b (bookings db) -> ~ conflicting b carId s e)
    /\ (answer (Storage.checkAvailability carId s e) db = Ok false
        <-> exists b, In b (bookings db) /\ conflicting b carId s e)
    /\ (forall b before later,
          bookings db = before ++ b :: later ->
          Booking.status b = "cancelled" \/ Booking.status b = "completed" ->
          answer (Storage.checkAvailability carId s e) db
          = answer (Storage.checkAvailability carId s e)
                   (with_bookings db (before ++ later)))
    /\ (forall b,
          In b (bookings db) -> Booking.carId b = carId ->
          active_status (Booking.status b) ->
          Booking.startDate b <= Booking.endDate b -> s <= e ->
          Booking.endDate b = s \/ Booking.startDate b = e ->
          answer (Storage.checkAvailability carId s e) db = Ok false)
    /\ answer (Storage.checkAvailability "car-1" jun05 jun07) june = Ok false
    /\ answer (Storage.checkAvailability "car-1" jun06 jun07) june = Ok true
    /\ after (Storage.checkAvailability carId s e) db = db.
Proof.
  intros db carId s e. unfold answer, after.
  rewrite !checkAvailability_runs. cbn [fst snd].
  split; [| split; [| split; [| split; [| split; [| split]]]]].
  - rewrite <- available_iff. split; [now intros [= ->] | now intros ->].
  - rewrite <- unavailable_iff. split; [now intros [= ->] | now intros ->].
  - intros b before later Hl Hs. rewrite checkAvailability_runs. cbn [fst].
    now rewrite (overlapping_without db carId s e b before later Hl Hs).
  - intros b Hb Hc Ha Hbe Hse Hshare. f_equal. apply unavailable_iff.
    exists b. split; [assumption |].
    unfold conflicting, overlaps. repeat split; try assumption; lia.
  - reflexivity.
  - reflexivity.
  - reflexivity.
Qed.

(** ** The schema constraints, as propositions *)

Lemma forallb_refers {A} (key : A -> varchar) (keys : list varchar) (l : list A) :
  forallb (fun x => refers keys (key x)) l = true
  <-> Forall (fun x => In (key x) keys) l.
Proof.
  rewrite forallb_forall, Forall_forall.
  split; intros H x Hx; apply refers_In; auto.
Qed.

Record Consistent (db : DB) : Prop := {
  user_ids : NoDup (map User.id (users db));
  user_emails : NoDup (present (map User.email (users db)));
  car_ids : NoDup (map Car.id (cars db));
  car_registrations : NoDup (map Car.registrationNumber (cars db));
  car_owner : Forall (fun c => In (Car.ownerId c) (map User.id (users db))) (cars db);
  booking_ids : NoDup (map Booking.id (bookings db));
  booking_car : Forall (fun b => In (Booking.carId b) (map Car.id (cars db))) (bookings db);
  booking_user : Forall (fun b => In (Booking.userId b) (map User.id (users db))) (bookings db);
  payment_ids : NoDup (map Payment.id (payments db));
  payment_bookings : NoDup (map Payment.bookingId (payments db));
  payment_booking :
    Forall (fun p => In (Payment.bookingId p) (map Booking.id (bookings db))) (payments db);
  review_ids : NoDup (map Review.id (reviews db));
  review_car : Forall (fun r => In (Review.carId r) (map Car.id (cars db))) (reviews db);
  review_user : Forall (fun r => In (Review.userId r) (map User.id (users db))) (reviews db);
  user_columns_ok : Forall (fun u => user_columns u = true) (users db);
  car_columns_ok : Forall (fun c => car_columns c = true) (cars db);
  booking_columns_ok : Forall (fun b => booking_columns b = true) (bookings db);
  payment_columns_ok : Forall (fun p => payment_columns p = true) (payments db);
  review_columns_ok : Forall (fun r => review_columns r = true) (reviews db) }.

Lemma forallb_Forall {A} (f : A -> bool) (l : list A) :
  forallb f l = true <-> Forall (fun x => f x = true) l.
Proof. now rewrite forallb_forall, Forall_forall. Qed.

Lemma consistent_iff (db : DB) : consistent db <-> Consistent db.
Proof.
  unfold consistent, constraints_ok, users_ok, cars_ok, bookings_ok, payments_ok, reviews_ok,
    columns_ok.
  rewrite !andb_true_iff, !distinct_NoDup, !forallb_refers, !forallb_Forall.
  split.
  - intros H. decompose [and] H. now constructor.
  - intros []. repeat split; assumption.
Qed.

Lemma statement_runs {A} (d : Draw) (next : DB -> DB) (returning : DB -> A) (db : DB) :
  outage d = false -> consistent (next db) ->
  statement d next returning db = (Ok (returning (next db)), next db).
Proof.
  intros Ho Hc. unfold statement. now rewrite Ho, Hc.
Qed.

Lemma statement_cases {A} (d : Draw) (next : DB -> DB) (returning : DB -> A) (db : DB) :
  (statement d next returning db = (Ok (returning (next db)), next db)
   /\ outage d = false /\ consistent (next db))
  \/ (exists message, statement d next returning db = (Throw message, db)).
Proof.
  unfold statement, consistent.
  destruct (outage d); [right; eauto |].
  destruct (constraints_ok (next db)); [left; auto | right; eauto].
Qed.

Lemma statement_consistent {A} (d : Draw) (next : DB -> DB) (returning : DB -> A) (db : DB) :
  consistent db -> consistent (after (statement d next returning) db).
Proof.
  intros H. unfold after.
  destruct (statement_cases d next returning db) as [[-> [_ Hc]] | [m ->]]; assumption.
Qed.

(** C7. In a database that satisfies the foreign keys of the schema, a
    [carId] that identifies no car is referenced by no booking, so
    [checkAvailability(carId, s, e)] answers [true] for every range: it
    neither throws nor reports the car as missing. *)
Theorem checkAvailability_unknown_car :
  forall (db : DB) (carId : varchar) (s e : timestamp),
    consistent db ->
    ~ In carId (map Car.id (cars db)) ->
    Storage.checkAvailability carId s e db = (Ok true, db).
Proof.
  intros db carId s e Hc Hcar. rewrite checkAvailability_runs. f_equal. f_equal.
  apply available_iff. intros b Hb [Hid _]. apply Hcar. rewrite <- Hid.
  apply consistent_iff in Hc. pose proof (booking_car db Hc) as Hfk.
  rewrite Forall_forall in Hfk. now apply Hfk.
Qed.

Lemma checkAvailability_unknown_car_witness :
  Storage.checkAvailability "ghost" jun01 jun07 june = (Ok true, june).
Proof.
  apply checkAvailability_unknown_car.
  - vm_compute. reflexivity.
  - simpl. intuition discriminate.
Defined.

(** ** Creating a booking *)

Lemma NoDup_snoc {A} (l : list A) (x : A) : NoDup l -> ~ In x l -> NoDup (l ++ [x]).
Proof.
  intros Hl Hx. apply NoDup_app; [assumption | repeat constructor; intros [] |].
  intros a Ha [<- | []]. contradiction.
Qed.

Lemma Forall_In_grows {A} (key : A -> varchar) (keys : list varchar) (k : varchar)
      (l : list A) :
  Forall (fun x => In (key x) keys) l -> Forall (fun x => In (key x) (keys ++ [k])) l.
Proof.
  apply Forall_impl. intros a Ha. apply in_or_app. now left.
Qed.

Lemma insert_booking_consistent (db : DB) (b : Booking.t) :
  consistent db ->
  ~ In (Booking.id b) (map Booking.id (bookings db)) ->
  In (Booking.carId b) (map Car.id (cars db)) ->
  In (Booking.userId b) (map User.id (users db)) ->
  booking_columns b = true ->
  consistent (with_bookings db (bookings db ++ [b])).
Proof.
  intros Hc Hid Hcar Huser Hcol. apply consistent_iff in Hc. apply consistent_iff.
  destruct Hc. constructor; cbn [with_bookings users cars bookings payments reviews];
    try assumption.
  - rewrite map_app. now apply NoDup_snoc.
  - apply Forall_app. split; [assumption | now repeat constructor].
  - apply Forall_app. split; [assumption | now repeat constructor].
  - rewrite map_app. now apply Forall_In_grows.
  - apply Forall_app. split; [assumption | now repeat constructor].
Qed.

Lemma insert_payment_consistent (db : DB) (p : Payment.t) :
  consistent db ->
  ~ In (Payment.id p) (map Payment.id (payments db)) ->
  ~ In (Payment.bookingId p) (map Payment.bookingId (payments db)) ->
  In (Payment.bookingId p) (map Booking.id (bookings db)) ->
  payment_columns p = true ->
  consistent (with_payments db (payments db ++ [p])).
Proof.
  intros Hc Hid Hun Hfk Hcol. apply consistent_iff in Hc. apply consistent_iff.
  destruct Hc. constructor; cbn [with_payments users cars bookings payments reviews];
    try assumption.
  - rewrite map_app. now apply NoDup_snoc.
  - rewrite map_app. now apply NoDup_snoc.
  - apply Forall_app. split; [assumption | now repeat constructor].
  - apply Forall_app. split; [assumption | now repeat constructor].
Qed.

(** The rows of [POST /api/bookings] fit their columns when the amount
    does. *)
Lemma posted_booking_columns (d : Draw) (userId : varchar) (body : BookingBody.t) :
  booking_columns (new_booking d (Routes.bookingData_of userId body))
  = decimal_10_2 (round2 (BookingBody.totalCost body)).
Proof. unfold booking_columns. cbn. now rewrite !andb_true_r. Qed.

Lemma posted_payment_columns (d : Draw) (booking : Booking.t) (totalCost : decimal) :
  payment_columns (new_payment d (Routes.paymentData_of booking totalCost))
  = decimal_10_2 (round2 totalCost).
Proof. unfold payment_columns. cbn. now rewrite !andb_true_r. Qed.

(** The handler, await by await. *)
Lemma post_api_bookings_runs (d1 d2 : Draw) (userId : varchar) (body : BookingBody.t)
      (db : DB) :
  Routes.post_api_bookings d1 d2 userId body db =
  if negb (List.length
             (Storage.overlappingBookings db (BookingBody.carId body)
                (BookingBody.startDate body) (BookingBody.endDate body)) =? 0)%nat
  then (Ok (status_json 400 (JMessage "Car is not available for the selected dates")), db)
  else
    match Storage.createBooking d1 (Routes.bookingData_of userId body) db with
    | (Throw message, db1) => (Ok (failed_booking message), db1)
    | (Ok booking, db1) =>
        match Storage.createPayment d2
                (Routes.paymentData_of booking (BookingBody.totalCost body)) db1 with
        | (Throw message, db2) => (Ok (failed_booking message), db2)
        | (Ok _, db2) => (Ok (json (JBooking booking)), db2)
        end
    end.
Proof.
  unfold Routes.post_api_bookings, try_catch, bind at 1.
  rewrite checkAvailability_runs.
  destruct (List.length _ =? 0)%nat; cbn [negb]; [| reflexivity].
  unfold bind.
  destruct (Storage.createBooking d1 _ db) as [[booking | message] db1]; [| reflexivity].
  destruct (Storage.createPayment d2 _ db1) as [[payment | message] db2]; reflexivity.
Qed.

Lemma payments_reference_bookings (db : DB) (k : varchar) :
  consistent db ->
  ~ In k (map Booking.id (bookings db)) ->
  ~ In k (map Payment.bookingId (payments db)).
Proof.
  intros Hc Hk Hin. apply consistent_iff in Hc.
  pose proof (payment_booking db Hc) as Hfk. rewrite Forall_forall in Hfk.
  apply in_map_iff in Hin. destruct Hin as [p [<- Hp]]. now apply Hk, Hfk.
Qed.

Lemma payments_of_absent (db : DB) (k : varchar) :
  ~ In k (map Payment.bookingId (payments db)) -> payments_of db k = [].
Proof.
  intros Hk. unfold payments_of.
  induction (payments db) as [|p r IH]; [reflexivity |]. simpl in *.
  destruct (eq_ (Payment.bookingId p) k) eqn:E.
  - apply eq_true_iff in E. tauto.
  - apply IH. tauto.
Qed.

Lemma answer_checkAvailability (db : DB) (carId : varchar) (s e : timestamp) (v : bool) :
  answer (Storage.checkAvailability carId s e) db = Ok v
  <-> (List.length (Storage.overlappingBookings db carId s e) =? 0)%nat = v.
Proof.
  unfold answer. rewrite checkAvailability_runs. cbn [fst].
  split; [now intros [= ->] | now intros ->].
Qed.

Lemma post_api_bookings_accepted (db : DB) (d1 d2 : Draw) (userId : varchar)
      (body : BookingBody.t) :
  consistent db ->
  answer (Storage.checkAvailability (BookingBody.carId body)
            (BookingBody.startDate body) (BookingBody.endDate body)) db = Ok true ->
  In (BookingBody.carId body) (map Car.id (cars db)) ->
  In userId (map User.id (users db)) ->
  ~ In (uuid d1) (map Booking.id (bookings db)) ->
  ~ In (uuid d2) (map Payment.id (payments db)) ->
  outage d1 = false -> outage d2 = false ->
  storable (BookingBody.totalCost body) ->
  let booking := new_booking d1 (Routes.bookingData_of userId body) in
  let payment :=
    new_payment d2 (Routes.paymentData_of booking (BookingBody.totalCost body)) in
  let db' := with_payments (with_bookings db (bookings db ++ [booking]))
                           (payments db ++ [payment]) in
  Routes.post_api_bookings d1 d2 userId body db = (Ok (json (JBooking booking)), db')
  /\ consistent db'.
Proof.
  intros Hc Ha Hcar Huser Hb Hp Ho1 Ho2 Hfit booking payment db'.
  apply answer_checkAvailability in Ha. apply decimal_10_2_round2 in Hfit.
  assert (Hc1 : consistent (with_bookings db (bookings db ++ [booking]))).
  { apply insert_booking_consistent; try assumption.
    subst booking. now rewrite posted_booking_columns. }
  assert (Hc2 : consistent db').
  { apply (insert_payment_consistent _ payment Hc1); cbn [with_bookings payments bookings].
    - assumption.
    - now apply payments_reference_bookings.
    - rewrite map_app. apply in_or_app. right. now left.
    - subst payment. now rewrite posted_payment_columns. }
  split; [| assumption].
  rewrite post_api_bookings_runs, Ha. cbn [negb].
  unfold Storage.createBooking. rewrite statement_runs by assumption.
  unfold Storage.createPayment. rewrite statement_runs by assumption.
  reflexivity.
Qed.

Lemma post_api_bookings_succeeded (db db' : DB) (d1 d2 : Draw) (userId : varchar)
      (body : BookingBody.t) (booking : Booking.t) :
  consistent db ->
  Routes.post_api_bookings d1 d2 userId body db = (Ok (json (JBooking booking)), db') ->
  let payment :=
    new_payment d2 (Routes.paymentData_of booking (BookingBody.totalCost body)) in
  answer (Storage.checkAvailability (BookingBody.carId body)
            (BookingBody.startDate body) (BookingBody.endDate body)) db = Ok true
  /\ booking = new_booking d1 (Routes.bookingData_of userId body)
  /\ db' = mkDB (users db) (cars db) (bookings db ++ [booking])
                (payments db ++ [payment]) (reviews db)
  /\ ~ In (Booking.id booking) (map Booking.id (bookings db))
  /\ payments_of db' (Booking.id booking) = [payment]
  /\ storable (BookingBody.totalCost body).
Proof.
  intros Hc. rewrite post_api_bookings_runs.
  destruct (List.length _ =? 0)%nat eqn:Ha; cbn [negb]; [| discriminate].
  unfold Storage.createBooking.
  match goal with
  | |- context [statement d1 ?n ?r] =>
      destruct (statement_cases d1 n r db) as [[H1 [_ Hc1]] | [m1 H1]]
  end; rewrite H1; [| discriminate].
  unfold Storage.createPayment.
  match goal with
  | |- context [statement d2 ?n ?r ?db1] =>
      destruct (statement_cases d2 n r db1) as [[H2 _] | [m2 H2]]
  end; rewrite H2; [| discriminate].
  intros [= <- <-]. cbv zeta.
  assert (Hfresh : ~ In (uuid d1) (map Booking.id (bookings db))).
  { apply consistent_iff in Hc1. pose proof (booking_ids _ Hc1) as Hnd.
    cbn [with_bookings bookings] in Hnd. rewrite map_app in Hnd.
    apply NoDup_remove_2 in Hnd. now rewrite app_nil_r in Hnd. }
  split; [now apply answer_checkAvailability |].
  split; [reflexivity |]. split; [reflexivity |]. split; [exact Hfresh |].
  split.
  - unfold payments_of. cbn [payments with_payments with_bookings]. rewrite filter_app.
    change (filter _ (payments db)) with (payments_of db (uuid d1)).
    rewrite payments_of_absent by now apply payments_reference_bookings.
    cbn. now rewrite eq_refl_true.
  - apply consistent_iff in Hc1. pose proof (booking_columns_ok _ Hc1) as Hcol.
    cbn [with_bookings bookings] in Hcol. apply Forall_app in Hcol.
    destruct Hcol as [_ Hcol]. inversion Hcol as [| ? ? Hb _]. subst.
    rewrite posted_booking_columns in Hb. now apply decimal_10_2_round2.
Qed.

(** An amount the column cannot hold is refused by the booking insert. *)
Lemma post_api_bookings_overflow (db : DB) (d1 d2 : Draw) (userId : varchar)
      (body : BookingBody.t) :
  answer (Storage.checkAvailability (BookingBody.carId body)
            (BookingBody.startDate body) (BookingBody.endDate body)) db = Ok true ->
  ~ storable (BookingBody.totalCost body) ->
  exists message,
    Routes.post_api_bookings d1 d2 userId body db = (Ok (failed_booking message), db).
Proof.
  intros Ha Hfit. apply answer_checkAvailability in Ha.
  rewrite post_api_bookings_runs, Ha. cbn [negb]. unfold Storage.createBooking.
  match goal with
  | |- context [statement d1 ?n ?r] =>
      destruct (statement_cases d1 n r db) as [[H1 [_ Hc1]] | [m1 H1]]
  end; rewrite H1; [exfalso | now exists m1].
  apply Hfit. apply consistent_iff in Hc1. pose proof (booking_columns_ok _ Hc1) as Hcol.
  cbn [with_bookings bookings] in Hcol. apply Forall_app in Hcol.
  destruct Hcol as [_ Hcol]. inversion Hcol as [| ? ? Hb _]. subst.
  rewrite posted_booking_columns in Hb. now apply decimal_10_2_round2.
Qed.

(** C2 (amended). With the schema constraints holding, [POST /api/bookings]
    is answered 400 "not available", and writes nothing, when the
    availability check answers [false]. Whenever it answers with a booking,
    the check had answered [true], the booking is in state (pending,
    pending) under an id no booking had, with the caller, car and dates as
    sent and [totalCost] as the [decimal(10,2)] column stores it: rounded to
    two decimals, which is the amount sent when that has two decimals at
    most, and below [10^8]; and the tables have grown by that booking and by
    exactly one payment for it, of the same amount, in INR, pending. It does
    answer with a booking when the check answers [true] and the store
    accepts both inserts: the car and the user exist, the drawn ids are
    unused, the connection holds and the rounded amount is below [10^8]. An
    amount of [10^8] or more is answered 400, and nothing is written. *)
Theorem post_api_bookings_guarded :
  forall (db : DB) (d1 d2 : Draw) (userId : varchar) (body : BookingBody.t),
    consistent db ->
    let check :=
      answer (Storage.checkAvailability (BookingBody.carId body)
                (BookingBody.startDate body) (BookingBody.endDate body)) db in
    (check = Ok false ->
     Routes.post_api_bookings d1 d2 userId body db
     = (Ok (status_json 400 (JMessage "Car is not available for the selected dates")), db))
    /\ (forall booking db',
          Routes.post_api_bookings d1 d2 userId body db
          = (Ok (json (JBooking booking)), db') ->
          check = Ok true
          /\ ~ In (Booking.id booking) (map Booking.id (bookings db))
          /\ Booking.status booking = "pending"
          /\ Booking.paymentStatus booking = "pending"
          /\ Booking.carId booking = BookingBody.carId body
          /\ Booking.userId booking = userId
          /\ Booking.startDate booking = BookingBody.startDate body
          /\ Booking.endDate booking = BookingBody.endDate body
          /\ Booking.totalCost booking = round2 (BookingBody.totalCost body)
          /\ (Qabs (Booking.totalCost booking) < 100000000)%Q
          /\ (Qabs (Booking.totalCost booking - BookingBody.totalCost body) <= 1 # 200)%Q
          /\ (forall cents,
                (BookingBody.totalCost body == cents # 100)%Q ->
                (Booking.totalCost booking == BookingBody.totalCost body)%Q)
          /\ exists payment,
               db' = mkDB (users db) (cars db) (bookings db ++ [booking])
                          (payments db ++ [payment]) (reviews db)
               /\ payments_of db' (Booking.id booking) = [payment]
               /\ Payment.bookingId payment = Booking.id booking
               /\ Payment.amount payment = Booking.totalCost booking
               /\ Payment.currency payment = "INR"
               /\ Payment.status payment = "pending")
    /\ (check = Ok true ->
        In (BookingBody.carId body) (map Car.id (cars db)) ->
        In userId (map User.id (users db)) ->
        ~ In (uuid d1) (map Booking.id (bookings db)) ->
        ~ In (uuid d2) (map Payment.id (payments db)) ->
        outage d1 = false -> outage d2 = false ->
        storable (BookingBody.totalCost body) ->
        exists booking db',
          Routes.post_api_bookings d1 d2 userId body db
          = (Ok (json (JBooking booking)), db'))
    /\ (check = Ok true ->
        ~ storable (BookingBody.totalCost body) ->
        exists message,
          Routes.post_api_bookings d1 d2 userId body db
          = (Ok (status_json 400 (JMessage message)), db)).
Proof.
  intros db d1 d2 userId body Hc check. subst check. split; [| split; [| split]].
  - intros Ha. apply answer_checkAvailability in Ha.
    now rewrite post_api_bookings_runs, Ha.
  - intros booking db' Hrun.
    destruct (post_api_bookings_succeeded db db' d1 d2 userId body booking Hc Hrun)
      as [Ha [Hb [Hdb [Hfresh [Hone Hfit]]]]].
    split; [exact Ha |]. split; [exact Hfresh |].
    subst booking. repeat (split; [reflexivity |]).
    cbn [new_booking Routes.bookingData_of Booking.totalCost InsertBooking.totalCost].
    split; [exact Hfit |]. split; [apply round2_close |].
    split; [intros cents; apply round2_exact |].
    eexists. split; [exact Hdb |]. split; [exact Hone |].
    repeat split.
  - intros Ha Hcar Huser Hb Hp Ho1 Ho2 Hfit.
    destruct (post_api_bookings_accepted db d1 d2 userId body) as [Hrun _];
      try assumption.
    eexists. eexists. exact Hrun.
  - intros Ha Hfit.
    destruct (post_api_bookings_overflow db d1 d2 userId body Ha Hfit) as [m Hrun].
    eexists. exact Hrun.
Qed.

Lemma post_api_bookings_guarded_witness :
  exists booking db',
    Routes.post_api_bookings draw_booking2 draw_payment2 "bob" body_free june
    = (Ok (json (JBooking booking)), db')
    /\ Booking.status booking = "pending"
    /\ (exists payment, payments_of db' (Booking.id booking) = [payment]).
Proof.
  destruct (post_api_bookings_guarded june draw_booking2 draw_payment2 "bob" body_free)
    as [_ [Hthen [Hso _]]].
  - vm_compute. reflexivity.
  - destruct Hso as [booking [db' Hrun]].
    + reflexivity.
    + simpl. tauto.
    + simpl. tauto.
    + simpl. intuition discriminate.
    + simpl. intuition discriminate.
    + reflexivity.
    + reflexivity.
    + reflexivity.
    + exists booking, db'. split; [exact Hrun |].
      destruct (Hthen booking db' Hrun)
        as [_ [_ [Hs [_ [_ [_ [_ [_ [_ [_ [_ [_ [payment [_ [Hone _]]]]]]]]]]]]]]].
      split; [exact Hs | now exists payment].
Defined.

(** C2, as stated, fails: the availability check answers [true] for a car
    that does not exist, and the booking insert is then refused by the
    foreign key on [car_id]. *)
Lemma post_api_bookings_available_but_refused :
  ~ (forall (db : DB) (d1 d2 : Draw) (userId : varchar) (body : BookingBody.t),
       consistent db ->
       (answer (Storage.checkAvailability (BookingBody.carId body)
                  (BookingBody.startDate body) (BookingBody.endDate body)) db = Ok true
        <-> exists booking,
              answer (Routes.post_api_bookings d1 d2 userId body) db
              = Ok (json (JBooking booking)))).
Proof.
  intros H.
  destruct (H june draw_booking2 draw_payment2 "bob" body_ghost) as [Hsuccess _].
  - vm_compute. reflexivity.
  - destruct Hsuccess as [booking Hb]; [reflexivity |].
    vm_compute in Hb. discriminate.
Qed.

(** ** Requests in flight *)

Lemma createBooking_runs (db : DB) (d : Draw) (data : InsertBooking.t) :
  consistent db ->
  ~ In (uuid d) (map Booking.id (bookings db)) ->
  In (InsertBooking.carId data) (map Car.id (cars db)) ->
  In (InsertBooking.userId data) (map User.id (users db)) ->
  outage d = false ->
  booking_columns (new_booking d data) = true ->
  Storage.createBooking d data db
  = (Ok (new_booking d data), with_bookings db (bookings db ++ [new_booking d data]))
  /\ consistent (with_bookings db (bookings db ++ [new_booking d data])).
Proof.
  intros Hc Hid Hcar Huser Ho Hcol.
  assert (Hc' : consistent (with_bookings db (bookings db ++ [new_booking d data])))
    by now apply insert_booking_consistent.
  split; [| assumption].
  unfold Storage.createBooking. now rewrite statement_runs.
Qed.

Lemma createPayment_runs (db : DB) (d : Draw) (data : InsertPayment.t) :
  consistent db ->
  ~ In (uuid d) (map Payment.id (payments db)) ->
  ~ In (InsertPayment.bookingId data) (map Payment.bookingId (payments db)) ->
  In (InsertPayment.bookingId data) (map Booking.id (bookings db)) ->
  outage d = false ->
  payment_columns (new_payment d data) = true ->
  Storage.createPayment d data db
  = (Ok (new_payment d data), with_payments db (payments db ++ [new_payment d data]))
  /\ consistent (with_payments db (payments db ++ [new_payment d data])).
Proof.
  intros Hc Hid Hun Hfk Ho Hcol.
  assert (Hc' : consistent (with_payments db (payments db ++ [new_payment d data])))
    by now apply insert_payment_consistent.
  split; [| assumption].
  unfold Storage.createPayment. now rewrite statement_runs.
Qed.

(** A request served without interruption is the handler. *)
Lemma resume_alone (d0 d1 d2 : Draw) (userId : varchar) (body : BookingBody.t) (db : DB) :
  let w := interleave [(true, d0); (true, d1); (true, d2)]
                      (mkTwo db (AtCheckAvailability userId body) (Responded (json (JMessage ""))))
  in
  exists response,
    Routes.post_api_bookings d1 d2 userId body db = (Ok response, store w)
    /\ first_request w = Responded response.
Proof.
  cbn [interleave first_request second_request store resume].
  rewrite post_api_bookings_runs, checkAvailability_runs.
  destruct (List.length _ =? 0)%nat; cbn [negb resume].
  - destruct (Storage.createBooking d1 _ db) as [[booking | message] db1]; cbn [resume].
    + destruct (Storage.createPayment d2 _ db1) as [[payment | message] db2];
        cbn; eexists; split; reflexivity.
    + cbn; eexists; split; reflexivity.
  - cbn; eexists; split; reflexivity.
Qed.

Lemma booking_blocks_itself (db : DB) (b : Booking.t) :
  In b (bookings db) ->
  active_status (Booking.status b) ->
  Booking.startDate b <= Booking.endDate b ->
  (List.length (Storage.overlappingBookings db (Booking.carId b)
                  (Booking.startDate b) (Booking.endDate b)) =? 0)%nat = false.
Proof.
  intros Hb Ha Hse. apply unavailable_iff. exists b. split; [assumption |].
  unfold conflicting, overlaps. repeat split; try assumption; lia.
Qed.

Lemma interleave_first (d : Draw) (rest : list (bool * Draw)) (w : TwoRequests)
      (r : InFlight) (db : DB) :
  resume d (first_request w) (store w) = (r, db) ->
  interleave ((true, d) :: rest) w = interleave rest (mkTwo db r (second_request w)).
Proof. intros H. cbn [interleave]. now rewrite H. Qed.

Lemma interleave_second (d : Draw) (rest : list (bool * Draw)) (w : TwoRequests)
      (r : InFlight) (db : DB) :
  resume d (second_request w) (store w) = (r, db) ->
  interleave ((false, d) :: rest) w = interleave rest (mkTwo db (first_request w) r).
Proof. intros H. cbn [interleave]. now rewrite H. Qed.

Lemma resume_check (d : Draw) (userId : varchar) (body : BookingBody.t) (db : DB) :
  resume d (AtCheckAvailability userId body) db =
  (if (List.length (Storage.overlappingBookings db (BookingBody.carId body)
                      (BookingBody.startDate body) (BookingBody.endDate body)) =? 0)%nat
   then AtCreateBooking userId body
   else Responded (status_json 400
                     (JMessage "Car is not available for the selected dates")),
   db).
Proof.
  cbn [resume]. rewrite checkAvailability_runs.
  now destruct (List.length _ =? 0)%nat.
Qed.

Lemma resume_createBooking (d : Draw) (userId : varchar) (body : BookingBody.t)
      (db db' : DB) (booking : Booking.t) :
  Storage.createBooking d (Routes.bookingData_of userId body) db = (Ok booking, db') ->
  resume d (AtCreateBooking userId body) db = (AtCreatePayment body booking, db').
Proof. intros H. cbn [resume]. now rewrite H. Qed.

Lemma resume_createPayment (d : Draw) (body : BookingBody.t) (booking : Booking.t)
      (db db' : DB) (payment : Payment.t) :
  Storage.createPayment d (Routes.paymentData_of booking (BookingBody.totalCost body)) db
  = (Ok payment, db') ->
  resume d (AtCreatePayment body booking) db = (Responded (json (JBooking booking)), db').
Proof. intros H. cbn [resume]. now rewrite H. Qed.

(** Serves the next request of the schedule, [t] solving its resumption. *)
Ltac serve t :=
  first [ erewrite interleave_first
            by (cbn [first_request second_request store]; t)
        | erewrite interleave_second
            by (cbn [first_request second_request store]; t) ];
  cbn [first_request second_request store].

(** C4. The availability check and the booking insert of
    [POST /api/bookings] are separate awaited statements with nothing held
    between them. For two requests for the same car and the same dates
    (and an amount the column holds), issued while the car is available,
    there is an interleaving (both checks first, then the inserts) in which
    both requests are answered with their
    booking and the table ends with two pending bookings of the car over the
    same dates, while the schema constraints still hold; served one after
    the other, the second request is refused. *)
Theorem check_then_insert_race :
  forall (db : DB) (user1 user2 : varchar) (body : BookingBody.t)
         (d0 d1 d2 p1 p2 : Draw),
    consistent db ->
    answer (Storage.checkAvailability (BookingBody.carId body)
              (BookingBody.startDate body) (BookingBody.endDate body)) db = Ok true ->
    BookingBody.startDate body <= BookingBody.endDate body ->
    In (BookingBody.carId body) (map Car.id (cars db)) ->
    In user1 (map User.id (users db)) ->
    In user2 (map User.id (users db)) ->
    ~ In (uuid d1) (map Booking.id (bookings db)) ->
    ~ In (uuid d2) (map Booking.id (bookings db)) ->
    uuid d1 <> uuid d2 ->
    ~ In (uuid p1) (map Payment.id (payments db)) ->
    ~ In (uuid p2) (map Payment.id (payments db)) ->
    uuid p1 <> uuid p2 ->
    outage d1 = false -> outage d2 = false -> outage p1 = false -> outage p2 = false ->
    storable (BookingBody.totalCost body) ->
    let start :=
      mkTwo db (AtCheckAvailability user1 body) (AtCheckAvailability user2 body) in
    (exists schedule b1 b2,
        let w := interleave schedule start in
        first_request w = Responded (json (JBooking b1))
        /\ second_request w = Responded (json (JBooking b2))
        /\ In b1 (bookings (store w)) /\ In b2 (bookings (store w))
        /\ Booking.id b1 <> Booking.id b2
        /\ Booking.carId b1 = Booking.carId b2
        /\ active_status (Booking.status b1) /\ active_status (Booking.status b2)
        /\ conflicting b1 (Booking.carId b2) (Booking.startDate b2) (Booking.endDate b2)
        /\ consistent (store w))
    /\ (let w := interleave [(true, d0); (true, d1); (true, p1);
                             (false, d0); (false, d2); (false, p2)] start in
        second_request w
        = Responded (status_json 400
                       (JMessage "Car is not available for the selected dates"))).
Proof.
  intros db user1 user2 body d0 d1 d2 p1 p2 Hc Ha Hse Hcar Hu1 Hu2 Hd1 Hd2 Hd12
         Hp1 Hp2 Hp12 Ho1 Ho2 Ho3 Ho4 Hfit start.
  apply answer_checkAvailability in Ha. apply decimal_10_2_round2 in Hfit.
  assert (Hcolb : forall d user,
             booking_columns (new_booking d (Routes.bookingData_of user body)) = true)
    by (intros; now rewrite posted_booking_columns).
  assert (Hcolp : forall d b,
             payment_columns
               (new_payment d (Routes.paymentData_of b (BookingBody.totalCost body)))
             = true)
    by (intros; now rewrite posted_payment_columns).
  set (b1 := new_booking d1 (Routes.bookingData_of user1 body)).
  set (b2 := new_booking d2 (Routes.bookingData_of user2 body)).
  set (pay1 := new_payment p1 (Routes.paymentData_of b1 (BookingBody.totalCost body))).
  set (pay2 := new_payment p2 (Routes.paymentData_of b2 (BookingBody.totalCost body))).
  (* the first booking, written while the second request waits *)
  destruct (createBooking_runs db d1 (Routes.bookingData_of user1 body))
    as [Hrun1 Hc1]; try assumption; try apply Hcolb.
  fold b1 in Hrun1, Hc1. set (db1 := with_bookings db (bookings db ++ [b1])) in *.
  assert (Hfresh2 : ~ In (uuid d2) (map Booking.id (bookings db1))).
  { cbn. rewrite map_app. intros Hin. apply in_app_or in Hin.
    destruct Hin as [Hin | [Hin | []]]; [now apply Hd2 | now apply Hd12]. }
  split.
  - (* both checks, then both inserts *)
    destruct (createBooking_runs db1 d2 (Routes.bookingData_of user2 body))
      as [Hrun2 Hc2]; try assumption; try apply Hcolb.
    fold b2 in Hrun2, Hc2. set (db2 := with_bookings db1 (bookings db1 ++ [b2])) in *.
    destruct (createPayment_runs db2 p1 (Routes.paymentData_of b1 (BookingBody.totalCost body)))
      as [Hrun3 Hc3]; try assumption; try apply Hcolp.
    { exact (payments_reference_bookings db _ Hc Hd1). }
    { cbn. rewrite !map_app. apply in_or_app. left. apply in_or_app. right. now left. }
    fold pay1 in Hrun3, Hc3. set (db3 := with_payments db2 (payments db2 ++ [pay1])) in *.
    destruct (createPayment_runs db3 p2 (Routes.paymentData_of b2 (BookingBody.totalCost body)))
      as [Hrun4 Hc4]; try assumption; try apply Hcolp.
    { cbn. rewrite map_app. intros Hin. apply in_app_or in Hin.
      destruct Hin as [Hin | [Hin | []]]; [now apply Hp2 | now apply Hp12]. }
    { cbn. rewrite map_app. intros Hin. apply in_app_or in Hin.
      destruct Hin as [Hin | [Hin | []]]; [| now apply Hd12].
      exact (payments_reference_bookings db _ Hc Hd2 Hin). }
    { cbn. rewrite !map_app. apply in_or_app. right. now left. }
    fold pay2 in Hrun4, Hc4.
    exists [(true, d0); (false, d0); (true, d1); (false, d2); (true, p1); (false, p2)].
    exists b1, b2. subst start.
    serve ltac:(apply resume_check). rewrite Ha.
    serve ltac:(apply resume_check). rewrite Ha.
    serve ltac:(eapply resume_createBooking; exact Hrun1).
    serve ltac:(eapply resume_createBooking; exact Hrun2).
    serve ltac:(eapply resume_createPayment; exact Hrun3).
    serve ltac:(eapply resume_createPayment; exact Hrun4).
    repeat split.
    + cbn. apply in_or_app. left. apply in_or_app. right. now left.
    + cbn. apply in_or_app. right. now left.
    + exact Hd12.
    + now left.
    + now left.
    + now left.
    + exact Hse.
    + cbn. lia.
    + exact Hc4.
  - (* the first request to its end, then the second *)
    destruct (createPayment_runs db1 p1 (Routes.paymentData_of b1 (BookingBody.totalCost body)))
      as [Hrun3 Hc3]; try assumption; try apply Hcolp.
    { exact (payments_reference_bookings db _ Hc Hd1). }
    { cbn. rewrite map_app. apply in_or_app. right. now left. }
    subst start.
    serve ltac:(apply resume_check). rewrite Ha.
    serve ltac:(eapply resume_createBooking; exact Hrun1).
    serve ltac:(eapply resume_createPayment; exact Hrun3).
    serve ltac:(apply resume_check).
    match goal with
    | |- context [(List.length ?l =? 0)%nat] =>
        assert (Hbusy : (List.length l =? 0)%nat = false)
    end.
    { apply (booking_blocks_itself _ b1).
      - cbn. apply in_or_app. right. now left.
      - now left.
      - exact Hse. }
    rewrite Hbusy. reflexivity.
Qed.

Lemma check_then_insert_race_witness :
  exists schedule b1 b2,
    let w := interleave schedule
               (mkTwo june (AtCheckAvailability "bob" body_free)
                           (AtCheckAvailability "carol" body_free)) in
    first_request w = Responded (json (JBooking b1))
    /\ second_request w = Responded (json (JBooking b2))
    /\ In b1 (bookings (store w)) /\ In b2 (bookings (store w))
    /\ Booking.id b1 <> Booking.id b2
    /\ conflicting b1 (Booking.carId b2) (Booking.startDate b2) (Booking.endDate b2).
Proof.
  destruct (check_then_insert_race june "bob" "carol" body_free
              draw_booking2 draw_booking2 draw_booking3 draw_payment2 draw_payment3)
    as [[schedule [b1 [b2 H]]] _].
  - vm_compute. reflexivity.
  - reflexivity.
  - vm_compute. discriminate.
  - simpl. tauto.
  - simpl. tauto.
  - simpl. tauto.
  - simpl. intuition discriminate.
  - simpl. intuition discriminate.
  - simpl. discriminate.
  - simpl. intuition discriminate.
  - simpl. intuition discriminate.
  - simpl. discriminate.
  - reflexivity.
  - reflexivity.
  - reflexivity.
  - reflexivity.
  - reflexivity.
  - exists schedule, b1, b2. cbv zeta in H |- *. tauto.
Defined.

(** The race on the sample data: both requests are answered 200 and the
    table holds two pending bookings of [car-1] from 6 to 7 June. *)
Example race_on_june :
  let w := interleave
             [(true, draw_booking2); (false, draw_booking2);
              (true, draw_booking2); (false, draw_booking3);
              (true, draw_payment2); (false, draw_payment3)]
             (mkTwo june (AtCheckAvailability "bob" body_free)
                         (AtCheckAvailability "carol" body_free)) in
  map (fun b => (Booking.id b, Booking.carId b, Booking.status b,
                 Booking.startDate b, Booking.endDate b))
      (bookings (store w))
  = [("booking-1", "car-1", "confirmed", jun01, jun05);
     ("booking-2", "car-1", "pending", jun06, jun07);
     ("booking-3", "car-1", "pending", jun06, jun07)]
  /\ map Payment.bookingId (payments (store w)) = ["booking-1"; "booking-2"; "booking-3"]
  /\ (exists b1 b2, first_request w = Responded (json (JBooking b1))
                    /\ second_request w = Responded (json (JBooking b2))).
Proof.
  vm_compute. repeat split. eexists. eexists. split; reflexivity.
Qed.

(** ** One payment for each booking *)

(** Rows selected by the value of a key column. *)
Section Keys.

Context {A : Type} (key : A -> varchar).

Lemma filter_key_absent (k : varchar) (l : list A) :
  ~ In k (map key l) -> filter (fun x => eq_ (key x) k) l = [].
Proof.
  induction l as [|a r IH]; [reflexivity |]. simpl. intros Hk.
  destruct (eq_ (key a) k) eqn:E.
  - apply eq_true_iff in E. tauto.
  - apply IH. tauto.
Qed.

Lemma selected_at_most_one (k : varchar) (l : list A) :
  NoDup (map key l) -> (List.length (filter (fun x => eq_ (key x) k) l) <= 1)%nat.
Proof.
  induction l as [|a r IH]; simpl; [lia |]. intros Hnd. inversion Hnd as [|? ? Ha Hr]; subst.
  destruct (eq_ (key a) k) eqn:E.
  - apply eq_true_iff in E. subst k. rewrite filter_key_absent by assumption. simpl. lia.
  - now apply IH.
Qed.

Lemma selected_at_least_one (k : varchar) (l : list A) :
  In k (map key l) <-> (1 <= List.length (filter (fun x => eq_ (key x) k) l))%nat.
Proof.
  split.
  - intros Hk. apply in_map_iff in Hk. destruct Hk as [a [Hka Ha]].
    assert (Hin : In a (filter (fun x => eq_ (key x) k) l)).
    { apply filter_In. split; [assumption | now apply eq_true_iff]. }
    destruct (filter _ l); [destruct Hin | simpl; lia].
  - intros Hlen. destruct (filter (fun x => eq_ (key x) k) l) as [|a r] eqn:F;
      [simpl in Hlen; lia |].
    assert (Hin : In a (filter (fun x => eq_ (key x) k) l)) by (rewrite F; now left).
    apply filter_In in Hin. destruct Hin as [Ha Hk]. apply eq_true_iff in Hk.
    apply in_map_iff. now exists a.
Qed.

Lemma selected_unique (l : list A) (x : A) :
  NoDup (map key l) -> In x l -> filter (fun y => eq_ (key y) (key x)) l = [x].
Proof.
  induction l as [|a r IH]; [intros _ [] |]. simpl. intros Hnd Hx.
  inversion Hnd as [|? ? Ha Hr]; subst. destruct Hx as [-> | Hx].
  - rewrite eq_refl_true. f_equal. now apply filter_key_absent.
  - destruct (eq_ (key a) (key x)) eqn:E; [| now apply IH].
    apply eq_true_iff in E. exfalso. apply Ha. rewrite E. now apply in_map.
Qed.

End Keys.

Lemma consistent_at_most_one (db : DB) : consistent db -> at_most_one_payment_each db.
Proof.
  intros Hc b _. apply consistent_iff in Hc. unfold payments_of.
  apply selected_at_most_one, (payment_bookings db Hc).
Qed.

Lemma pairing_iff (db : DB) : consistent db -> (one_payment_each db <-> paired db).
Proof.
  intros Hc. unfold one_payment_each, paired, incl. split.
  - intros H k Hk. apply in_map_iff in Hk. destruct Hk as [b [<- Hb]].
    apply (selected_at_least_one Payment.bookingId).
    fold (payments_of db (Booking.id b)). rewrite (H b Hb). lia.
  - intros H b Hb.
    pose proof (consistent_at_most_one db Hc b Hb) as Hle.
    assert (Hge : (1 <= List.length (payments_of db (Booking.id b)))%nat).
    { apply (selected_at_least_one Payment.bookingId), H, in_map, Hb. }
    lia.
Qed.

(** *** Rows under [update] *)

Lemma update_where_In {A} (w : A -> bool) (f : A -> A) (l : list A) (y : A) :
  In y (update_where w f l)
  <-> (In y l /\ w y = false) \/ (exists x, In x l /\ w x = true /\ y = f x).
Proof.
  unfold update_where, updated_rows. rewrite in_app_iff, filter_In, in_map_iff.
  rewrite negb_true_iff. split.
  - intros [H | [x [<- Hx]]]; [now left | right].
    apply filter_In in Hx. destruct Hx. now exists x.
  - intros [H | [x [Hx [Hw ->]]]]; [now left | right].
    exists x. split; [reflexivity |]. now apply filter_In.
Qed.

Lemma filter_complement_length {A} (w : A -> bool) (l : list A) :
  (List.length (filter (fun r => negb (w r)) l) + List.length (filter w l))%nat
  = List.length l.
Proof.
  induction l as [|x r IH]; [reflexivity |]. simpl.
  destruct (w x); simpl; lia.
Qed.

Lemma update_where_length {A} (w : A -> bool) (f : A -> A) (l : list A) :
  List.length (update_where w f l) = List.length l.
Proof.
  unfold update_where, updated_rows. rewrite length_app, length_map.
  apply filter_complement_length.
Qed.

Lemma filter_complement_permutation {A} (w : A -> bool) (l : list A) :
  Permutation (filter (fun r => negb (w r)) l ++ filter w l) l.
Proof.
  induction l as [|x r IH]; [reflexivity |]. simpl.
  destruct (w x); simpl.
  - rewrite <- Permutation_middle. now constructor.
  - now constructor.
Qed.

(** An update that leaves a column alone leaves the values of the column
    what they were, in another order. *)
Lemma update_where_keys {A B} (key : A -> B) (w : A -> bool) (f : A -> A) (l : list A) :
  (forall x, key (f x) = key x) ->
  Permutation (map key (update_where w f l)) (map key l).
Proof.
  intros Hf. unfold update_where, updated_rows.
  rewrite map_app, map_map.
  rewrite (map_ext (fun x => key (f x)) key Hf). rewrite <- map_app.
  apply Permutation_map, filter_complement_permutation.
Qed.

Lemma update_where_Forall {A} (P : A -> Prop) (w : A -> bool) (f : A -> A) (l : list A) :
  Forall P l -> (forall x, In x l -> w x = true -> P (f x)) -> Forall P (update_where w f l).
Proof.
  intros Hl Hf. apply Forall_forall. intros y Hy. rewrite Forall_forall in Hl.
  apply update_where_In in Hy. destruct Hy as [[Hy _] | [x [Hx [Hw ->]]]]; auto.
Qed.

Lemma filter_nothing {A} (w : A -> bool) (l : list A) :
  (forall x, In x l -> w x = false) -> filter w l = [].
Proof.
  intros H. induction l as [|x r IH]; [reflexivity |]. simpl.
  rewrite (H x) by now left. apply IH. intros y Hy. apply H. now right.
Qed.

Lemma filter_everything {A} (w : A -> bool) (l : list A) :
  (forall x, In x l -> w x = true) -> filter w l = l.
Proof.
  intros H. induction l as [|x r IH]; [reflexivity |]. simpl.
  rewrite (H x) by now left. f_equal. apply IH. intros y Hy. apply H. now right.
Qed.

Lemma update_where_absent {A} (key : A -> varchar) (k : varchar) (f : A -> A)
      (l : list A) :
  ~ In k (map key l) -> update_where (fun y => eq_ (key y) k) f l = l.
Proof.
  intros Hk.
  assert (Hno : forall x, In x l -> eq_ (key x) k = false).
  { intros x Hx. apply eq_false_iff. intros <-. apply Hk. now apply in_map. }
  unfold update_where, updated_rows. rewrite (filter_nothing _ l Hno). cbn [map].
  rewrite app_nil_r. apply filter_everything. intros x Hx. now rewrite Hno.
Qed.

(** The one row of a key, rewritten: its new version comes last. *)
Lemma update_where_split {A} (key : A -> varchar) (f : A -> A) (l : list A) (x : A) :
  NoDup (map key l) -> In x l ->
  exists l1 l2,
    l = l1 ++ x :: l2
    /\ update_where (fun y => eq_ (key y) (key x)) f l = l1 ++ l2 ++ [f x]
    /\ updated_rows (fun y => eq_ (key y) (key x)) f l = [f x].
Proof.
  intros Hnd Hx. destruct (in_split x l Hx) as [l1 [l2 ->]]. exists l1, l2.
  rewrite map_app in Hnd. cbn [map] in Hnd.
  pose proof (NoDup_remove_2 _ _ _ Hnd) as Hout.
  assert (H1 : forall y, In y l1 -> eq_ (key y) (key x) = false).
  { intros y Hy. apply eq_false_iff. intros He. apply Hout.
    apply in_or_app. left. rewrite <- He. now apply in_map. }
  assert (H2 : forall y, In y l2 -> eq_ (key y) (key x) = false).
  { intros y Hy. apply eq_false_iff. intros He. apply Hout.
    apply in_or_app. right. rewrite <- He. now apply in_map. }
  assert (Hsel : filter (fun y => eq_ (key y) (key x)) (l1 ++ x :: l2) = [x]).
  { rewrite filter_app. cbn [filter]. rewrite eq_refl_true.
    now rewrite (filter_nothing _ l1 H1), (filter_nothing _ l2 H2). }
  split; [reflexivity |]. unfold update_where, updated_rows. rewrite Hsel. cbn [map].
  split; [| reflexivity].
  rewrite filter_app. cbn [filter]. rewrite eq_refl_true. cbn [negb].
  rewrite !filter_everything; [now rewrite <- app_assoc | |];
    intros y Hy; [rewrite (H2 y Hy) | rewrite (H1 y Hy)]; reflexivity.
Qed.

Lemma filter_update_where {A} (w : A -> bool) (f : A -> A) (l : list A) :
  (forall x, w (f x) = w x) -> filter w (update_where w f l) = map f (filter w l).
Proof.
  intros Hw. unfold update_where, updated_rows. rewrite filter_app.
  rewrite filter_nothing.
  - apply filter_everything. intros y Hy. apply in_map_iff in Hy.
    destruct Hy as [x [<- Hx]]. apply filter_In in Hx. now rewrite Hw.
  - intros x Hx. apply filter_In in Hx. destruct Hx as [_ Hx].
    now apply negb_true_iff in Hx.
Qed.

(** *** Every statement keeps the schema constraints *)

(** One statement: it runs, and the constraints hold after it, or it
    throws and the database is what it was. *)
Ltac by_statement d db :=
  unfold after; cbv beta zeta;
  match goal with
  | |- context [statement d ?n ?r db] =>
      let Hc := fresh "Hc" in
      let m := fresh "m" in
      destruct (statement_cases d n r db) as [[-> [_ Hc]] | [m ->]]; cbn [snd fst]
  end.

Lemma upsertUser_consistent (d : Draw) (userData : UpsertUser.t) (db : DB) :
  consistent db -> consistent (after (Storage.upsertUser d userData) db).
Proof.
  intros H. unfold Storage.upsertUser, after. cbv beta zeta.
  destruct (first_row _); by_statement d db; assumption.
Qed.

Lemma updateCar_after (d : Draw) (id : varchar) (carData : PartialCar.t) (db : DB) :
  after (Storage.updateCar d id carData) db = db
  \/ (after (Storage.updateCar d id carData) db
      = with_cars db (update_where (fun c => eq_ (Car.id c) id)
                                   (fun c => patch_car c carData (now d)) (cars db))
      /\ consistent (after (Storage.updateCar d id carData) db)).
Proof.
  unfold Storage.updateCar, after.
  destruct (PartialCar.createdAt carData) as [[|] |]; cbv beta zeta;
    try (left; reflexivity);
    by_statement d db; [right; split; [reflexivity | assumption] | now left
                        | right; split; [reflexivity | assumption] | now left].
Qed.

Lemma write_consistent (x : Write) (db : DB) : consistent db -> consistent (write x db).
Proof.
  intros H. destruct x; cbn [write].
  - now apply upsertUser_consistent.
  - unfold Storage.createCar. by_statement d db; assumption.
  - destruct (updateCar_after d id carData db) as [-> | [_ Hc]]; assumption.
  - unfold Storage.deleteCar. by_statement d db; assumption.
  - unfold Storage.updateBooking. by_statement d db; assumption.
  - unfold Storage.updatePayment. by_statement d db; assumption.
  - unfold Storage.createReview. by_statement d db; assumption.
  - unfold Storage.updateReview. by_statement d db; assumption.
Qed.

Lemma resume_consistent (d : Draw) (r : InFlight) (db : DB) :
  consistent db -> consistent (snd (resume d r db)).
Proof.
  intros H. destruct r as [userId body | userId body | body booking | response];
    cbn [resume].
  - rewrite checkAvailability_runs. now destruct (negb _).
  - unfold Storage.createBooking. by_statement d db; assumption.
  - unfold Storage.createPayment. by_statement d db; assumption.
  - assumption.
Qed.

Lemma happens_consistent (e : Event) (w : World) :
  consistent (database w) -> consistent (database (happens e w)).
Proof.
  intros H. destruct e as [userId body | n d | x]; cbn [happens database].
  - assumption.
  - destruct (nth_error (requests w) n) as [r |]; [| assumption].
    pose proof (resume_consistent d r (database w) H) as Hc.
    now destruct (resume d r (database w)).
  - now apply write_consistent.
Qed.

Lemma run_consistent (events : list Event) (w : World) :
  consistent (database w) -> consistent (database (run events w)).
Proof.
  revert w. induction events as [|e rest IH]; intros w H; [assumption |].
  cbn. apply IH. now apply happens_consistent.
Qed.

(** Every state the engine reaches from the empty database satisfies the
    schema constraints, whatever the interleaving. *)
Lemma reachable_consistent (events : list Event) :
  consistent (database (run events (mkWorld emptyDB [] 0))).
Proof. apply run_consistent. reflexivity. Qed.

(** *** Counting bookings and payments *)

Lemma NoDup_map_injective {A B} (f : A -> B) (l : list A) (x y : A) :
  NoDup (map f l) -> In x l -> In y l -> f x = f y -> x = y.
Proof.
  induction l as [|a r IH]; [intros _ [] |]. simpl. intros Hnd Hx Hy Hf.
  inversion Hnd as [|? ? Ha Hr]; subst.
  destruct Hx as [-> | Hx], Hy as [-> | Hy]; auto.
  - exfalso. apply Ha. rewrite Hf. now apply in_map.
  - exfalso. apply Ha. rewrite <- Hf. now apply in_map.
Qed.

Lemma NoDup_filter_map {A} (key : A -> varchar) (keep_row : A -> bool) (l : list A) :
  NoDup (map key l) -> NoDup (map key (filter keep_row l)).
Proof.
  induction l as [|a r IH]; [constructor |]. simpl. intros Hnd.
  inversion Hnd as [|? ? Ha Hr]; subst. destruct (keep_row a); [| now apply IH].
  simpl. constructor; [| now apply IH].
  intros Hin. apply Ha. apply in_map_iff in Hin. destruct Hin as [x [Hk Hx]].
  apply filter_In in Hx. rewrite <- Hk. now apply in_map.
Qed.

(** The payments are as many as the bookings that have one. *)
Lemma payments_count (db : DB) :
  consistent db ->
  (List.length (unpaid db) + List.length (payments db))%nat = List.length (bookings db).
Proof.
  intros Hc. apply consistent_iff in Hc.
  pose proof (booking_ids db Hc) as Hb. pose proof (payment_bookings db Hc) as Hp.
  pose proof (payment_booking db Hc) as Hfk. rewrite Forall_forall in Hfk.
  unfold unpaid.
  rewrite <- (filter_complement_length
                (fun b => negb (refers (map Payment.bookingId (payments db)) (Booking.id b)))
                (bookings db)).
  rewrite Nat.add_comm. f_equal.
  rewrite <- (length_map Payment.bookingId (payments db)).
  rewrite <- (length_map Booking.id (filter _ (bookings db))).
  apply Permutation_length, NoDup_Permutation.
  - assumption.
  - now apply NoDup_filter_map.
  - intros k. rewrite !in_map_iff. split.
    + intros [p [<- Hin]]. specialize (Hfk p Hin).
      apply in_map_iff in Hfk. destruct Hfk as [b [Hid Hbin]].
      exists b. split; [assumption |]. apply filter_In. split; [assumption |].
      rewrite negb_involutive. apply refers_In. rewrite Hid. now apply in_map.
    + intros [b [<- Hin]]. apply filter_In in Hin. destruct Hin as [_ Hin].
      rewrite negb_involutive in Hin. apply refers_In, in_map_iff in Hin. exact Hin.
Qed.

Lemma unpaid_none (db : DB) :
  consistent db -> List.length (unpaid db) = 0%nat -> one_payment_each db.
Proof.
  intros Hc Hn. apply pairing_iff; [assumption |]. intros k Hk.
  apply in_map_iff in Hk. destruct Hk as [b [<- Hb]].
  apply refers_In. destruct (refers _ (Booking.id b)) eqn:E; [reflexivity | exfalso].
  assert (Hin : In b (unpaid db)) by (apply filter_In; now rewrite E).
  destruct (unpaid db); [destruct Hin | discriminate].
Qed.

Lemma unpaid_payments_of (db : DB) (b : Booking.t) :
  In b (unpaid db) <-> In b (bookings db) /\ payments_of db (Booking.id b) = [].
Proof.
  unfold unpaid, payments_of. rewrite filter_In, negb_true_iff, refers_not_In.
  split; intros [Hb H]; (split; [assumption |]).
  - now apply filter_key_absent.
  - intros Hin. apply (selected_at_least_one Payment.bookingId) in Hin.
    rewrite H in Hin. simpl in Hin. lia.
Qed.

Lemma deficit_same (db db' : DB) :
  List.length (bookings db') = List.length (bookings db) ->
  List.length (payments db') = List.length (payments db) ->
  deficit_grows_not db db'.
Proof. unfold deficit_grows_not. lia. Qed.

Lemma filter_pair_length {A} (w : A -> bool) (l : list A) :
  List.length l
  = (List.length (filter w l) + List.length (filter (fun r => negb (w r)) l))%nat.
Proof. rewrite <- (filter_complement_length w l). lia. Qed.

(** A cascading delete takes away no more payments than bookings. *)
Lemma deficit_delete_car_cascade (id : varchar) (db : DB) :
  consistent db -> deficit_grows_not db (delete_car_cascade id db).
Proof.
  intros Hc. unfold delete_car_cascade, deficit_grows_not.
  destruct (refers (map Car.id (cars db)) id); [| lia].
  cbn [bookings payments]. apply consistent_iff in Hc.
  set (gone := filter (fun b => eq_ (Booking.carId b) id) (bookings db)).
  set (lost := filter (fun p => refers (map Booking.id gone) (Payment.bookingId p))
                      (payments db)).
  assert (Hle : (List.length lost <= List.length gone)%nat).
  { rewrite <- (length_map Payment.bookingId lost), <- (length_map Booking.id gone).
    apply NoDup_incl_length.
    - apply NoDup_filter_map, (payment_bookings db Hc).
    - intros k Hk. apply in_map_iff in Hk. destruct Hk as [p [<- Hp]].
      apply filter_In in Hp. destruct Hp as [_ Hp]. now apply refers_In in Hp. }
  rewrite (filter_pair_length (fun b => eq_ (Booking.carId b) id) (bookings db)).
  rewrite (filter_pair_length
             (fun p => refers (map Booking.id gone) (Payment.bookingId p)) (payments db)).
  fold gone lost. lia.
Qed.

Lemma write_deficit (x : Write) (db : DB) :
  consistent db -> deficit_grows_not db (write x db).
Proof.
  intros Hc. destruct x; cbn [write].
  - unfold Storage.upsertUser, after. cbv beta zeta.
    destruct (first_row _); by_statement d db; now apply deficit_same.
  - unfold Storage.createCar. by_statement d db; now apply deficit_same.
  - destruct (updateCar_after d id carData db) as [-> | [-> _]]; now apply deficit_same.
  - unfold Storage.deleteCar.
    by_statement d db; [now apply deficit_delete_car_cascade | now apply deficit_same].
  - unfold Storage.updateBooking.
    by_statement d db; apply deficit_same; cbn; now rewrite ?update_where_length.
  - unfold Storage.updatePayment.
    by_statement d db; apply deficit_same; cbn; now rewrite ?update_where_length.
  - unfold Storage.createReview. by_statement d db; now apply deficit_same.
  - unfold Storage.updateReview. by_statement d db; now apply deficit_same.
Qed.

(** *** The invariant of the engine *)

Lemma between_inserts_replace (n : nat) (r r' : InFlight) (l : list InFlight) :
  nth_error l n = Some r ->
  (List.length (filter awaits_payment (replace_nth n r' l))
   + (if awaits_payment r then 1 else 0)
   = List.length (filter awaits_payment l) + (if awaits_payment r' then 1 else 0))%nat.
Proof.
  revert n. induction l as [|x rest IH]; intros [|k] H; try discriminate.
  - injection H as ->. cbn [replace_nth filter].
    destruct (awaits_payment r), (awaits_payment r'); cbn [List.length]; lia.
  - cbn [replace_nth filter]. specialize (IH k H).
    destruct (awaits_payment x); cbn [List.length]; lia.
Qed.

Lemma happens_accounted (e : Event) (w : World) :
  consistent (database w) -> accounted w -> accounted (happens e w).
Proof.
  intros Hc Ha. unfold accounted, between_inserts in *.
  destruct e as [userId body | n d | x]; cbn [happens].
  - cbn [database requests refused_payments]. rewrite filter_app. cbn [filter awaits_payment].
    now rewrite app_nil_r.
  - destruct (nth_error (requests w) n) as [r |] eqn:Hn; [| assumption].
    pose proof (between_inserts_replace n r) as Hcount.
    destruct r as [userId body | userId body | body booking | response]; cbn [resume].
    + rewrite checkAvailability_runs. destruct (negb _);
        cbn [database requests refused_payments payment_refused];
        match goal with
        | |- context [replace_nth n ?r' _] => specialize (Hcount r' _ Hn)
        end; cbn [awaits_payment] in Hcount; lia.
    + unfold Storage.createBooking.
      match goal with
      | |- context [statement d ?n ?r] =>
          destruct (statement_cases d n r (database w)) as [[-> _] | [m ->]]
      end; cbn [database requests refused_payments payment_refused];
        match goal with
        | |- context [replace_nth n ?r' _] => specialize (Hcount r' _ Hn)
        end; cbn [awaits_payment] in Hcount;
        cbn [with_bookings bookings payments]; rewrite ?length_app; cbn [List.length]; lia.
    + unfold Storage.createPayment.
      match goal with
      | |- context [statement d ?n ?r] =>
          destruct (statement_cases d n r (database w)) as [[-> _] | [m ->]]
      end; cbn [database requests refused_payments payment_refused json failed_booking
                status_json Response.status Nat.eqb negb];
        match goal with
        | |- context [replace_nth n ?r' _] => specialize (Hcount r' _ Hn)
        end; cbn [awaits_payment] in Hcount;
        cbn [with_payments bookings payments]; rewrite ?length_app; cbn [List.length]; lia.
    + cbn [database requests refused_payments payment_refused].
      specialize (Hcount (Responded response) _ Hn). cbn [awaits_payment] in Hcount. lia.
  - cbn [database requests refused_payments].
    pose proof (write_deficit x (database w) Hc) as Hd. unfold deficit_grows_not in Hd. lia.
Qed.

Lemma run_accounted (events : list Event) (w : World) :
  consistent (database w) -> accounted w -> accounted (run events w).
Proof.
  revert w. induction events as [|e rest IH]; intros w Hc Ha; [assumption |].
  cbn. apply IH; [now apply happens_consistent | now apply happens_accounted].
Qed.

(** A request served without interruption is the handler. *)
Lemma served_alone (d0 d1 d2 : Draw) (userId : varchar) (body : BookingBody.t) (db : DB) :
  database (run [Arrives userId body; Resumes 0 d0; Resumes 0 d1; Resumes 0 d2]
                (mkWorld db [] 0))
  = after (Routes.post_api_bookings d1 d2 userId body) db.
Proof.
  unfold after. rewrite post_api_bookings_runs.
  cbn [run fold_left happens database requests refused_payments app nth_error resume].
  rewrite checkAvailability_runs.
  destruct (List.length _ =? 0)%nat; cbn [negb]; [| reflexivity].
  cbn [database requests replace_nth nth_error resume].
  destruct (Storage.createBooking d1 _ db) as [[booking | message] db1];
    cbn [database requests replace_nth nth_error resume]; [| reflexivity].
  destruct (Storage.createPayment d2 _ db1) as [[payment | message] db2]; reflexivity.
Qed.

(** Between its two inserts a request has its booking in the table, and no
    payment for it. *)
Lemma booking_seen_unpaid (d : Draw) (userId : varchar) (body : BookingBody.t)
      (booking : Booking.t) (db db' : DB) :
  consistent db ->
  resume d (AtCreateBooking userId body) db = (AtCreatePayment body booking, db') ->
  In booking (bookings db') /\ payments_of db' (Booking.id booking) = [].
Proof.
  intros Hc. cbn [resume]. unfold Storage.createBooking.
  match goal with
  | |- context [statement d ?n ?r] =>
      destruct (statement_cases d n r db) as [[-> [_ Hc1]] | [m ->]]
  end; [| discriminate].
  intros [= <- <-]. split.
  - cbn. apply in_or_app. right. now left.
  - apply payments_of_absent. cbn [with_bookings payments].
    apply payments_reference_bookings; [assumption |].
    apply consistent_iff in Hc1. pose proof (booking_ids _ Hc1) as Hnd.
    cbn [with_bookings bookings] in Hnd. rewrite map_app in Hnd.
    apply NoDup_remove_2 in Hnd. now rewrite app_nil_r in Hnd.
Qed.

(** C3 (amended). Requests are served await by await, in any interleaving
    with one another and with the other writes of the engine. From a state
    that satisfies the schema constraints and pairs every booking with one
    payment, every state reached satisfies the constraints, has at most one
    payment for each booking, and every payment belongs to a booking. A
    booking can be in the table without a payment: a request between its
    booking insert and its payment insert shows one, and nothing deletes it
    when the payment insert is refused. The bookings without a payment are
    never more than the requests between their two inserts plus the payment
    inserts refused so far; so when no request is between its inserts and
    no payment insert was refused, every booking has exactly one payment. *)
Theorem booking_payment_pairing :
  forall (events : list Event) (db : DB),
    consistent db ->
    one_payment_each db ->
    let w := run events (mkWorld db [] 0) in
    consistent (database w)
    /\ at_most_one_payment_each (database w)
    /\ (forall p, In p (payments (database w)) ->
          exists b, In b (bookings (database w))
                    /\ Booking.id b = Payment.bookingId p)
    /\ (forall b, In b (unpaid (database w))
                  <-> In b (bookings (database w))
                      /\ payments_of (database w) (Booking.id b) = [])
    /\ (List.length (unpaid (database w)) <= between_inserts w + refused_payments w)%nat
    /\ (between_inserts w = 0%nat -> refused_payments w = 0%nat ->
        one_payment_each (database w))
    /\ (forall d userId body booking db',
          resume d (AtCreateBooking userId body) (database w)
          = (AtCreatePayment body booking, db') ->
          In booking (bookings db') /\ payments_of db' (Booking.id booking) = []).
Proof.
  intros events db Hc Hone w.
  assert (Hc' : consistent (database w)) by now apply run_consistent.
  assert (Ha : accounted w).
  { apply run_accounted; [assumption |]. unfold accounted, between_inserts. cbn.
    pose proof (payments_count db Hc) as Hn.
    assert (Hu : unpaid db = []).
    { apply filter_nothing. intros b Hb. apply negb_false_iff, refers_In.
      apply (pairing_iff db Hc) in Hone. apply Hone. now apply in_map. }
    rewrite Hu in Hn. cbn in Hn. lia. }
  pose proof (payments_count (database w) Hc') as Hn. unfold accounted in Ha.
  split; [assumption |]. split; [now apply consistent_at_most_one |].
  split; [| split; [apply unpaid_payments_of | split; [lia | split]]].
  - intros p Hp. apply consistent_iff in Hc'.
    pose proof (payment_booking _ Hc') as Hfk. rewrite Forall_forall in Hfk.
    specialize (Hfk p Hp). apply in_map_iff in Hfk. destruct Hfk as [b [Hid Hb]].
    now exists b.
  - intros H0 H1. apply unpaid_none; [assumption | lia].
  - intros d userId body booking db'. now apply booking_seen_unpaid.
Qed.

Lemma june_consistent : consistent june.
Proof. vm_compute. reflexivity. Qed.

Lemma june_one_payment_each : one_payment_each june.
Proof. intros b [<- | []]. reflexivity. Qed.

Lemma booking_payment_pairing_witness :
  one_payment_each
    (database
       (run [Arrives "bob" body_free; Writes (WDeleteCar draw_booking3 "car-2");
             Resumes 0 draw_booking2; Resumes 0 draw_booking2; Resumes 0 draw_payment2]
            (mkWorld june [] 0))).
Proof.
  apply (booking_payment_pairing
           [Arrives "bob" body_free; Writes (WDeleteCar draw_booking3 "car-2");
            Resumes 0 draw_booking2; Resumes 0 draw_booking2; Resumes 0 draw_payment2]
           june).
  - vm_compute. reflexivity.
  - intros b [<- | []]. reflexivity.
  - reflexivity.
  - reflexivity.
Defined.

(** The payment insert finds the connection gone: the request is answered
    400, and the booking it had inserted stays, with no payment. *)
Example lost_payment_on_june :
  exists db',
    Routes.post_api_bookings draw_booking2 draw_payment_lost "bob" body_free june
    = (Ok (status_json 400 (JMessage "connection terminated")), db')
    /\ map Booking.id (bookings db') = ["booking-1"; "booking-2"]
    /\ payments_of db' "booking-2" = []
    /\ payments db' = payments june.
Proof. eexists. vm_compute. repeat split. Qed.

(** C3, as stated, fails: when the payment insert is refused, the booking
    inserted just before stays visible without a payment; nothing deletes
    it. *)
Lemma booking_left_without_payment :
  ~ (forall (events : list Event) (db : DB),
       consistent db -> one_payment_each db ->
       one_payment_each (database (run events (mkWorld db [] 0)))).
Proof.
  intros H.
  specialize (H [Arrives "bob" body_free; Resumes 0 draw_booking2;
                 Resumes 0 draw_booking2; Resumes 0 draw_payment_lost]
                june june_consistent june_one_payment_each).
  specialize (H (new_booking draw_booking2 (Routes.bookingData_of "bob" body_free))).
  vm_compute in H.
  assert (Hn : 0%nat = 1%nat) by (apply H; right; left; reflexivity).
  discriminate Hn.
Qed.

(** ** Reading computations *)

Lemma reads_ret {A} (a : A) : reads (ret a) (fun _ => a).
Proof. now intros db. Qed.

Lemma reads_select {A} (q : DB -> A) : reads (select q) q.
Proof. now intros db. Qed.

Lemma reads_bind {A B} (m : Store A) (k : A -> Store B) (q : DB -> A)
      (qk : A -> DB -> B) :
  reads m q -> (forall a, reads (k a) (qk a)) ->
  reads (x <- m ;; k x) (fun db => qk (q db) db).
Proof. intros Hm Hk db. unfold bind. now rewrite Hm, Hk. Qed.

Lemma reads_try_catch {A} (m : Store A) (h : string -> Store A) (q : DB -> A) :
  reads m q -> reads (try_catch m h) q.
Proof. intros Hm db. unfold try_catch. now rewrite Hm. Qed.

Lemma reads_promise_all_map {A B} (f : A -> Store B) (g : A -> DB -> B) (l : list A) :
  (forall x, reads (f x) (g x)) ->
  reads (promise_all_map f l) (fun db => map (fun x => g x db) l).
Proof.
  intros Hf db. induction l as [|x r IH]; [reflexivity |].
  cbn [promise_all_map map]. unfold bind. rewrite Hf, IH. reflexivity.
Qed.

Lemma reads_for_of {A S} (body : S -> A -> Store S) (q : S -> A -> DB -> S)
      (l : list A) (s : S) :
  (forall s x, reads (body s x) (q s x)) ->
  reads (for_of l body s) (fun db => fold_left (fun s x => q s x db) l s).
Proof.
  intros Hb db. revert s. induction l as [|x r IH]; intros s; [reflexivity |].
  cbn [for_of fold_left]. unfold bind. rewrite Hb. apply IH.
Qed.

(** ** Ordering and sums *)

Lemma insert_desc_permutation {A} (key : A -> timestamp) (x : A) (l : list A) :
  Permutation (insert_desc key x l) (x :: l).
Proof.
  induction l as [|y r IH]; [reflexivity |]. simpl.
  destruct (key y <=? key x); [reflexivity |].
  rewrite IH. apply perm_swap.
Qed.

Lemma orderBy_desc_permutation {A} (key : A -> timestamp) (l : list A) :
  Permutation (orderBy_desc key l) l.
Proof.
  induction l as [|x r IH]; [reflexivity |].
  unfold orderBy_desc in *. simpl. rewrite insert_desc_permutation. now constructor.
Qed.

Lemma total_app (l1 l2 : list integer) : total (l1 ++ l2) = total l1 + total l2.
Proof. induction l1 as [|a r IH]; simpl; [reflexivity | rewrite IH; lia]. Qed.

Lemma total_permutation (l1 l2 : list integer) :
  Permutation l1 l2 -> total l1 = total l2.
Proof. induction 1; simpl; lia. Qed.

Lemma reduce_sum_from {A} (value : A -> number) (rows : list A) (acc : number) :
  fold_left (fun sum r => add sum (value r)) rows acc = fold_left add (map value rows) acc.
Proof. revert acc. induction rows as [|x r IH]; intros acc; simpl; auto. Qed.

Lemma reduce_sum_map {A} (value : A -> number) (rows : list A) :
  reduce_sum value rows = sum_doubles (map value rows).
Proof. apply reduce_sum_from. Qed.

Lemma exact_mean_nonempty (l : list integer) :
  l <> [] ->
  exact_mean l = (inject_Z (total l) / inject_Z (Z.of_nat (List.length l)))%Q.
Proof. now destruct l. Qed.

Lemma exact_mean_bounds (l : list integer) :
  l <> [] -> Forall (fun r => 1 <= r <= 5) l -> (1 <= exact_mean l /\ exact_mean l <= 5)%Q.
Proof.
  intros Hne Hl. rewrite (exact_mean_nonempty l Hne).
  assert (Hn : 0 < Z.of_nat (List.length l)) by (destruct l; [contradiction | simpl; lia]).
  assert (Ht : Z.of_nat (List.length l) <= total l <= 5 * Z.of_nat (List.length l)).
  { clear Hne Hn. induction Hl as [|x l' Hx Hl' IH]; simpl total; simpl List.length; lia. }
  assert (HnQ : (0 < inject_Z (Z.of_nat (List.length l)))%Q)
    by (change 0%Q with (inject_Z 0); rewrite <- Zlt_Qlt; exact Hn).
  split.
  - apply Qle_shift_div_l; [assumption |]. rewrite Qmult_1_l.
    rewrite <- Zle_Qle. lia.
  - apply Qle_shift_div_r; [assumption |].
    change 5%Q with (inject_Z 5). rewrite <- inject_Z_mult, <- Zle_Qle. lia.
Qed.

Lemma exact_mean_permutation (l1 l2 : list integer) :
  Permutation l1 l2 -> exact_mean l1 = exact_mean l2.
Proof.
  intros H. destruct l1 as [|a r] eqn:E1.
  - apply Permutation_nil in H. now subst.
  - destruct l2 as [|b s] eqn:E2; [apply Permutation_sym, Permutation_nil in H; discriminate |].
    rewrite <- E1, <- E2 in *.
    rewrite !exact_mean_nonempty by (subst; discriminate).
    now rewrite (total_permutation _ _ H), (Permutation_length H).
Qed.

Lemma summable_permutation (l1 l2 : list integer) :
  Permutation l1 l2 -> summable l1 -> summable l2.
Proof.
  intros H [Hn Hall]. split.
  - now rewrite <- (Permutation_length H).
  - now apply (Permutation_Forall H).
Qed.

(** The ratings of any selection of stored reviews sum exactly, as long as
    the table has no more than [2^22] rows. *)
Lemma ratings_summable (db : DB) (keep_row : Review.t -> bool) :
  consistent db ->
  Z.of_nat (List.length (reviews db)) <= 4194304 ->
  summable (map Review.rating (filter keep_row (reviews db))).
Proof.
  intros Hc Hn. apply consistent_iff in Hc. pose proof (review_columns_ok db Hc) as Hcol.
  split.
  - rewrite length_map. pose proof (filter_length_le keep_row (reviews db)). lia.
  - apply Forall_forall. intros r Hr. apply in_map_iff in Hr.
    destruct Hr as [x [<- Hx]]. apply filter_In in Hx. rewrite Forall_forall in Hcol.
    now apply Hcol.
Qed.

(** The mean is the double nearest to the arithmetic mean, in whatever
    order the ratings are added. *)
Lemma mean_of_permutation (l1 l2 : list integer) :
  Permutation l1 l2 -> summable l2 -> mean l1 = to_double (exact_mean l2).
Proof.
  intros H Hs. rewrite <- (exact_mean_permutation _ _ H). apply mean_exact.
  now apply (summable_permutation l2 l1); [apply Permutation_sym |].
Qed.

(** A mean that is a whole number comes out exact. *)
Lemma to_double_whole (q : Q) (z : Z) :
  (q == inject_Z z)%Q -> Z.abs z <= 2 ^ 53 -> to_double q = Finite (inject_Z z).
Proof. intros -> Hz. now apply to_double_integer. Qed.

(** The mean of ratings between 1 and 5, rounded, is between 1 and 5 and
    within one part in [2^53] of the arithmetic mean. *)
Lemma to_double_rating (l : list integer) :
  l <> [] -> Forall (fun r => 1 <= r <= 5) l ->
  exists q,
    to_double (exact_mean l) = Finite q
    /\ (1 <= q)%Q /\ (q <= 5)%Q
    /\ (Qabs (q - exact_mean l) * Qpower 2 53 <= exact_mean l)%Q.
Proof.
  intros Hne Hl. destruct (exact_mean_bounds l Hne Hl) as [H1 H5].
  destruct (to_double_between 1 5 (exact_mean l)) as [q [Hq [Hq1 Hq5]]];
    [lia | change (2 ^ 52) with 4503599627370496; lia | exact H1 | exact H5 |].
  destruct (to_double_close (exact_mean l)) as [q' [Hq' Hclose]]; [exact H1 | |].
  { apply Qle_trans with 5%Q; [exact H5 |]. rewrite pow2_integer by lia.
    change 5%Q with (inject_Z 5). rewrite <- Zle_Qle.
    change (2 ^ 52) with 4503599627370496. lia. }
  exists q. rewrite Hq in Hq'. injection Hq' as <-. now repeat split.
Qed.

Lemma filter_disjoint_permutation {A} (p q : A -> bool) (l : list A) :
  (forall x, In x l -> p x = true -> q x = false) ->
  Permutation (filter p l ++ filter q l) (filter (fun x => p x || q x) l).
Proof.
  induction l as [|x r IH]; intros Hd; [reflexivity |]. simpl.
  assert (IH' : Permutation (filter p r ++ filter q r) (filter (fun x => p x || q x) r)).
  { apply IH. intros y Hy. apply Hd. now right. }
  destruct (p x) eqn:Hp; simpl.
  - rewrite (Hd x (or_introl Logic.eq_refl) Hp). now constructor.
  - destruct (q x); [| assumption].
    rewrite <- Permutation_middle. now constructor.
Qed.

(** Collecting the rows key by key, over distinct keys, is selecting the rows
    whose key is one of them. *)
Lemma grouped_permutation {A} (key : A -> varchar) (post : list A -> list A)
      (ids : list varchar) (rows : list A) :
  (forall l, Permutation (post l) l) ->
  NoDup ids ->
  Permutation
    (flat_map (fun id => post (filter (fun r => eq_ (key r) id) rows)) ids)
    (filter (fun r => refers ids (key r)) rows).
Proof.
  intros Hpost. induction 1 as [|id ids' Hid Hnd IH]; simpl.
  - induction rows as [|r rest IHr]; [reflexivity | exact IHr].
  - rewrite Hpost, IH. apply filter_disjoint_permutation.
    intros r _ Hr. apply eq_true_iff in Hr. apply refers_not_In. now rewrite Hr.
Qed.

Lemma flat_map_collect {A B} (g : A -> list B) (l : list A) (acc : list B) :
  fold_left (fun acc x => acc ++ g x) l acc = acc ++ flat_map g l.
Proof.
  revert acc. induction l as [|x r IH]; intros acc; simpl.
  - now rewrite app_nil_r.
  - now rewrite IH, app_assoc.
Qed.

Lemma selected_keys_distinct {A} (key : A -> varchar) (keep : A -> bool) (rows : list A) :
  NoDup (map key rows) -> NoDup (map key (filter keep rows)).
Proof.
  intros Hnd. induction rows as [|a r IH]; simpl in *; [constructor |].
  inversion Hnd as [|? ? Ha Hr]; subst. destruct (keep a); simpl; [| now apply IH].
  constructor; [| now apply IH]. intros Hin. apply Ha.
  apply in_map_iff in Hin. destruct Hin as [x [Hx Hin]]. apply filter_In in Hin.
  apply in_map_iff. exists x. tauto.
Qed.

Lemma refers_owner_cars (db : DB) (ownerId carId : varchar) :
  refers (map Car.id (filter (fun c => eq_ (Car.ownerId c) ownerId) (cars db))) carId
  = owned_by db ownerId carId.
Proof.
  unfold refers, owned_by. induction (cars db) as [|c r IH]; [reflexivity |]. simpl.
  destruct (eq_ (Car.ownerId c) ownerId); simpl.
  - now rewrite IH, andb_true_r, eq_sym_bool.
  - now rewrite IH, andb_false_r.
Qed.

(** ** Ratings *)

Lemma listed_rating (rows : list Review.t) :
  (if (0 <? List.length rows)%nat
   then div (reduce_sum (fun r => of_integer (Review.rating r)) rows) (length_number rows)
   else zero)
  = mean (map Review.rating rows).
Proof.
  destruct rows as [|x r] eqn:E; [reflexivity |]. rewrite <- E.
  replace (0 <? List.length rows)%nat with true by (rewrite E; reflexivity).
  rewrite reduce_sum_map. unfold length_number, mean.
  rewrite length_map, map_map. now rewrite E.
Qed.

(** [getAverageRating] adds the ratings newest review first. *)
Lemma getAverageRating_runs (db : DB) (carId : varchar) :
  Storage.getAverageRating carId db
  = (Ok (mean (map Review.rating
                   (orderBy_desc Review.createdAt (Storage.carReviews_of db carId)))), db).
Proof.
  unfold Storage.getAverageRating, Storage.getReviewsByCarId, bind, select, ret.
  rewrite <- listed_rating.
  destruct (orderBy_desc Review.createdAt (Storage.carReviews_of db carId)); reflexivity.
Qed.

Lemma getAverageRating_exact (db : DB) (carId : varchar) :
  consistent db ->
  Z.of_nat (List.length (reviews db)) <= 4194304 ->
  Storage.getAverageRating carId db
  = (Ok (to_double (exact_mean (ratings_of db carId))), db).
Proof.
  intros Hc Hn. rewrite getAverageRating_runs. f_equal. f_equal.
  apply mean_of_permutation.
  - apply Permutation_map, orderBy_desc_permutation.
  - now apply ratings_summable.
Qed.

Lemma getAllCars_runs (db : DB) :
  Storage.getAllCars db
  = (Ok (map (fun car =>
                CarWithRating.mk car (mean (ratings_of db (Car.id car)))
                  (List.length (Storage.carReviews_of db (Car.id car))))
             (filter (fun c => Bool.eqb (Car.isAvailable c) true) (cars db))),
     db).
Proof.
  unfold Storage.getAllCars. unfold bind at 1, select at 1. unfold bind at 1.
  rewrite (reads_promise_all_map _
             (fun car db =>
                CarWithRating.mk car (mean (ratings_of db (Car.id car)))
                  (List.length (Storage.carReviews_of db (Car.id car))))).
  - reflexivity.
  - intros car db'. unfold bind, select, ret. now rewrite listed_rating.
Qed.

(** ** The owner's bookings and reviews *)

Lemma flat_map_keys {A B} (key : A -> varchar) (g : varchar -> list B) (l : list A) :
  flat_map (fun x => g (key x)) l = flat_map g (map key l).
Proof. induction l as [|x r IH]; simpl; [reflexivity | now rewrite IH]. Qed.

Lemma map_flat_map_swap {A B C} (f : B -> C) (g : A -> list B) (l : list A) :
  flat_map (fun x => map f (g x)) l = map f (flat_map g l).
Proof. induction l as [|x r IH]; simpl; [reflexivity | now rewrite map_app, IH]. Qed.

Lemma owner_rows_permutation {A} (key : A -> varchar) (created : A -> timestamp)
      (db : DB) (ownerId : varchar) (rows : list A) :
  NoDup (map Car.id (cars db)) ->
  Permutation
    (flat_map (fun id => orderBy_desc created (filter (fun r => eq_ (key r) id) rows))
              (map Car.id (filter (fun c => eq_ (Car.ownerId c) ownerId) (cars db))))
    (filter (fun r => owned_by db ownerId (key r)) rows).
Proof.
  intros Hnd.
  rewrite (grouped_permutation key (orderBy_desc created)).
  - erewrite filter_ext; [reflexivity |]. intros r. apply refers_owner_cars.
  - apply orderBy_desc_permutation.
  - now apply selected_keys_distinct.
Qed.

Lemma getBookingsByOwner_runs (db : DB) (ownerId : varchar) :
  exists ownerBookings,
    Storage.getBookingsByOwner ownerId db = (Ok ownerBookings, db)
    /\ (NoDup (map Car.id (cars db)) ->
        Permutation ownerBookings
          (filter (fun b => owned_by db ownerId (Booking.carId b)) (bookings db))).
Proof.
  unfold Storage.getBookingsByOwner, Storage.getCarsByOwner.
  unfold bind at 1, select at 1.
  set (ownerCars := filter (fun c => eq_ (Car.ownerId c) ownerId) (cars db)).
  destruct (List.length (map Car.id ownerCars) =? 0)%nat eqn:E.
  - exists []. split; [reflexivity |]. intros _.
    apply Nat.eqb_eq, length_zero_iff_nil in E.
    erewrite filter_ext.
    2:{ intros b. rewrite <- refers_owner_cars. fold ownerCars. rewrite E. reflexivity. }
    induction (bookings db) as [|b r IH]; [reflexivity | exact IH].
  - eexists. split.
    + apply (reads_for_of _
               (fun allBookings carId db =>
                  allBookings
                  ++ orderBy_desc Booking.createdAt
                       (filter (fun b => eq_ (Booking.carId b) carId) (bookings db)))).
      intros s x db'. reflexivity.
    + intros Hnd. cbv beta. rewrite flat_map_collect. cbn [app].
      now apply owner_rows_permutation.
Qed.

Lemma owner_totals (db : DB) (ownerCars : list Car.t) (a : integer) (n : nat) :
  let ratings :=
    flat_map (fun car =>
                map Review.rating
                  (orderBy_desc Review.createdAt
                     (Storage.carReviews_of db (Car.id car)))) ownerCars in
  Forall (fun r => int32 r = true) ratings ->
  Z.abs a + Z.of_nat (List.length ratings) * 2147483648 <= 2 ^ 53 ->
  fold_left
    (fun (acc : number * nat) car =>
       let (totalRating, totalReviews) := acc in
       let reviews :=
         orderBy_desc Review.createdAt (Storage.carReviews_of db (Car.id car)) in
       (add totalRating (reduce_sum (fun r => of_integer (Review.rating r)) reviews),
        (totalReviews + List.length reviews)%nat))
    ownerCars (Finite (inject_Z a), n)
  = (Finite (inject_Z (a + total ratings)), (n + List.length ratings)%nat).
Proof.
  cbv zeta. change (2 ^ 53) with 9007199254740992.
  revert a n. induction ownerCars as [|c r IH]; intros a n Hall Hb; cbn [fold_left flat_map].
  - simpl. now rewrite Z.add_0_r, Nat.add_0_r.
  - cbn [flat_map] in Hall, Hb. apply Forall_app in Hall. destruct Hall as [Hc Hr].
    rewrite length_app, Nat2Z.inj_add in Hb.
    set (here := map Review.rating
                     (orderBy_desc Review.createdAt (Storage.carReviews_of db (Car.id c))))
      in *.
    pose proof (total_bound here Hc) as Hhere.
    rewrite reduce_sum_map. rewrite <- (map_map Review.rating of_integer). fold here.
    unfold sum_doubles, zero. change 0%Q with (inject_Z 0).
    rewrite sum_integers_from
      by (assumption || (change (2 ^ 53) with 9007199254740992; unfold integer in *; lia)).
    rewrite add_integers
      by (change (2 ^ 53) with 9007199254740992; unfold integer in *; lia).
    rewrite IH by (assumption || (unfold integer in *; lia)).
    rewrite total_app, length_app. subst here. rewrite length_map.
    f_equal; [f_equal; f_equal |]; lia.
Qed.

Lemma mean_as_computed (l : list integer) :
  summable l ->
  (if (0 <? List.length l)%nat
   then div (Finite (inject_Z (total l))) (of_nat (List.length l))
   else zero) = to_double (exact_mean l).
Proof.
  intros Hs. rewrite <- (mean_exact l Hs). destruct l as [|x r] eqn:E; [reflexivity |].
  rewrite <- E in *. unfold mean. rewrite sum_doubles_integers by assumption.
  now rewrite E.
Qed.

Lemma owner_ratings_permutation (db : DB) (ownerId : varchar) :
  NoDup (map Car.id (cars db)) ->
  Permutation
    (flat_map (fun car =>
                 map Review.rating
                   (orderBy_desc Review.createdAt
                      (Storage.carReviews_of db (Car.id car))))
              (filter (fun c => eq_ (Car.ownerId c) ownerId) (cars db)))
    (owner_ratings db ownerId).
Proof.
  intros Hnd. unfold owner_ratings, Storage.carReviews_of.
  rewrite map_flat_map_swap. apply Permutation_map.
  rewrite (flat_map_keys Car.id
             (fun id => orderBy_desc Review.createdAt
                          (filter (fun r => eq_ (Review.carId r) id) (reviews db)))).
  now apply owner_rows_permutation.
Qed.

(** The owner dashboard, for a caller whose role is owner. *)
Lemma get_api_owner_dashboard_runs (db : DB) (userId : varchar) :
  role_is_not (first_row (filter (fun u => eq_ (User.id u) userId) (users db))) "owner"
  = false ->
  exists ownerBookings bookingsWithCars,
    Storage.getBookingsByOwner userId db = (Ok ownerBookings, db)
    /\ Routes.get_api_owner_dashboard userId db
       = (Ok (json
                (JOwnerDashboard
                   (filter (fun c => eq_ (Car.ownerId c) userId) (cars db))
                   bookingsWithCars
                   (OwnerStats.mk
                      (List.length (filter (fun c => eq_ (Car.ownerId c) userId) (cars db)))
                      (Routes.totalRevenue_of ownerBookings)
                      (List.length
                         (filter (fun b => eq_ (Booking.status b) "confirmed"
                                           || eq_ (Booking.status b) "pending")
                                 ownerBookings))
                      (owner_average db userId)))),
          db)
    /\ bookingsWithCars
       = map (fun b =>
                (b, first_row (filter (fun c => eq_ (Car.id c) (Booking.carId b))
                                      (cars db))))
             ownerBookings.
Proof.
  intros Hrole.
  destruct (getBookingsByOwner_runs db userId) as [ownerBookings [Hrun _]].
  exists ownerBookings. eexists. split; [exact Hrun |]. split; [| reflexivity].
  unfold Routes.get_api_owner_dashboard, try_catch.
  unfold bind at 1, Storage.getUser, select at 1. rewrite Hrole.
  unfold bind at 1, Storage.getCarsByOwner, select at 1.
  unfold bind at 1. rewrite Hrun.
  unfold bind at 1.
  rewrite (reads_promise_all_map _
             (fun booking db =>
                (booking,
                 first_row (filter (fun c => eq_ (Car.id c) (Booking.carId booking))
                                   (cars db)))))
    by (intros booking db'; reflexivity).
  unfold bind at 1.
  rewrite (reads_for_of _
             (fun (acc : number * nat) car db =>
                let (totalRating, totalReviews) := acc in
                let reviews :=
                  orderBy_desc Review.createdAt (Storage.carReviews_of db (Car.id car)) in
                (add totalRating (reduce_sum (fun r => of_integer (Review.rating r)) reviews),
                 (totalReviews + List.length reviews)%nat)))
    by (intros [tr n] car db'; reflexivity).
  cbv beta. unfold owner_average. fold (owner_rating_totals db
    (filter (fun c => eq_ (Car.ownerId c) userId) (cars db))).
  destruct (owner_rating_totals db _) as [totalRating totalReviews]. reflexivity.
Qed.

(** The average of the owner dashboard is the double nearest to the
    arithmetic mean of the ratings of all reviews of the owner's cars. *)
Lemma owner_average_exact (db : DB) (ownerId : varchar) :
  consistent db ->
  Z.of_nat (List.length (reviews db)) <= 4194304 ->
  owner_average db ownerId = to_double (exact_mean (owner_ratings db ownerId)).
Proof.
  intros Hc Hn. pose proof Hc as Hc'. apply consistent_iff in Hc'.
  pose proof (owner_ratings_permutation db ownerId (car_ids db Hc')) as Hperm.
  assert (Hs : summable (owner_ratings db ownerId)) by now apply ratings_summable.
  pose proof (summable_permutation _ _ (Permutation_sym Hperm) Hs) as [Hlen Hall].
  unfold owner_average, owner_rating_totals, zero. change 0%Q with (inject_Z 0).
  rewrite owner_totals;
    [| assumption
     | change (2 ^ 53) with 9007199254740992; unfold integer in *; cbn [Z.abs]; lia].
  cbn [Z.add Nat.add]. rewrite mean_as_computed by (split; assumption).
  f_equal. now apply exact_mean_permutation.
Qed.

Lemma get_api_cars_id_runs (db : DB) (id : varchar) (car : Car.t) :
  first_row (filter (fun c => eq_ (Car.id c) id) (cars db)) = Some car ->
  exists owner reviewsWithUsers,
    Routes.get_api_cars_id id db
    = (Ok (json (JCarDetail car owner reviewsWithUsers
                   (mean (map Review.rating
                             (orderBy_desc Review.createdAt
                                (Storage.carReviews_of db (Car.id car))))))), db).
Proof.
  intros Hcar. eexists. eexists.
  unfold Routes.get_api_cars_id, try_catch.
  unfold bind at 1, Storage.getCarById, select at 1. rewrite Hcar.
  unfold bind at 1, Storage.getUser, select at 1.
  unfold bind at 1, Storage.getReviewsByCarId, select at 1.
  unfold bind at 1.
  rewrite (reads_promise_all_map _
             (fun review db =>
                (review,
                 first_row (filter (fun u => eq_ (User.id u) (Review.userId review))
                                   (users db)))))
    by (intros review db'; reflexivity).
  unfold bind at 1. rewrite getAverageRating_runs. reflexivity.
Qed.

(** C5 (amended). JavaScript numbers are doubles. While the reviews table
    has no more than [2^22] rows, [getAverageRating(carId)] answers the
    double nearest to the arithmetic mean of the ratings of all reviews of
    the car, and leaves the database alone; it answers [0] when there is no
    review, and the mean itself when the mean is a whole number, so [4] for
    ratings 5, 3 and 4; with every stored rating between 1 and 5 the answer
    lies between 0 and 5, and for a reviewed car between 1 and 5 and within
    one part in [2^53] of the mean. The car list has one entry for every
    listed car, in the order of the table, and the rating of each entry is
    that of [getAverageRating]; so is the rating of the car page; the owner
    dashboard gives the double nearest to the mean of the ratings of all
    reviews of the owner's cars. *)
Theorem getAverageRating_mean :
  forall (db : DB) (carId : varchar),
    consistent db ->
    Z.of_nat (List.length (reviews db)) <= 4194304 ->
    let average := fun id => to_double (exact_mean (ratings_of db id)) in
    Storage.getAverageRating carId db = (Ok (average carId), db)
    /\ (ratings_of db carId = [] -> average carId = Finite 0)
    /\ (forall z, (exact_mean (ratings_of db carId) == inject_Z z)%Q ->
          average carId = Finite (inject_Z z))
    /\ (ratings_of db carId = [5; 3; 4] -> average carId = Finite 4)
    /\ (Forall (fun r => 1 <= Review.rating r <= 5) (reviews db) ->
        within 0 5 (average carId)
        /\ (ratings_of db carId <> [] ->
            exists q,
              average carId = Finite q /\ (1 <= q)%Q /\ (q <= 5)%Q
              /\ (Qabs (q - exact_mean (ratings_of db carId)) * Qpower 2 53
                  <= exact_mean (ratings_of db carId))%Q))
    /\ (exists listed,
          Storage.getAllCars db = (Ok listed, db)
          /\ map CarWithRating.car listed
             = filter (fun c => Bool.eqb (Car.isAvailable c) true) (cars db)
          /\ forall x, In x listed ->
               CarWithRating.averageRating x = average (Car.id (CarWithRating.car x)))
    /\ (forall car,
          first_row (filter (fun c => eq_ (Car.id c) carId) (cars db)) = Some car ->
          exists owner reviewsWithUsers,
            Routes.get_api_cars_id carId db
            = (Ok (json (JCarDetail car owner reviewsWithUsers (average carId))), db))
    /\ (forall userId,
          role_is_not (first_row (filter (fun u => eq_ (User.id u) userId) (users db)))
                      "owner" = false ->
          exists ownerCars bookingsWithCars stats,
            Routes.get_api_owner_dashboard userId db
            = (Ok (json (JOwnerDashboard ownerCars bookingsWithCars stats)), db)
            /\ OwnerStats.averageRating stats
               = to_double (exact_mean (owner_ratings db userId))).
Proof.
  intros db carId Hc Hn average. subst average. cbv beta.
  assert (Hsum : forall id, summable (ratings_of db id))
    by (intros id; now apply ratings_summable).
  assert (Hint : forall id r, In r (ratings_of db id) -> Z.abs r <= 2147483648).
  { intros id r Hr. destruct (Hsum id) as [_ Hall]. rewrite Forall_forall in Hall.
    specialize (Hall r Hr). unfold int32 in Hall.
    rewrite andb_true_iff, !Z.leb_le in Hall. lia. }
  split; [now apply getAverageRating_exact |].
  split; [now intros -> |].
  split.
  { intros z Hz. apply (to_double_whole _ z Hz).
    destruct (ratings_of db carId) as [|r l] eqn:E.
    - cbn in Hz. apply (inject_Z_injective 0 z) in Hz. subst z. cbn. lia.
    - assert (Hne : ratings_of db carId <> []) by (rewrite E; discriminate).
      rewrite <- E in Hz. rewrite (exact_mean_nonempty _ Hne) in Hz.
      destruct (Hsum carId) as [Hlen Hall]. pose proof (total_bound _ Hall) as Ht.
      assert (Hpos : 0 < Z.of_nat (List.length (ratings_of db carId)))
        by (rewrite E; cbn [List.length]; lia).
      assert (Hz' : total (ratings_of db carId)
                    = z * Z.of_nat (List.length (ratings_of db carId))).
      { apply inject_Z_injective. rewrite inject_Z_mult, <- Hz. field.
        intros H. unfold Qeq in H. cbn [Qnum Qden inject_Z] in H.
        unfold integer in *. lia. }
      change (2 ^ 53) with 9007199254740992.
      set (n := Z.of_nat (List.length (ratings_of db carId))) in *.
      assert (Habs : Z.abs z * n <= n * 2147483648).
      { rewrite <- (Z.abs_eq n) at 1 by lia. rewrite <- Z.abs_mul, <- Hz'. exact Ht. }
      assert (Z.abs z <= 2147483648) by nia. lia. }
  split; [now intros -> |].
  split.
  { intros Hall.
    assert (Hr : Forall (fun r => 1 <= r <= 5) (ratings_of db carId)).
    { unfold ratings_of, Storage.carReviews_of.
      apply Forall_forall. intros r Hr. apply in_map_iff in Hr.
      destruct Hr as [x [<- Hx]]. apply filter_In in Hx.
      rewrite Forall_forall in Hall. now apply Hall. }
    split.
    - destruct (ratings_of db carId) as [|r l] eqn:E.
      + exists 0%Q. repeat split; discriminate.
      + rewrite <- E in *.
        destruct (to_double_rating (ratings_of db carId)) as [q [Hq [H1 [H5 _]]]];
          [rewrite E; discriminate | assumption |].
        exists q. repeat split; [assumption | lra | assumption].
    - intros Hne. now apply to_double_rating. }
  split.
  { eexists. split; [apply getAllCars_runs |]. split.
    - rewrite map_map. cbn [CarWithRating.car]. apply map_id.
    - intros x Hx. apply in_map_iff in Hx. destruct Hx as [car [<- _]].
      cbn [CarWithRating.averageRating CarWithRating.car]. now apply mean_exact. }
  split.
  { intros car Hcar. destruct (get_api_cars_id_runs db carId car Hcar)
      as [owner [reviewsWithUsers Hrun]].
    exists owner, reviewsWithUsers. rewrite Hrun. do 4 f_equal.
    assert (Hid : Car.id car = carId).
    { destruct (filter (fun c => eq_ (Car.id c) carId) (cars db)) as [|c r] eqn:F;
        [discriminate |]. injection Hcar as ->.
      assert (Hin : In car (filter (fun c => eq_ (Car.id c) carId) (cars db)))
        by (rewrite F; now left).
      apply filter_In in Hin. now apply eq_true_iff. }
    rewrite Hid. apply mean_of_permutation.
    - apply Permutation_map, orderBy_desc_permutation.
    - apply Hsum. }
  intros userId Hrole.
  destruct (get_api_owner_dashboard_runs db userId Hrole)
    as [ownerBookings [bookingsWithCars [_ [Hrun _]]]].
  eexists. eexists. eexists. split; [exact Hrun |].
  cbn [OwnerStats.averageRating]. now apply owner_average_exact.
Qed.

Lemma getAverageRating_mean_witness :
  Storage.getAverageRating "car-1" june_reviewed = (Ok (Finite 4), june_reviewed).
Proof.
  destruct (getAverageRating_mean june_reviewed "car-1") as [Hrun [_ [_ [Hfour _]]]].
  - vm_compute. reflexivity.
  - vm_compute. discriminate.
  - rewrite Hrun, Hfour; reflexivity.
Defined.

(** For ratings 5, 3 and 5 the answer is 4.333333333333333, the double
    [4878899596318037 / 2^50]; the addition and the division of the
    Standard Library's binary64 give the same. *)
Example average_of_thirds :
  Storage.getAverageRating "car-1" june_thirds
  = (Ok (Finite (4878899596318037 # 1125899906842624)), june_thirds)
  /\ of_spec_float (SFdiv 53 1024 (binary64 13) (binary64 3))
     = Finite (4878899596318037 # 1125899906842624).
Proof. split; vm_compute; reflexivity. Qed.

(** C5, as stated, fails: the answer is a double, and for ratings 5, 3 and
    5 no double is the arithmetic mean 13/3. *)
Lemma average_is_rounded :
  ~ (forall (db : DB) (carId : varchar),
       consistent db ->
       exists q,
         Storage.getAverageRating carId db = (Ok (Finite q), db)
         /\ (q == exact_mean (ratings_of db carId))%Q).
Proof.
  intros H. destruct (H june_thirds "car-1") as [q [Hrun Hq]]; [vm_compute; reflexivity |].
  destruct average_of_thirds as [Hthirds _]. rewrite Hthirds in Hrun.
  injection Hrun as <-. vm_compute in Hq. discriminate Hq.
Qed.

(** ** Revenue *)

Lemma totalRevenue_of_sum (l : list Booking.t) :
  Routes.totalRevenue_of l
  = sum_doubles (map (fun b => Number (Booking.totalCost b)) (filter paid l)).
Proof. unfold Routes.totalRevenue_of. apply reduce_sum_map. Qed.

Lemma totalRevenue_of_skips (before later : list Booking.t) (b : Booking.t) :
  Booking.paymentStatus b <> "paid" ->
  Routes.totalRevenue_of (before ++ b :: later) = Routes.totalRevenue_of (before ++ later).
Proof.
  intros Hb. apply eq_false_iff in Hb. unfold Routes.totalRevenue_of.
  rewrite !filter_app. simpl. now rewrite Hb.
Qed.

Lemma exact_total_permutation (l1 l2 : list Booking.t) :
  Permutation l1 l2 -> (exact_total l1 == exact_total l2)%Q.
Proof.
  induction 1 as [| b l l' _ IH | b c l | l l' l'' _ IH1 _ IH2]; simpl.
  - reflexivity.
  - now rewrite IH.
  - ring.
  - now rewrite IH1.
Qed.

Lemma filter_permutation {A} (f : A -> bool) (l1 l2 : list A) :
  Permutation l1 l2 -> Permutation (filter f l1) (filter f l2).
Proof.
  induction 1 as [| x l l' _ IH | x y l | l l' l'' _ IH1 _ IH2]; simpl.
  - constructor.
  - destruct (f x); [now constructor | assumption].
  - destruct (f x), (f y); try reflexivity. apply perm_swap.
  - now transitivity (filter f l').
Qed.

Lemma filter_and {A} (f g : A -> bool) (l : list A) :
  filter f (filter g l) = filter (fun x => f x && g x) l.
Proof.
  induction l as [|x r IH]; [reflexivity |]. simpl.
  destruct (g x); simpl; [destruct (f x); now rewrite IH | now rewrite andb_false_r].
Qed.

(** Whole amounts add up without rounding. *)
Lemma sum_whole_from (l : list Booking.t) (a : Z) :
  Forall whole_amount l ->
  Z.abs a + Z.of_nat (List.length l) * 100000000 <= 2 ^ 53 ->
  exists z,
    fold_left add (map (fun b => Number (Booking.totalCost b)) l) (Finite (inject_Z a))
    = Finite (inject_Z z)
    /\ (inject_Z z == inject_Z a + exact_total l)%Q.
Proof.
  change (2 ^ 53) with 9007199254740992.
  intros Hl. revert a. induction Hl as [|b l [c [Hc Hb]] Hl IH]; intros a Ha.
  - exists a. split; [reflexivity |]. cbn. ring.
  - cbn [map fold_left exact_total fold_right List.length] in *. fold (exact_total l).
    change (Number (Booking.totalCost b)) with (to_double (Booking.totalCost b)).
    rewrite (to_double_comp _ _ Hc).
    rewrite to_double_integer by (change (2 ^ 53) with 9007199254740992; lia).
    rewrite add_integers by (change (2 ^ 53) with 9007199254740992; lia).
    destruct (IH (a + c)) as [z [Hz Hsum]]; [lia |].
    exists z. split; [exact Hz |]. rewrite Hsum, inject_Z_plus, Hc. ring.
Qed.

Lemma totalRevenue_of_whole (l : list Booking.t) :
  whole_amounts (filter paid l) ->
  exists q, Routes.totalRevenue_of l = Finite q /\ (q == exact_total (filter paid l))%Q.
Proof.
  intros [Hn Hall]. rewrite totalRevenue_of_sum. unfold sum_doubles, zero.
  change 0%Q with (inject_Z 0).
  destruct (sum_whole_from (filter paid l) 0 Hall) as [z [Hz Hsum]].
  { change (2 ^ 53) with 9007199254740992. cbn [Z.abs]. lia. }
  exists (inject_Z z). split; [exact Hz |]. rewrite Hsum. cbn. ring.
Qed.

Lemma whole_amounts_selected (l l' : list Booking.t) (keep_row : Booking.t -> bool) :
  Permutation l' (filter keep_row l) -> whole_amounts l -> whole_amounts l'.
Proof.
  intros Hperm [Hn Hall]. split.
  - rewrite (Permutation_length Hperm).
    pose proof (filter_length_le keep_row l). lia.
  - apply (Permutation_Forall (Permutation_sym Hperm)).
    apply Forall_forall. intros b Hb. apply filter_In in Hb.
    rewrite Forall_forall in Hall. now apply Hall.
Qed.

(** The admin dashboard, for a caller whose role is admin. *)
Lemma get_api_admin_dashboard_runs (db : DB) (userId : varchar) :
  role_is_not (first_row (filter (fun u => eq_ (User.id u) userId) (users db))) "admin"
  = false ->
  exists allCars carsWithOwners bookingsWithDetails,
    Storage.getAllCars db = (Ok allCars, db)
    /\ Routes.get_api_admin_dashboard userId db
       = (Ok (json
                (JAdminDashboard [] carsWithOwners bookingsWithDetails
                   (AdminStats.mk 0 (List.length allCars)
                      (List.length (orderBy_desc Booking.createdAt (bookings db)))
                      (Routes.totalRevenue_of
                         (orderBy_desc Booking.createdAt (bookings db)))))),
          db)
    /\ map fst carsWithOwners = allCars.
Proof.
  intros Hrole. eexists. eexists. eexists. split; [apply getAllCars_runs |].
  unfold Routes.get_api_admin_dashboard, try_catch.
  unfold bind at 1, Storage.getUser at 1, select at 1. rewrite Hrole.
  unfold bind at 1. rewrite getAllCars_runs.
  unfold bind at 1, Storage.getAllBookings, select at 1.
  unfold bind at 1.
  rewrite (reads_promise_all_map _
             (fun (x : CarWithRating.t) db =>
                (x,
                 first_row (filter (fun u => eq_ (User.id u)
                                               (Car.ownerId (CarWithRating.car x)))
                                   (users db)))))
    by (intros x db'; reflexivity).
  unfold bind at 1.
  rewrite (reads_promise_all_map _
             (fun booking db =>
                (booking,
                 first_row (filter (fun c => eq_ (Car.id c) (Booking.carId booking))
                                   (cars db)),
                 first_row (filter (fun u => eq_ (User.id u) (Booking.userId booking))
                                   (users db)))))
    by (intros booking db'; reflexivity).
  split; [reflexivity |].
  rewrite map_map. cbn [fst]. apply map_id.
Qed.



(** Two paid bookings of 0.10 and 0.20 give 0.30000000000000004, the
    double [5404319552844596 / 2^54]; the addition of the Standard
    Library's binary64 gives the same. *)
Example revenue_of_small_change :
  Routes.totalRevenue_of (orderBy_desc Booking.createdAt (bookings small_change))
  = Finite (1351079888211149 # 4503599627370496)
  /\ Number (1 # 10) = of_spec_float (S754_finite false 7205759403792794 (-56))
  /\ Number (1 # 5) = of_spec_float (S754_finite false 7205759403792794 (-55))
  /\ of_spec_float (SFadd 53 1024 (S754_finite false 7205759403792794 (-55))
                          (S754_finite false 7205759403792794 (-56)))
     = Finite (1351079888211149 # 4503599627370496).
Proof. repeat split; vm_compute; reflexivity. Qed.


(** ** Partial updates *)

Lemma update_where_NoDup {A B} (key : A -> B) (w : A -> bool) (f : A -> A) (l : list A) :
  (forall x, key (f x) = key x) ->
  NoDup (map key l) -> NoDup (map key (update_where w f l)).
Proof.
  intros Hf Hnd.
  apply (Permutation_NoDup (Permutation_sym (update_where_keys key w f l Hf)) Hnd).
Qed.

Lemma updated_rows_one {A} (key : A -> varchar) (f : A -> A) (l : list A) (x : A) :
  NoDup (map key l) -> In x l ->
  updated_rows (fun y => eq_ (key y) (key x)) f l = [f x].
Proof.
  intros Hnd Hx. unfold updated_rows. now rewrite (selected_unique key) by assumption.
Qed.

Lemma updated_rows_absent {A} (key : A -> varchar) (k : varchar) (f : A -> A) (l : list A) :
  ~ In k (map key l) -> updated_rows (fun y => eq_ (key y) k) f l = [].
Proof. intros Hk. unfold updated_rows. now rewrite (filter_key_absent key). Qed.

Lemma first_updated_row {A} (w : A -> bool) (f : A -> A) (l : list A) (y : A) :
  first_row (updated_rows w f l) = Some y ->
  exists x, In x l /\ w x = true /\ y = f x.
Proof.
  unfold updated_rows. destruct (filter w l) as [|x r] eqn:F; [discriminate |].
  intros [= <-]. exists x.
  assert (Hx : In x (filter w l)) by (rewrite F; now left).
  apply filter_In in Hx. tauto.
Qed.

Lemma statement_refused {A} (d : Draw) (next : DB -> DB) (returning : DB -> A) (db : DB) :
  ~ consistent (next db) ->
  exists message, statement d next returning db = (Throw message, db).
Proof.
  intros Hno. destruct (statement_cases d next returning db) as [[_ [_ Hc]] | H];
    [contradiction | exact H].
Qed.

Lemma update_reviews_consistent (db : DB) (w : Review.t -> bool) (f : Review.t -> Review.t) :
  consistent db ->
  (forall r, Review.id (f r) = Review.id r) ->
  (forall r, In r (reviews db) -> w r = true ->
     In (Review.carId (f r)) (map Car.id (cars db))
     /\ In (Review.userId (f r)) (map User.id (users db))
     /\ review_columns (f r) = true) ->
  consistent (with_reviews db (update_where w f (reviews db))).
Proof.
  intros Hc Hid Hfk. apply consistent_iff in Hc. apply consistent_iff.
  destruct Hc. constructor; cbn [with_reviews users cars bookings payments reviews];
    try assumption.
  - now apply update_where_NoDup.
  - apply update_where_Forall; [assumption |]. intros r Hr Hw. now apply Hfk.
  - apply update_where_Forall; [assumption |]. intros r Hr Hw. now apply Hfk.
  - apply update_where_Forall; [assumption |]. intros r Hr Hw. now apply Hfk.
Qed.

Lemma updateReview_response_runs (db : DB) (d : Draw) (review : Review.t)
      (ownerResponse : option (option text)) :
  consistent db -> outage d = false -> In review (reviews db) ->
  let data := PartialReview.mk None None None None ownerResponse in
  Storage.updateReview d (Review.id review) data db
  = (Ok (Some (patch_review review data (now d))),
     with_reviews db
       (update_where (fun r => eq_ (Review.id r) (Review.id review))
                     (fun r => patch_review r data (now d)) (reviews db))).
Proof.
  intros Hc Ho Hin data. unfold Storage.updateReview. cbv zeta.
  rewrite statement_runs; [| assumption |].
  - rewrite (updated_rows_one Review.id); [reflexivity | | assumption].
    apply consistent_iff in Hc. apply (review_ids db Hc).
  - apply update_reviews_consistent; [assumption | reflexivity |].
    intros r Hr _. cbn. apply consistent_iff in Hc.
    pose proof (review_car db Hc) as H1. pose proof (review_user db Hc) as H2.
    pose proof (review_columns_ok db Hc) as H3.
    rewrite Forall_forall in H1, H2, H3. repeat split; auto.
    exact (H3 r Hr).
Qed.

(** ** Owner responses *)

Lemma put_api_reviews_id_response_runs (db : DB) (d : Draw) (userId id : varchar)
      (ownerResponse : option (option text)) :
  Routes.put_api_reviews_id_response d userId id ownerResponse db =
  if role_is_not (first_row (filter (fun u => eq_ (User.id u) userId) (users db))) "owner"
  then (Ok (status_json 403 (JMessage "Only owners can respond to reviews")), db)
  else
    match Storage.updateReview d id (PartialReview.mk None None None None ownerResponse) db
    with
    | (Ok review, db') => (Ok (json (JReview review)), db')
    | (Throw message, db') =>
        (Ok (status_json 400 (JMessage (message_or message "Failed to update review"))), db')
    end.
Proof.
  unfold Routes.put_api_reviews_id_response, try_catch.
  unfold bind at 1, Storage.getUser, select at 1.
  destruct (role_is_not _ _); [reflexivity |].
  unfold bind. now destruct (Storage.updateReview d id _ db) as [[review | message] db'].
Qed.

(** C8 (amended). The owner response of a review is gated by the caller's
    role, not by ownership of the reviewed car: a caller whose stored role
    is not owner (or who has no user row) is answered 403 and nothing is
    written; a caller whose role is owner sets the response of any existing
    review, all other columns but [updatedAt] and all other rows staying as
    they were; for an id that matches no review nothing is written; and a
    review is always created without an owner response. *)
Theorem owner_response_gated_by_role :
  forall (db : DB) (d : Draw) (userId id : varchar) (ownerResponse : option (option text)),
    consistent db ->
    let caller := first_row (filter (fun u => eq_ (User.id u) userId) (users db)) in
    let request := Routes.put_api_reviews_id_response d userId id ownerResponse in
    (role_is_not caller "owner" = true ->
     request db
     = (Ok (status_json 403 (JMessage "Only owners can respond to reviews")), db))
    /\ (role_is_not caller "owner" = false -> outage d = false ->
        forall review,
          In review (reviews db) -> Review.id review = id ->
          exists updated db',
            request db = (Ok (json (JReview (Some updated))), db')
            /\ In updated (reviews db')
            /\ Review.ownerResponse updated
               = or_default ownerResponse (Review.ownerResponse review)
            /\ Review.id updated = Review.id review
            /\ Review.carId updated = Review.carId review
            /\ Review.userId updated = Review.userId review
            /\ Review.rating updated = Review.rating review
            /\ Review.comment updated = Review.comment review
            /\ Review.createdAt updated = Review.createdAt review
            /\ Review.updatedAt updated = now d
            /\ (forall r, In r (reviews db) -> Review.id r <> id -> In r (reviews db'))
            /\ List.length (reviews db') = List.length (reviews db)
            /\ (users db', cars db', bookings db', payments db')
               = (users db, cars db, bookings db, payments db))
    /\ (~ In id (map Review.id (reviews db)) -> reviews (after request db) = reviews db)
    /\ (forall d' reviewer body r db',
          Routes.post_api_reviews d' reviewer body db = (Ok (json (JReview (Some r))), db') ->
          Review.ownerResponse r = None).
Proof.
  intros db d userId id ownerResponse Hc caller request. subst caller request.
  split; [| split; [| split]].
  - intros Hrole. now rewrite put_api_reviews_id_response_runs, Hrole.
  - intros Hrole Ho review Hin <-.
    rewrite put_api_reviews_id_response_runs, Hrole.
    rewrite updateReview_response_runs by assumption.
    eexists. eexists. split; [reflexivity |].
    cbn [with_reviews reviews users cars bookings payments].
    split.
    { apply update_where_In. right. exists review.
      now rewrite eq_refl_true. }
    repeat (split; [reflexivity |]).
    split; [| split; [apply update_where_length | reflexivity]].
    intros r Hr Hne. apply update_where_In. left.
    apply eq_false_iff in Hne. now rewrite Hne.
  - intros Hid. unfold after. rewrite put_api_reviews_id_response_runs.
    destruct (role_is_not _ _); [reflexivity |].
    unfold Storage.updateReview. cbv zeta.
    match goal with
    | |- context [statement d ?n ?r] =>
        destruct (statement_cases d n r db) as [[H _] | [m H]]
    end; rewrite H; [| reflexivity].
    cbn. now apply update_where_absent.
  - intros d' reviewer body r db'. unfold Routes.post_api_reviews, try_catch, bind, parsed.
    destruct (insertReviewSchema_parse _) as [reviewData | message] eqn:Hparse;
      [| discriminate].
    unfold Storage.createReview.
    match goal with
    | |- context [statement d' ?n ?r] =>
        destruct (statement_cases d' n r db) as [[H _] | [m H]]
    end; rewrite H; [| discriminate].
    now intros [= <- _].
Qed.

Lemma owner_response_gated_by_role_witness :
  Routes.put_api_reviews_id_response draw_response "bob" "review-1"
    (Some (Some "Thank you")) june_reviewed
  = (Ok (status_json 403 (JMessage "Only owners can respond to reviews")), june_reviewed).
Proof.
  apply (owner_response_gated_by_role june_reviewed draw_response "bob" "review-1").
  - vm_compute. reflexivity.
  - reflexivity.
Defined.

(** C8, as stated, fails: Carol has the owner role and owns no car; her
    response to a review of Alice's car is accepted. *)
Lemma owner_response_by_another_owner :
  ~ (forall (db : DB) (d : Draw) (userId id : varchar)
            (ownerResponse : option (option text)) (review : Review.t) (car : Car.t),
       consistent db ->
       In review (reviews db) -> Review.id review = id ->
       In car (cars db) -> Car.id car = Review.carId review ->
       Car.ownerId car <> userId ->
       exists message,
         Routes.put_api_reviews_id_response d userId id ownerResponse db
         = (Ok (status_json 403 (JMessage message)), db)).
Proof.
  intros H.
  destruct (H june_reviewed draw_response "carol" "review-1" (Some (Some "Thank you"))
              (plain_review "review-1" "car-1" 5 20) car1) as [message Hm].
  - vm_compute. reflexivity.
  - now left.
  - reflexivity.
  - now left.
  - reflexivity.
  - discriminate.
  - vm_compute in Hm. discriminate.
Qed.

(** What Carol's request does. *)
Example carol_responds :
  exists updated db',
    Routes.put_api_reviews_id_response draw_response "carol" "review-1"
      (Some (Some "Thank you")) june_reviewed
    = (Ok (json (JReview (Some updated))), db')
    /\ Review.ownerResponse updated = Some "Thank you"
    /\ Review.carId updated = "car-1"
    /\ In updated (reviews db').
Proof. eexists. eexists. vm_compute. repeat split. right. right. now left. Qed.

Lemma NoDup_replace {A} (l1 l2 : list A) (a b : A) :
  NoDup (l1 ++ a :: l2) -> (b = a \/ ~ In b (l1 ++ a :: l2)) -> NoDup (l1 ++ l2 ++ [b]).
Proof.
  intros Hnd Hb.
  assert (Hperm : Permutation (l1 ++ l2 ++ [b]) (b :: l1 ++ l2)).
  { rewrite app_assoc. symmetry. apply Permutation_cons_append. }
  apply (Permutation_NoDup (Permutation_sym Hperm)).
  destruct Hb as [-> | Hb].
  - apply (Permutation_NoDup (Permutation_sym (Permutation_middle l1 l2 a)) Hnd).
  - constructor.
    + intros Hin. apply Hb. apply in_app_or in Hin. apply in_or_app.
      destruct Hin; [now left | right; now right].
    + now apply NoDup_remove_1 in Hnd.
Qed.

Lemma update_bookings_consistent (db : DB) (w : Booking.t -> bool)
      (f : Booking.t -> Booking.t) :
  consistent db ->
  (forall b, Booking.id (f b) = Booking.id b) ->
  (forall b, In b (bookings db) -> w b = true ->
     In (Booking.carId (f b)) (map Car.id (cars db))
     /\ In (Booking.userId (f b)) (map User.id (users db))
     /\ booking_columns (f b) = true) ->
  consistent (with_bookings db (update_where w f (bookings db))).
Proof.
  intros Hc Hid Hfk. apply consistent_iff in Hc. apply consistent_iff.
  destruct Hc. constructor; cbn [with_bookings users cars bookings payments reviews];
    try assumption.
  - now apply update_where_NoDup.
  - apply update_where_Forall; [assumption |]. intros b Hb Hw. now apply Hfk.
  - apply update_where_Forall; [assumption |]. intros b Hb Hw. now apply Hfk.
  - apply Forall_forall. intros x Hx. rewrite Forall_forall in payment_booking0.
    apply (Permutation_in _ (Permutation_sym (update_where_keys Booking.id w f _ Hid))).
    now apply payment_booking0.
  - apply update_where_Forall; [assumption |]. intros b Hb Hw. now apply Hfk.
Qed.

Lemma update_payment_consistent (db : DB) (p : Payment.t) (f : Payment.t -> Payment.t) :
  consistent db ->
  In p (payments db) ->
  (forall x, Payment.id (f x) = Payment.id x) ->
  In (Payment.bookingId (f p)) (map Booking.id (bookings db)) ->
  (Payment.bookingId (f p) = Payment.bookingId p
   \/ ~ In (Payment.bookingId (f p)) (map Payment.bookingId (payments db))) ->
  payment_columns (f p) = true ->
  consistent
    (with_payments db
       (update_where (fun x => eq_ (Payment.id x) (Payment.id p)) f (payments db))).
Proof.
  intros Hc Hp Hid Hfk Hun Hcol. apply consistent_iff in Hc. apply consistent_iff.
  pose proof (payment_ids db Hc) as Hids.
  destruct (update_where_split Payment.id f (payments db) p Hids Hp)
    as [l1 [l2 [Hl [Hl' _]]]].
  destruct Hc. constructor; cbn [with_payments users cars bookings payments reviews];
    try assumption.
  - now apply update_where_NoDup.
  - rewrite Hl'. rewrite Hl in *. rewrite !map_app in *. cbn [map] in *.
    now apply NoDup_replace with (a := Payment.bookingId p).
  - rewrite Hl'. rewrite Hl in *. apply Forall_app in payment_booking0.
    destruct payment_booking0 as [H1 H2]. inversion H2; subst.
    apply Forall_app. split; [assumption |]. apply Forall_app. split; [assumption |].
    now constructor.
  - rewrite Hl'. rewrite Hl in *. apply Forall_app in payment_columns_ok0.
    destruct payment_columns_ok0 as [H1 H2]. inversion H2; subst.
    apply Forall_app. split; [assumption |]. apply Forall_app. split; [assumption |].
    now constructor.
Qed.

Lemma with_bookings_same (db : DB) : with_bookings db (bookings db) = db.
Proof. now destruct db. Qed.

Lemma with_payments_same (db : DB) : with_payments db (payments db) = db.
Proof. now destruct db. Qed.

Lemma updateBooking_absent (db : DB) (d : Draw) (id : varchar) (data : PartialBooking.t) :
  consistent db -> outage d = false ->
  ~ In id (map Booking.id (bookings db)) ->
  Storage.updateBooking d id data db = (Ok None, db).
Proof.
  intros Hc Ho Hid. unfold Storage.updateBooking. cbv zeta.
  rewrite statement_runs; try assumption;
    cbn [with_bookings bookings]; rewrite (update_where_absent Booking.id) by assumption;
    rewrite ?with_bookings_same; [| assumption].
  now rewrite (updated_rows_absent Booking.id).
Qed.

Lemma updatePayment_absent (db : DB) (d : Draw) (id : varchar) (data : PartialPayment.t) :
  consistent db -> outage d = false ->
  ~ In id (map Payment.id (payments db)) ->
  Storage.updatePayment d id data db = (Ok None, db).
Proof.
  intros Hc Ho Hid. unfold Storage.updatePayment. cbv zeta.
  rewrite statement_runs; try assumption;
    cbn [with_payments payments]; rewrite (update_where_absent Payment.id) by assumption;
    rewrite ?with_payments_same; [| assumption].
  now rewrite (updated_rows_absent Payment.id).
Qed.

Lemma column_takes_stored (n : nat) (given : option varchar) (old : varchar) :
  fits n old = true ->
  (forall s, given = Some s -> column_takes n s) ->
  fits n (set_to (varchar_n n) given old) = true.
Proof.
  intros Hold Hs. destruct given as [s |]; cbn [set_to]; [| assumption].
  apply varchar_n_stored. now apply Hs.
Qed.

Lemma storable_stored (given : option decimal) (old : decimal) :
  decimal_10_2 old = true ->
  (forall v, given = Some v -> storable v) ->
  decimal_10_2 (set_to round2 given old) = true.
Proof.
  intros Hold Hv. destruct given as [v |]; cbn [set_to]; [| assumption].
  apply decimal_10_2_round2. now apply Hv.
Qed.

Lemma patch_booking_columns (b : Booking.t) (data : PartialBooking.t) (at_ : timestamp) :
  booking_columns b = true -> booking_values_fit data ->
  booking_columns (patch_booking b data at_) = true.
Proof.
  unfold booking_columns. rewrite !andb_true_iff. intros [[H1 H2] H3] [F1 [F2 F3]]. cbn.
  repeat split; [now apply storable_stored | now apply column_takes_stored ..].
Qed.

Lemma patch_payment_columns (p : Payment.t) (data : PartialPayment.t) (at_ : timestamp) :
  payment_columns p = true -> payment_values_fit data ->
  payment_columns (patch_payment p data at_) = true.
Proof.
  unfold payment_columns. rewrite !andb_true_iff. intros [[H1 H2] H3] [F1 [F2 F3]]. cbn.
  repeat split; [now apply storable_stored | now apply column_takes_stored ..].
Qed.

Lemma updateBooking_runs (db : DB) (d : Draw) (b : Booking.t) (data : PartialBooking.t) :
  consistent db -> outage d = false -> In b (bookings db) ->
  (forall c, PartialBooking.carId data = Some c -> In c (map Car.id (cars db))) ->
  (forall u, PartialBooking.userId data = Some u -> In u (map User.id (users db))) ->
  booking_values_fit data ->
  Storage.updateBooking d (Booking.id b) data db
  = (Ok (Some (patch_booking b data (now d))),
     with_bookings db
       (update_where (fun x => eq_ (Booking.id x) (Booking.id b))
                     (fun x => patch_booking x data (now d)) (bookings db))).
Proof.
  intros Hc Ho Hin Hcar Huser Hfit. unfold Storage.updateBooking. cbv zeta.
  rewrite statement_runs; [| assumption |].
  - rewrite (updated_rows_one Booking.id); [reflexivity | | assumption].
    apply consistent_iff in Hc. apply (booking_ids db Hc).
  - apply update_bookings_consistent; [assumption | reflexivity |].
    intros x Hx _. apply consistent_iff in Hc.
    pose proof (booking_car db Hc) as H1. pose proof (booking_user db Hc) as H2.
    pose proof (booking_columns_ok db Hc) as H3.
    rewrite Forall_forall in H1, H2, H3. split; [| split].
    + cbn. destruct (PartialBooking.carId data) as [c |]; cbn; auto.
    + cbn. destruct (PartialBooking.userId data) as [u |]; cbn; auto.
    + apply patch_booking_columns; auto.
Qed.

Lemma updatePayment_runs (db : DB) (d : Draw) (p : Payment.t) (data : PartialPayment.t) :
  consistent db -> outage d = false -> In p (payments db) ->
  (forall k, PartialPayment.bookingId data = Some k ->
     In k (map Booking.id (bookings db))
     /\ (k = Payment.bookingId p \/ ~ In k (map Payment.bookingId (payments db)))) ->
  payment_values_fit data ->
  Storage.updatePayment d (Payment.id p) data db
  = (Ok (Some (patch_payment p data (now d))),
     with_payments db
       (update_where (fun x => eq_ (Payment.id x) (Payment.id p))
                     (fun x => patch_payment x data (now d)) (payments db))).
Proof.
  intros Hc Ho Hin Hk Hfit. unfold Storage.updatePayment. cbv zeta.
  rewrite statement_runs; [| assumption |].
  - rewrite (updated_rows_one Payment.id); [reflexivity | | assumption].
    apply consistent_iff in Hc. apply (payment_ids db Hc).
  - apply update_payment_consistent; try assumption; try reflexivity.
    + cbn. destruct (PartialPayment.bookingId data) as [k |] eqn:E; cbn.
      * now apply Hk.
      * apply consistent_iff in Hc. pose proof (payment_booking db Hc) as H.
        rewrite Forall_forall in H. now apply H.
    + cbn. destruct (PartialPayment.bookingId data) as [k |] eqn:E; cbn; [| now left].
      now apply Hk.
    + apply patch_payment_columns; [| assumption]. apply consistent_iff in Hc.
      pose proof (payment_columns_ok db Hc) as H. rewrite Forall_forall in H. now apply H.
Qed.

Lemma overwrites_set_to {A} (stored : A -> A) (given : option A) (old : A) :
  overwrites stored given old (set_to stored given old).
Proof. now destruct given. Qed.

Lemma patch_booking_updated (b : Booking.t) (data : PartialBooking.t) (at_ : timestamp) :
  booking_updated data at_ b (patch_booking b data at_).
Proof. unfold booking_updated. cbn. repeat split; apply overwrites_set_to. Qed.

Lemma patch_payment_updated (p : Payment.t) (data : PartialPayment.t) (at_ : timestamp) :
  payment_updated data at_ p (patch_payment p data at_).
Proof. unfold payment_updated. cbn. repeat split; apply overwrites_set_to. Qed.

Lemma only_status_fits (status : varchar) :
  column_takes 20 status -> booking_values_fit (only_status status).
Proof. intros H. repeat split; cbn; intros v [=]. now subst. Qed.

Lemma only_payment_status_fits (status : varchar) :
  column_takes 20 status -> payment_values_fit (only_payment_status status).
Proof. intros H. repeat split; cbn; intros v [=]. now subst. Qed.

(** C9 (amended). With the store reachable: [updateBooking] and
    [updatePayment] answer not-found, and write nothing, when no row has the
    id. When one has, the foreign keys named in the partial record point at
    existing rows (for a payment, at a booking no other payment pays for),
    and the amount and the strings given are values the columns take (an
    amount below [10^8] once rounded to two decimals; a status of at most 20
    characters and a currency of at most 3, spaces in excess not counting),
    the row is replaced by itself with exactly the given fields overwritten,
    as the columns store them, and [updatedAt] stamped from the clock; the
    new version of the row comes last in the table, and every other row and
    table stays as it was. An update that only names a status the column
    takes is accepted, whatever the old and the new value, and one that
    names a status the column does not take is refused. Whenever an update
    answers a row, that row is a row of the table with exactly the given
    fields overwritten; and an update the store refuses throws and writes
    nothing. *)
Theorem partial_updates_overwrite :
  forall (db : DB) (d : Draw) (id : varchar),
    consistent db ->
    outage d = false ->
    (forall data,
       ~ In id (map Booking.id (bookings db)) ->
       Storage.updateBooking d id data db = (Ok None, db))
    /\ (forall data,
          ~ In id (map Payment.id (payments db)) ->
          Storage.updatePayment d id data db = (Ok None, db))
    /\ (forall data b,
          In b (bookings db) -> Booking.id b = id ->
          (forall c, PartialBooking.carId data = Some c -> In c (map Car.id (cars db))) ->
          (forall u, PartialBooking.userId data = Some u -> In u (map User.id (users db))) ->
          booking_values_fit data ->
          exists updated before later,
            Storage.updateBooking d id data db
            = (Ok (Some updated),
               mkDB (users db) (cars db) (before ++ later ++ [updated])
                    (payments db) (reviews db))
            /\ bookings db = before ++ b :: later
            /\ booking_updated data (now d) b updated)
    /\ (forall data p,
          In p (payments db) -> Payment.id p = id ->
          (forall k, PartialPayment.bookingId data = Some k ->
             In k (map Booking.id (bookings db))
             /\ (k = Payment.bookingId p
                 \/ ~ In k (map Payment.bookingId (payments db)))) ->
          payment_values_fit data ->
          exists updated before later,
            Storage.updatePayment d id data db
            = (Ok (Some updated),
               mkDB (users db) (cars db) (bookings db)
                    (before ++ later ++ [updated]) (reviews db))
            /\ payments db = before ++ p :: later
            /\ payment_updated data (now d) p updated)
    /\ (forall status b,
          In b (bookings db) -> Booking.id b = id ->
          (column_takes 20 status ->
           exists updated db',
             Storage.updateBooking d id (only_status status) db = (Ok (Some updated), db')
             /\ Booking.status updated = varchar_n 20 status)
          /\ (~ column_takes 20 status ->
              exists message,
                Storage.updateBooking d id (only_status status) db = (Throw message, db)))
    /\ (forall status p,
          In p (payments db) -> Payment.id p = id ->
          (column_takes 20 status ->
           exists updated db',
             Storage.updatePayment d id (only_payment_status status) db
             = (Ok (Some updated), db')
             /\ Payment.status updated = varchar_n 20 status)
          /\ (~ column_takes 20 status ->
              exists message,
                Storage.updatePayment d id (only_payment_status status) db
                = (Throw message, db)))
    /\ (forall data updated db',
          Storage.updateBooking d id data db = (Ok (Some updated), db') ->
          exists b, In b (bookings db) /\ Booking.id b = id
                    /\ booking_updated data (now d) b updated)
    /\ (forall data updated db',
          Storage.updatePayment d id data db = (Ok (Some updated), db') ->
          exists p, In p (payments db) /\ Payment.id p = id
                    /\ payment_updated data (now d) p updated)
    /\ (forall data message db',
          Storage.updateBooking d id data db = (Throw message, db') -> db' = db)
    /\ (forall data message db',
          Storage.updatePayment d id data db = (Throw message, db') -> db' = db).
Proof.
  intros db d id Hc Ho.
  split; [intros data; now apply updateBooking_absent |].
  split; [intros data; now apply updatePayment_absent |].
  split.
  { intros data b Hb <- Hcar Huser Hfit.
    rewrite updateBooking_runs by assumption.
    destruct (update_where_split Booking.id (fun x => patch_booking x data (now d))
                (bookings db) b) as [before [later [Hl [Hl' _]]]];
      [apply (booking_ids db (proj1 (consistent_iff db) Hc)) | assumption |].
    exists (patch_booking b data (now d)), before, later.
    rewrite Hl'. split; [reflexivity |]. split; [assumption |].
    apply patch_booking_updated. }
  split.
  { intros data p Hp <- Hk Hfit.
    rewrite updatePayment_runs by assumption.
    destruct (update_where_split Payment.id (fun x => patch_payment x data (now d))
                (payments db) p) as [before [later [Hl [Hl' _]]]];
      [apply (payment_ids db (proj1 (consistent_iff db) Hc)) | assumption |].
    exists (patch_payment p data (now d)), before, later.
    rewrite Hl'. split; [reflexivity |]. split; [assumption |].
    apply patch_payment_updated. }
  split.
  { intros status b Hb <-. split.
    - intros Htakes. eexists. eexists.
      rewrite updateBooking_runs; try assumption; try discriminate;
        [| now apply only_status_fits].
      split; reflexivity.
    - intros Hno. unfold Storage.updateBooking. cbv zeta.
      apply statement_refused. intros Hnext. apply Hno.
      apply consistent_iff in Hnext. pose proof (booking_columns_ok _ Hnext) as Hcol.
      rewrite Forall_forall in Hcol.
      specialize (Hcol (patch_booking b (only_status status) (now d))).
      unfold booking_columns in Hcol. rewrite !andb_true_iff in Hcol.
      apply varchar_n_stored. apply Hcol. cbn [with_bookings bookings].
      apply update_where_In. right. exists b. now rewrite eq_refl_true. }
  split.
  { intros status p Hp <-. split.
    - intros Htakes. eexists. eexists.
      rewrite updatePayment_runs; try assumption; try discriminate;
        [| now apply only_payment_status_fits].
      split; reflexivity.
    - intros Hno. unfold Storage.updatePayment. cbv zeta.
      apply statement_refused. intros Hnext. apply Hno.
      apply consistent_iff in Hnext. pose proof (payment_columns_ok _ Hnext) as Hcol.
      rewrite Forall_forall in Hcol.
      specialize (Hcol (patch_payment p (only_payment_status status) (now d))).
      unfold payment_columns in Hcol. rewrite !andb_true_iff in Hcol.
      apply varchar_n_stored. apply Hcol. cbn [with_payments payments].
      apply update_where_In. right. exists p. now rewrite eq_refl_true. }
  split.
  { intros data updated db'. unfold Storage.updateBooking. cbv zeta.
    match goal with
    | |- context [statement d ?n ?r] =>
        destruct (statement_cases d n r db) as [[H _] | [m H]]
    end; rewrite H; [| discriminate].
    intros [= Hrow _]. apply first_updated_row in Hrow.
    destruct Hrow as [b [Hb [Hid ->]]]. apply eq_true_iff in Hid.
    exists b. split; [assumption |]. split; [assumption |].
    apply patch_booking_updated. }
  split.
  { intros data updated db'. unfold Storage.updatePayment. cbv zeta.
    match goal with
    | |- context [statement d ?n ?r] =>
        destruct (statement_cases d n r db) as [[H _] | [m H]]
    end; rewrite H; [| discriminate].
    intros [= Hrow _]. apply first_updated_row in Hrow.
    destruct Hrow as [p [Hp [Hid ->]]]. apply eq_true_iff in Hid.
    exists p. split; [assumption |]. split; [assumption |].
    apply patch_payment_updated. }
  split.
  - intros data message db'. unfold Storage.updateBooking. cbv zeta.
    match goal with
    | |- context [statement d ?n ?r] =>
        destruct (statement_cases d n r db) as [[H _] | [m H]]
    end; rewrite H; [discriminate | now intros [= _ <-]].
  - intros data message db'. unfold Storage.updatePayment. cbv zeta.
    match goal with
    | |- context [statement d ?n ?r] =>
        destruct (statement_cases d n r db) as [[H _] | [m H]]
    end; rewrite H; [discriminate | now intros [= _ <-]].
Qed.

Lemma partial_updates_overwrite_witness :
  exists updated db',
    Storage.updateBooking draw_update "booking-1" (only_status "pending") june
    = (Ok (Some updated), db')
    /\ Booking.status booking1 = "confirmed"
    /\ Booking.status updated = "pending".
Proof.
  destruct (partial_updates_overwrite june draw_update "booking-1")
    as [_ [_ [_ [_ [Hstatus _]]]]].
  - vm_compute. reflexivity.
  - reflexivity.
  - destruct (Hstatus "pending" booking1) as [Hrun _].
    + now left.
    + reflexivity.
    + destruct Hrun as [updated [db' [Hrun Hs]]]; [left; reflexivity |].
      exists updated, db'. repeat split; assumption.
Defined.

(** A status of 23 characters is refused, and the booking is left as it
    was. *)
Example long_status_refused :
  exists message,
    Storage.updateBooking draw_update "booking-1"
      (only_status "awaiting_owner_approval") june
    = (Throw message, june).
Proof. eexists. vm_compute. reflexivity. Qed.

(** C9, as stated, fails: a partial update naming a car that does not
    exist is refused by the foreign key on [car_id]; it throws and the
    booking is not overwritten. *)
Lemma update_refused_by_foreign_key :
  ~ (forall (db : DB) (d : Draw) (id : varchar) (data : PartialBooking.t) (b : Booking.t),
       consistent db -> outage d = false ->
       In b (bookings db) -> Booking.id b = id ->
       exists updated db',
         Storage.updateBooking d id data db = (Ok (Some updated), db')
         /\ booking_updated data (now d) b updated).
Proof.
  intros H.
  destruct (H june draw_update "booking-1" to_ghost_car booking1)
    as [updated [db' [Hrun _]]].
  - vm_compute. reflexivity.
  - reflexivity.
  - now left.
  - reflexivity.
  - vm_compute in Hrun. discriminate.
Qed.

(** ** The car list *)

Lemma when_param_incl {P A} (param : option P) (keep : P -> A -> bool) (l : list A) :
  incl (when_param param keep l) l.
Proof.
  destruct param as [p |]; [| apply incl_refl].
  intros x Hx. now apply filter_In in Hx.
Qed.

Lemma get_api_cars_runs (toLowerCase : string -> string) (db : DB) (query : CarsQuery.t) :
  exists listed shown,
    Storage.getAllCars db = (Ok listed, db)
    /\ Routes.get_api_cars toLowerCase query db = (Ok (json (JCars shown)), db)
    /\ incl shown listed
    /\ (query = CarsQuery.none -> shown = listed).
Proof.
  eexists. eexists. split; [apply getAllCars_runs |].
  unfold Routes.get_api_cars, try_catch, bind. rewrite getAllCars_runs.
  cbv zeta. split; [reflexivity |]. split.
  - repeat (eapply incl_tran; [apply when_param_incl |]). apply incl_refl.
  - intros ->. reflexivity.
Qed.

(** C10. [getAllCars] answers exactly the cars whose [isAvailable] flag is
    true, in table order, each with the mean of its ratings ([0] when it has
    no review) and the number of its reviews; so a car whose flag is false
    is in no answer of [GET /api/cars], whatever the filters and the case
    tables, nor in the car list of the admin dashboard, whose [totalCars]
    counts the available cars only. *)
Theorem getAllCars_only_available :
  forall (db : DB),
    (exists listed,
        Storage.getAllCars db = (Ok listed, db)
        /\ map CarWithRating.car listed = filter Car.isAvailable (cars db)
        /\ (forall x, In x listed ->
              Car.isAvailable (CarWithRating.car x) = true
              /\ In (CarWithRating.car x) (cars db)
              /\ CarWithRating.averageRating x
                 = mean (ratings_of db (Car.id (CarWithRating.car x)))
              /\ CarWithRating.reviewCount x
                 = List.length (Storage.carReviews_of db (Car.id (CarWithRating.car x)))
              /\ (CarWithRating.reviewCount x = 0%nat ->
                  CarWithRating.averageRating x = Finite 0))
        /\ (forall c, In c (cars db) -> Car.isAvailable c = true ->
              In c (map CarWithRating.car listed))
        /\ (forall c, Car.isAvailable c = false -> ~ In c (map CarWithRating.car listed)))
    /\ (forall toLowerCase query,
          exists shown,
            Routes.get_api_cars toLowerCase query db = (Ok (json (JCars shown)), db)
            /\ (forall c, Car.isAvailable c = false ->
                  ~ In c (map CarWithRating.car shown))
            /\ (query = CarsQuery.none ->
                map CarWithRating.car shown = filter Car.isAvailable (cars db)))
    /\ (forall userId,
          role_is_not (first_row (filter (fun u => eq_ (User.id u) userId) (users db)))
                      "admin" = false ->
          exists carsWithOwners bookingsWithDetails stats,
            Routes.get_api_admin_dashboard userId db
            = (Ok (json (JAdminDashboard [] carsWithOwners bookingsWithDetails stats)), db)
            /\ map (fun x => CarWithRating.car (fst x)) carsWithOwners
               = filter Car.isAvailable (cars db)
            /\ AdminStats.totalCars stats
               = List.length (filter Car.isAvailable (cars db))).
Proof.
  intros db.
  assert (Hflag : filter (fun c => Bool.eqb (Car.isAvailable c) true) (cars db)
                  = filter Car.isAvailable (cars db)).
  { apply filter_ext. intros c. now destruct (Car.isAvailable c). }
  assert (Hcars :
            forall listed, Storage.getAllCars db = (Ok listed, db) ->
                           map CarWithRating.car listed = filter Car.isAvailable (cars db)).
  { intros listed. rewrite getAllCars_runs. intros [= <-].
    rewrite map_map. cbn [CarWithRating.car]. now rewrite map_id. }
  split; [| split].
  - eexists. split; [apply getAllCars_runs |].
    split; [apply Hcars, getAllCars_runs |].
    rewrite (Hcars _ (getAllCars_runs db)). rewrite Hflag. split; [| split].
    + intros x Hx. apply in_map_iff in Hx. destruct Hx as [c [<- Hc]].
      apply filter_In in Hc. destruct Hc as [Hc Hav]. cbn.
      repeat split; try assumption.
      unfold ratings_of. now intros ->%length_zero_iff_nil.
    + intros c Hc Hav. apply filter_In. now split.
    + intros c Hav Hin. apply filter_In in Hin. destruct Hin as [_ Hin]. congruence.
  - intros toLowerCase query.
    destruct (get_api_cars_runs toLowerCase db query)
      as [listed [shown [Hl [Hrun [Hincl Hnone]]]]].
    exists shown. split; [exact Hrun |]. split.
    + intros c Hav Hin. apply in_map_iff in Hin. destruct Hin as [x [<- Hx]].
      apply Hincl in Hx. apply (in_map CarWithRating.car) in Hx.
      rewrite (Hcars _ Hl) in Hx. apply filter_In in Hx. destruct Hx as [_ Hx]. congruence.
    + intros Hq. rewrite (Hnone Hq). now apply Hcars.
  - intros userId Hrole.
    destruct (get_api_admin_dashboard_runs db userId Hrole)
      as [allCars [carsWithOwners [bookingsWithDetails [Hl [Hrun Hfst]]]]].
    eexists. eexists. eexists. split; [exact Hrun |].
    cbn [AdminStats.totalCars]. rewrite <- (Hcars _ Hl), <- Hfst.
    split; [now rewrite map_map | now rewrite !length_map].
Qed.

(** On the sample data the table holds two cars and the admin sees one. *)
Example admin_misses_unavailable_car :
  List.length (cars june) = 2%nat
  /\ exists carsWithOwners bookingsWithDetails stats,
       Routes.get_api_admin_dashboard "dave" june
       = (Ok (json (JAdminDashboard [] carsWithOwners bookingsWithDetails stats)), june)
       /\ AdminStats.totalCars stats = 1%nat
       /\ map (fun x => Car.id (CarWithRating.car (fst x))) carsWithOwners = ["car-1"].
Proof.
  split; [reflexivity |]. eexists. eexists. eexists. vm_compute. repeat split.
Qed.

(** * Further properties of the engine *)

(** ** Availability over ranges and tables *)

Lemma available_answer (db : DB) (carId : varchar) (s e : timestamp) :
  answer (Storage.checkAvailability carId s e) db = Ok true
  <-> forall b, In b (bookings db) -> ~ conflicting b carId s e.
Proof.
  split; intros H.
  - apply answer_checkAvailability in H. now apply available_iff.
  - apply answer_checkAvailability. now apply available_iff.
Qed.

Lemma unavailable_answer (db : DB) (carId : varchar) (s e : timestamp) :
  answer (Storage.checkAvailability carId s e) db = Ok false
  <-> exists b, In b (bookings db) /\ conflicting b carId s e.
Proof.
  split; intros H.
  - apply answer_checkAvailability in H. now apply unavailable_iff.
  - apply answer_checkAvailability. now apply unavailable_iff.
Qed.

(** X1. Availability is monotone: a car that is available for a range is
    available for every range inside it, and stays available for the range
    when any booking is taken out of the table; bookings of other cars never
    matter. *)
Theorem availability_monotone :
  forall (db : DB) (carId : varchar) (s e s' e' : timestamp),
    s <= s' -> e' <= e ->
    answer (Storage.checkAvailability carId s e) db = Ok true ->
    answer (Storage.checkAvailability carId s' e') db = Ok true
    /\ (forall b before later,
          bookings db = before ++ b :: later ->
          answer (Storage.checkAvailability carId s e)
                 (with_bookings db (before ++ later)) = Ok true)
    /\ (forall b,
          Booking.carId b <> carId ->
          answer (Storage.checkAvailability carId s e)
                 (with_bookings db (bookings db ++ [b])) = Ok true).
Proof.
  intros db carId s e s' e' Hs He Ha.
  pose proof (proj1 (available_answer db carId s e) Ha) as Hfree. clear Ha.
  rename Hfree into Ha.
  split; [| split].
  - apply available_answer.
    intros b Hb [Hc [Hact [H1 H2]]]. apply (Ha b Hb).
    unfold conflicting, overlaps. repeat split; try assumption; lia.
  - intros b before later Hl. apply available_answer.
    cbn [with_bookings bookings]. intros x Hx. apply Ha. rewrite Hl.
    apply in_app_or in Hx. apply in_or_app. destruct Hx; [now left | right; now right].
  - intros b Hb. apply available_answer.
    cbn [with_bookings bookings]. intros x Hx. apply in_app_or in Hx.
    destruct Hx as [Hx | [<- | []]]; [now apply Ha |].
    intros [Hc _]. contradiction.
Qed.

Lemma availability_monotone_witness :
  answer (Storage.checkAvailability "car-1" (jun06 + 1) (jun07 - 1)) june = Ok true.
Proof.
  destruct (availability_monotone june "car-1" jun06 jun07 (jun06 + 1) (jun07 - 1))
    as [Hinside _].
  - vm_compute. discriminate.
  - vm_compute. discriminate.
  - reflexivity.
  - exact Hinside.
Defined.

(** ** When a booking request succeeds *)

Lemma insert_booking_consistent_inv (db : DB) (b : Booking.t) :
  consistent (with_bookings db (bookings db ++ [b])) ->
  ~ In (Booking.id b) (map Booking.id (bookings db))
  /\ In (Booking.carId b) (map Car.id (cars db))
  /\ In (Booking.userId b) (map User.id (users db)).
Proof.
  intros Hc. apply consistent_iff in Hc.
  pose proof (booking_ids _ Hc) as Hnd.
  pose proof (booking_car _ Hc) as Hcar.
  pose proof (booking_user _ Hc) as Huser.
  cbn [with_bookings bookings cars users] in *.
  rewrite map_app in Hnd. apply NoDup_remove_2 in Hnd. rewrite app_nil_r in Hnd.
  apply Forall_app in Hcar, Huser. destruct Hcar as [_ Hcar], Huser as [_ Huser].
  inversion Hcar; inversion Huser; subst. auto.
Qed.

Lemma insert_payment_consistent_inv (db : DB) (p : Payment.t) :
  consistent (with_payments db (payments db ++ [p])) ->
  ~ In (Payment.id p) (map Payment.id (payments db)).
Proof.
  intros Hc. apply consistent_iff in Hc. pose proof (payment_ids _ Hc) as Hnd.
  cbn [with_payments payments] in Hnd.
  rewrite map_app in Hnd. apply NoDup_remove_2 in Hnd. now rewrite app_nil_r in Hnd.
Qed.

(** X2. With the schema constraints holding, [POST /api/bookings] answers
    with a booking exactly when the availability check answers [true], the
    car and the caller exist, the ids drawn for the booking and the payment
    are unused, the connection holds for both inserts, and the amount is one
    the [decimal(10,2)] column takes: below [10^8] once rounded to two
    decimals. Neither the listing flag of the car, nor its price, nor the
    order of the dates is looked at. In every other case the answer is a
    400, and the tables are unchanged unless it was the payment insert that
    was refused. *)
Theorem post_api_bookings_succeeds_iff :
  forall (db : DB) (d1 d2 : Draw) (userId : varchar) (body : BookingBody.t),
    consistent db ->
    ((exists booking db',
         Routes.post_api_bookings d1 d2 userId body db
         = (Ok (json (JBooking booking)), db'))
     <-> (answer (Storage.checkAvailability (BookingBody.carId body)
                    (BookingBody.startDate body) (BookingBody.endDate body)) db
          = Ok true
          /\ In (BookingBody.carId body) (map Car.id (cars db))
          /\ In userId (map User.id (users db))
          /\ ~ In (uuid d1) (map Booking.id (bookings db))
          /\ ~ In (uuid d2) (map Payment.id (payments db))
          /\ outage d1 = false /\ outage d2 = false
          /\ (Qabs (round2 (BookingBody.totalCost body)) < 100000000)%Q))
    /\ (exists response db',
          Routes.post_api_bookings d1 d2 userId body db = (Ok response, db')
          /\ (Response.status response = 200%nat \/ Response.status response = 400%nat)
          /\ (Response.status response = 400%nat ->
              db' = db
              \/ db' = with_bookings db
                         (bookings db
                          ++ [new_booking d1 (Routes.bookingData_of userId body)]))).
Proof.
  intros db d1 d2 userId body Hc. split.
  - split.
    + intros [booking [db' Hrun]].
      destruct (post_api_bookings_succeeded db db' d1 d2 userId body booking Hc Hrun)
        as [_ [_ [_ [_ [_ Hfit]]]]].
      rewrite post_api_bookings_runs in Hrun.
      destruct (List.length _ =? 0)%nat eqn:Ha; cbn [negb] in Hrun; [| discriminate].
      unfold Storage.createBooking in Hrun.
      match type of Hrun with
      | context [statement d1 ?n ?r db] =>
          destruct (statement_cases d1 n r db) as [[H1 [Ho1 Hc1]] | [m1 H1]]
      end; rewrite H1 in Hrun; [| discriminate].
      unfold Storage.createPayment in Hrun.
      match type of Hrun with
      | context [statement d2 ?n ?r ?db1] =>
          destruct (statement_cases d2 n r db1) as [[H2 [Ho2 Hc2]] | [m2 H2]]
      end; rewrite H2 in Hrun; [| discriminate].
      apply insert_booking_consistent_inv in Hc1. cbn in Hc1.
      apply insert_payment_consistent_inv in Hc2. cbn in Hc2.
      split; [now apply answer_checkAvailability |]. unfold storable in Hfit. tauto.
    + intros [Ha [Hcar [Huser [Hb [Hp [Ho1 [Ho2 Hfit]]]]]]].
      destruct (post_api_bookings_accepted db d1 d2 userId body) as [Hrun _];
        try assumption.
      eexists. eexists. exact Hrun.
  - rewrite post_api_bookings_runs.
    destruct (negb _).
    { eexists. eexists. split; [reflexivity |]. cbn. auto. }
    unfold Storage.createBooking.
    match goal with
    | |- context [statement d1 ?n ?r db] =>
        destruct (statement_cases d1 n r db) as [[H1 _] | [m1 H1]]
    end; rewrite H1.
    2:{ eexists. eexists. split; [reflexivity |]. cbn. auto. }
    unfold Storage.createPayment.
    match goal with
    | |- context [statement d2 ?n ?r ?db1] =>
        destruct (statement_cases d2 n r db1) as [[H2 _] | [m2 H2]]
    end; rewrite H2.
    + eexists. eexists. split; [reflexivity |]. cbn. split; [auto | discriminate].
    + eexists. eexists. split; [reflexivity |]. cbn. auto.
Qed.

Lemma post_api_bookings_succeeds_iff_witness :
  ~ exists booking db',
      Routes.post_api_bookings draw_booking2 draw_payment2 "bob" body_ghost june
      = (Ok (json (JBooking booking)), db').
Proof.
  destruct (post_api_bookings_succeeds_iff june draw_booking2 draw_payment2 "bob" body_ghost)
    as [[Honly _] _].
  - vm_compute. reflexivity.
  - intros H. apply Honly in H. destruct H as [_ [Hcar _]].
    simpl in Hcar. intuition discriminate.
Defined.

(** A request for 123456789 is answered 400: the column holds amounts below
    [10^8]. *)
Example amount_out_of_range :
  exists message,
    Routes.post_api_bookings draw_booking2 draw_payment2 "bob"
      (BookingBody.mk "car-1" jun06 jun07 (123456789 # 1)) june
    = (Ok (status_json 400 (JMessage message)), june).
Proof. eexists. vm_compute. reflexivity. Qed.

(** X3. Once [POST /api/bookings] has answered with a booking, a range is
    available for a car exactly when it was available before and is not a
    range of the booked car that overlaps the booked dates: the new booking
    blocks its own car over its own dates, and nothing else. *)
Theorem booking_blocks_its_range :
  forall (db db' : DB) (d1 d2 : Draw) (userId : varchar) (body : BookingBody.t)
         (booking : Booking.t),
    consistent db ->
    Routes.post_api_bookings d1 d2 userId body db = (Ok (json (JBooking booking)), db') ->
    forall carId s e,
      answer (Storage.checkAvailability carId s e) db' = Ok true
      <-> (answer (Storage.checkAvailability carId s e) db = Ok true
           /\ ~ (carId = BookingBody.carId body
                 /\ overlaps (BookingBody.startDate body) (BookingBody.endDate body) s e)).
Proof.
  intros db db' d1 d2 userId body booking Hc Hrun carId s e.
  destruct (post_api_bookings_succeeded db db' d1 d2 userId body booking Hc Hrun)
    as [_ [Hb [Hdb _]]].
  rewrite !available_answer. rewrite Hdb. cbn [bookings]. split.
  - intros H. split.
    + intros b Hin. apply H, in_or_app. now left.
    + intros [-> Hov]. apply (H booking).
      * apply in_or_app. right. now left.
      * subst booking. unfold conflicting, active_status. cbn. auto.
  - intros [Hold Hnew] b Hin. apply in_app_or in Hin.
    destruct Hin as [Hin | [<- | []]]; [now apply Hold |].
    subst booking. intros [Hcar [_ Hov]]. cbn in Hcar, Hov. apply Hnew. now split.
Qed.

Lemma june_books_car1 :
  exists booking db',
    Routes.post_api_bookings draw_booking2 draw_payment2 "bob" body_free june
    = (Ok (json (JBooking booking)), db').
Proof.
  destruct (post_api_bookings_accepted june draw_booking2 draw_payment2 "bob" body_free)
    as [Hrun _].
  - vm_compute. reflexivity.
  - reflexivity.
  - simpl. tauto.
  - simpl. tauto.
  - simpl. intuition discriminate.
  - simpl. intuition discriminate.
  - reflexivity.
  - reflexivity.
  - reflexivity.
  - eexists. eexists. exact Hrun.
Defined.

Lemma booking_blocks_its_range_witness :
  exists booking db',
    Routes.post_api_bookings draw_booking2 draw_payment2 "bob" body_free june
    = (Ok (json (JBooking booking)), db')
    /\ answer (Storage.checkAvailability "car-1" jun07 (jun07 + 1)) db' <> Ok true.
Proof.
  destruct june_books_car1 as [booking [db' Hrun]].
  exists booking, db'. split; [exact Hrun |]. intros Ha.
  apply (booking_blocks_its_range june db' draw_booking2 draw_payment2 "bob" body_free
           booking) in Ha; [| vm_compute; reflexivity | exact Hrun].
  destruct Ha as [_ Hn]. apply Hn. split; [reflexivity |].
  unfold overlaps. vm_compute. split; discriminate.
Defined.

(** X4. What [POST /api/bookings] has created can be read back: the booking
    by its id, its payment by the booking id, with the amount of the
    booking, and the booking is among the caller's bookings. *)
Theorem created_booking_is_read_back :
  forall (db db' : DB) (d1 d2 : Draw) (userId : varchar) (body : BookingBody.t)
         (booking : Booking.t),
    consistent db ->
    Routes.post_api_bookings d1 d2 userId body db = (Ok (json (JBooking booking)), db') ->
    Storage.getBookingById (Booking.id booking) db' = (Ok (Some booking), db')
    /\ (exists payment,
          Storage.getPaymentByBookingId (Booking.id booking) db' = (Ok (Some payment), db')
          /\ Payment.amount payment = Booking.totalCost booking
          /\ Payment.status payment = "pending")
    /\ (exists mine,
          Storage.getBookingsByUser userId db' = (Ok mine, db') /\ In booking mine).
Proof.
  intros db db' d1 d2 userId body booking Hc Hrun.
  destruct (post_api_bookings_succeeded db db' d1 d2 userId body booking Hc Hrun)
    as [_ [Hb [Hdb [Hfresh [Hone _]]]]].
  split; [| split].
  - unfold Storage.getBookingById, select. f_equal. f_equal.
    rewrite Hdb. cbn [bookings]. rewrite filter_app.
    rewrite (filter_key_absent Booking.id) by assumption.
    cbn. now rewrite eq_refl_true.
  - eexists. unfold Storage.getPaymentByBookingId, select.
    fold (payments_of db' (Booking.id booking)). rewrite Hone.
    split; [reflexivity |]. subst booking. split; reflexivity.
  - eexists. split; [reflexivity |].
    apply (Permutation_in _ (Permutation_sym (orderBy_desc_permutation _ _))).
    apply filter_In. rewrite Hdb. cbn [bookings]. split.
    + apply in_or_app. right. now left.
    + subst booking. cbn. apply eq_refl_true.
Qed.

Lemma created_booking_is_read_back_witness :
  exists booking db',
    Routes.post_api_bookings draw_booking2 draw_payment2 "bob" body_free june
    = (Ok (json (JBooking booking)), db')
    /\ Storage.getBookingById (Booking.id booking) db' = (Ok (Some booking), db').
Proof.
  destruct june_books_car1 as [booking [db' Hrun]].
  exists booking, db'. split; [exact Hrun |].
  apply (created_booking_is_read_back june db' draw_booking2 draw_payment2 "bob"
           body_free booking); [vm_compute; reflexivity | exact Hrun].
Defined.

(** X5. Setting the status of a booking to cancelled or completed is always
    accepted (store reachable) and takes the booking out of every
    availability answer: afterwards a range is available for a car exactly
    when it is with the booking removed from the table. *)
Theorem cancelling_frees_the_range :
  forall (db : DB) (d : Draw) (b : Booking.t) (status : varchar),
    consistent db ->
    outage d = false ->
    In b (bookings db) ->
    status = "cancelled" \/ status = "completed" ->
    exists updated db' before later,
      Storage.updateBooking d (Booking.id b) (only_status status) db
      = (Ok (Some updated), db')
      /\ bookings db = before ++ b :: later
      /\ Booking.status updated = status
      /\ forall carId s e,
           answer (Storage.checkAvailability carId s e) db'
           = answer (Storage.checkAvailability carId s e)
                    (with_bookings db (before ++ later)).
Proof.
  intros db d b status Hc Ho Hb Hs.
  destruct (update_where_split Booking.id
              (fun x => patch_booking x (only_status status) (now d)) (bookings db) b)
    as [before [later [Hl [Hl' _]]]];
    [apply (booking_ids db (proj1 (consistent_iff db) Hc)) | assumption |].
  assert (Hstored : varchar_n 20 status = status) by (destruct Hs as [-> | ->]; reflexivity).
  eexists. eexists. exists before, later.
  rewrite updateBooking_runs; try assumption; try discriminate.
  2:{ apply only_status_fits. left. destruct Hs as [-> | ->]; reflexivity. }
  split; [reflexivity |]. split; [assumption |]. split; [exact Hstored |].
  intros carId s e. unfold answer. rewrite !checkAvailability_runs. cbn [fst].
  f_equal. f_equal. f_equal. unfold Storage.overlappingBookings.
  cbn [with_bookings bookings]. rewrite Hl', !filter_app. cbn [filter].
  cbn [patch_booking only_status PartialBooking.status set_to keep Booking.status
       Booking.carId Booking.startDate Booking.endDate PartialBooking.carId
       PartialBooking.startDate PartialBooking.endDate].
  rewrite Hstored.
  destruct Hs as [-> | ->]; cbn; now rewrite andb_false_r, app_nil_r.
Qed.

Lemma cancelling_frees_the_range_witness :
  exists updated db',
    Storage.updateBooking draw_update "booking-1" (only_status "cancelled") june
    = (Ok (Some updated), db')
    /\ answer (Storage.checkAvailability "car-1" jun01 jun05) db' = Ok true.
Proof.
  destruct (cancelling_frees_the_range june draw_update booking1 "cancelled")
    as [updated [db' [before [later [Hrun [Hl [_ Hfree]]]]]]].
  - vm_compute. reflexivity.
  - reflexivity.
  - now left.
  - now left.
  - exists updated, db'. split; [exact Hrun |]. rewrite Hfree.
    destruct before as [|x before]; [| destruct before; discriminate].
    injection Hl as <-. reflexivity.
Defined.

(** ** Cars: who may change them, and what a change does *)

Lemma car_lookup (db : DB) (c : Car.t) :
  consistent db -> In c (cars db) ->
  first_row (filter (fun x => eq_ (Car.id x) (Car.id c)) (cars db)) = Some c.
Proof.
  intros Hc Hin. rewrite (selected_unique Car.id); [reflexivity | | assumption].
  apply (car_ids db (proj1 (consistent_iff db) Hc)).
Qed.

Lemma car_lookup_absent (db : DB) (id : varchar) :
  ~ In id (map Car.id (cars db)) ->
  first_row (filter (fun x => eq_ (Car.id x) id) (cars db)) = None.
Proof. intros H. now rewrite (filter_key_absent Car.id). Qed.

Lemma put_api_cars_id_runs (d : Draw) (userId id : varchar) (body : PartialCar.t)
      (db : DB) :
  Routes.put_api_cars_id d userId id body db =
  match first_row (filter (fun c => eq_ (Car.id c) id) (cars db)) with
  | None => (Ok (status_json 404 (JMessage "Car not found")), db)
  | Some car =>
      if negb (eq_ (Car.ownerId car) userId)
      then (Ok (status_json 403 (JMessage "Not authorized")), db)
      else
        match Storage.updateCar d id body db with
        | (Ok updatedCar, db') => (Ok (json (JCar updatedCar)), db')
        | (Throw message, db') =>
            (Ok (status_json 400 (JMessage (message_or message "Failed to update car"))),
             db')
        end
  end.
Proof.
  unfold Routes.put_api_cars_id, try_catch.
  unfold bind at 1, Storage.getCarById, select at 1.
  destruct (first_row _) as [car |]; [| reflexivity].
  destruct (negb _); [reflexivity |].
  unfold bind. now destruct (Storage.updateCar d id body db) as [[c | m] db'].
Qed.

Lemma delete_api_cars_id_runs (d : Draw) (userId id : varchar) (db : DB) :
  Routes.delete_api_cars_id d userId id db =
  match first_row (filter (fun c => eq_ (Car.id c) id) (cars db)) with
  | None => (Ok (status_json 404 (JMessage "Car not found")), db)
  | Some car =>
      if negb (eq_ (Car.ownerId car) userId)
      then (Ok (status_json 403 (JMessage "Not authorized")), db)
      else
        match Storage.deleteCar d id db with
        | (Ok _, db') => (Ok (json (JMessage "Car deleted successfully")), db')
        | (Throw _, db') =>
            (Ok (status_json 500 (JMessage "Failed to delete car")), db')
        end
  end.
Proof.
  unfold Routes.delete_api_cars_id, try_catch.
  unfold bind at 1, Storage.getCarById, select at 1.
  destruct (first_row _) as [car |]; [| reflexivity].
  destruct (negb _); [reflexivity |].
  unfold bind. now destruct (Storage.deleteCar d id db) as [[c | m] db'].
Qed.

(** X6. [PUT /api/cars/:id] and [DELETE /api/cars/:id] answer 404 when no
    car has the id and 403 when the car belongs to someone else than the
    caller, whatever the caller's role; in both cases nothing is written. *)
Theorem car_mutation_needs_owner_of_record :
  forall (db : DB) (d : Draw) (userId id : varchar) (body : PartialCar.t),
    consistent db ->
    (~ In id (map Car.id (cars db)) ->
     Routes.put_api_cars_id d userId id body db
     = (Ok (status_json 404 (JMessage "Car not found")), db)
     /\ Routes.delete_api_cars_id d userId id db
        = (Ok (status_json 404 (JMessage "Car not found")), db))
    /\ (forall c,
          In c (cars db) -> Car.id c = id -> Car.ownerId c <> userId ->
          Routes.put_api_cars_id d userId id body db
          = (Ok (status_json 403 (JMessage "Not authorized")), db)
          /\ Routes.delete_api_cars_id d userId id db
             = (Ok (status_json 403 (JMessage "Not authorized")), db)).
Proof.
  intros db d userId id body Hc. split.
  - intros Hid. rewrite put_api_cars_id_runs, delete_api_cars_id_runs.
    now rewrite car_lookup_absent.
  - intros c Hin <- Hown. apply eq_false_iff in Hown.
    rewrite put_api_cars_id_runs, delete_api_cars_id_runs.
    rewrite car_lookup by assumption. now rewrite Hown.
Qed.

Lemma car_mutation_needs_owner_of_record_witness :
  Routes.delete_api_cars_id draw_update "carol" "car-1" june
  = (Ok (status_json 403 (JMessage "Not authorized")), june).
Proof.
  destruct (car_mutation_needs_owner_of_record june draw_update "carol" "car-1" unlist)
    as [_ H].
  - vm_compute. reflexivity.
  - apply (H car1); [now left | reflexivity | discriminate].
Defined.

Lemma Forall_filter {A} (P : A -> Prop) (f : A -> bool) (l : list A) :
  Forall P l -> Forall P (filter f l).
Proof.
  rewrite !Forall_forall. intros H x Hx. apply filter_In in Hx. now apply H.
Qed.

Lemma filter_excluded {A} (f : A -> bool) (l : list A) :
  filter f (filter (fun x => negb (f x)) l) = [].
Proof.
  induction l as [|a r IH]; [reflexivity |]. cbn [filter].
  destruct (f a) eqn:E; cbn [negb filter]; [assumption | now rewrite E].
Qed.

Lemma delete_car_cascade_consistent (id : varchar) (db : DB) :
  consistent db -> consistent (delete_car_cascade id db).
Proof.
  intros Hc. unfold delete_car_cascade.
  destruct (refers (map Car.id (cars db)) id); [| assumption].
  apply consistent_iff in Hc. apply consistent_iff.
  pose proof (booking_ids db Hc) as Hbids.
  pose proof (booking_car db Hc) as Hbcar. rewrite Forall_forall in Hbcar.
  pose proof (review_car db Hc) as Hrcar. rewrite Forall_forall in Hrcar.
  pose proof (payment_booking db Hc) as Hpb. rewrite Forall_forall in Hpb.
  destruct Hc. constructor; cbn [users cars bookings payments reviews];
    try assumption; try (now apply selected_keys_distinct); try (now apply Forall_filter).
  - apply Forall_forall. intros b Hb. apply filter_In in Hb. destruct Hb as [Hb Hkeep].
    apply negb_true_iff, eq_false_iff in Hkeep.
    specialize (Hbcar b Hb). apply in_map_iff in Hbcar. destruct Hbcar as [c [Hid Hcin]].
    apply in_map_iff. exists c. split; [assumption |]. apply filter_In. split; [assumption |].
    apply negb_true_iff, eq_false_iff. congruence.
  - apply Forall_forall. intros p Hp. apply filter_In in Hp. destruct Hp as [Hp Hkeep].
    apply negb_true_iff, refers_not_In in Hkeep.
    specialize (Hpb p Hp). apply in_map_iff in Hpb. destruct Hpb as [b [Hid Hb]].
    apply in_map_iff. exists b. split; [assumption |]. apply filter_In. split; [assumption |].
    apply negb_true_iff. destruct (eq_ (Booking.carId b) id) eqn:E; [| reflexivity].
    exfalso. apply Hkeep. rewrite <- Hid. apply in_map. apply filter_In. now split.
  - apply Forall_forall. intros r Hr. apply filter_In in Hr. destruct Hr as [Hr Hkeep].
    apply negb_true_iff, eq_false_iff in Hkeep.
    specialize (Hrcar r Hr). apply in_map_iff in Hrcar. destruct Hrcar as [c [Hid Hcin]].
    apply in_map_iff. exists c. split; [assumption |]. apply filter_In. split; [assumption |].
    apply negb_true_iff, eq_false_iff. congruence.
Qed.

(** X7. When its owner deletes a car (store reachable), the answer is 200
    and the delete cascades: the car is gone, with exactly its bookings, its
    reviews and the payments of its bookings; users, other cars, their
    bookings, reviews and payments stay; the schema constraints still hold;
    and the id is afterwards available for every range and rated 0, like
    any id that names no car. *)
Theorem delete_api_cars_cascades :
  forall (db : DB) (d : Draw) (userId : varchar) (c : Car.t),
    consistent db ->
    outage d = false ->
    In c (cars db) ->
    Car.ownerId c = userId ->
    exists db',
      Routes.delete_api_cars_id d userId (Car.id c) db
      = (Ok (json (JMessage "Car deleted successfully")), db')
      /\ consistent db'
      /\ users db' = users db
      /\ (forall x, In x (cars db') <-> In x (cars db) /\ x <> c)
      /\ (forall b, In b (bookings db') <-> In b (bookings db) /\ Booking.carId b <> Car.id c)
      /\ (forall r, In r (reviews db') <-> In r (reviews db) /\ Review.carId r <> Car.id c)
      /\ (forall p, In p (payments db')
                    <-> In p (payments db)
                        /\ exists b, In b (bookings db')
                                     /\ Booking.id b = Payment.bookingId p)
      /\ (forall s e, Storage.checkAvailability (Car.id c) s e db' = (Ok true, db'))
      /\ Storage.getAverageRating (Car.id c) db' = (Ok (Finite 0), db').
Proof.
  intros db d userId c Hc Ho Hin Hown.
  pose proof (delete_car_cascade_consistent (Car.id c) db Hc) as Hc'.
  exists (delete_car_cascade (Car.id c) db). split.
  { rewrite delete_api_cars_id_runs, car_lookup by assumption.
    rewrite Hown, eq_refl_true. cbn [negb].
    unfold Storage.deleteCar. now rewrite statement_runs. }
  split; [assumption |].
  assert (Hex : refers (map Car.id (cars db)) (Car.id c) = true)
    by (apply refers_In; now apply in_map).
  pose proof (proj1 (consistent_iff db) Hc) as HC.
  unfold delete_car_cascade in *. rewrite Hex in *.
  cbn [users cars bookings payments reviews].
  split; [reflexivity |].
  assert (Hbook : forall b, In b (filter (fun b => negb (eq_ (Booking.carId b) (Car.id c)))
                                         (bookings db))
                            <-> In b (bookings db) /\ Booking.carId b <> Car.id c).
  { intros b. rewrite filter_In, negb_true_iff, eq_false_iff. tauto. }
  split; [| split; [exact Hbook | split; [| split]]].
  - intros x. rewrite filter_In, negb_true_iff, eq_false_iff. split.
    + intros [Hx Hne]. split; [assumption |]. intros ->. now apply Hne.
    + intros [Hx Hne]. split; [assumption |]. intros Hid. apply Hne.
      apply (NoDup_map_injective Car.id (cars db)); try assumption. apply (car_ids db HC).
  - intros r. rewrite filter_In, negb_true_iff, eq_false_iff. tauto.
  - intros p. rewrite filter_In, negb_true_iff, refers_not_In. split.
    + intros [Hp Hkeep]. split; [assumption |].
      pose proof (payment_booking db HC) as Hfk. rewrite Forall_forall in Hfk.
      specialize (Hfk p Hp). apply in_map_iff in Hfk. destruct Hfk as [b [Hid Hb]].
      exists b. split; [| assumption]. apply Hbook. split; [assumption |].
      intros Hcar. apply Hkeep. rewrite <- Hid. apply in_map, filter_In.
      split; [assumption | now apply eq_true_iff].
    + intros [Hp [b [Hb Hid]]]. split; [assumption |]. intros Hgone.
      apply Hbook in Hb. destruct Hb as [Hb Hcar].
      apply in_map_iff in Hgone. destruct Hgone as [b' [Hid' Hb']].
      apply filter_In in Hb'. destruct Hb' as [Hb' Hcar']. apply eq_true_iff in Hcar'.
      assert (b' = b).
      { apply (NoDup_map_injective Booking.id (bookings db)); try assumption;
          [apply (booking_ids db HC) | congruence]. }
      subst b'. contradiction.
  - split.
    + intros s e. apply checkAvailability_unknown_car; [assumption |].
      cbn [cars]. intros Hid. apply in_map_iff in Hid. destruct Hid as [x [Hid Hx]].
      apply filter_In in Hx. destruct Hx as [_ Hne].
      apply negb_true_iff, eq_false_iff in Hne. contradiction.
    + rewrite getAverageRating_runs. f_equal. f_equal.
      unfold Storage.carReviews_of. cbn [reviews].
      now rewrite (filter_excluded (fun r => eq_ (Review.carId r) (Car.id c))).
Qed.

Lemma delete_api_cars_cascades_witness :
  exists db',
    Routes.delete_api_cars_id draw_update "alice" "car-1" june
    = (Ok (json (JMessage "Car deleted successfully")), db')
    /\ consistent db'.
Proof.
  destruct (delete_api_cars_cascades june draw_update "alice" car1)
    as [db' [Hrun [Hc' _]]].
  - vm_compute. reflexivity.
  - reflexivity.
  - now left.
  - reflexivity.
  - exists db'. split; assumption.
Defined.

Lemma insert_car_consistent (db : DB) (c : Car.t) :
  consistent db ->
  ~ In (Car.id c) (map Car.id (cars db)) ->
  ~ In (Car.registrationNumber c) (map Car.registrationNumber (cars db)) ->
  In (Car.ownerId c) (map User.id (users db)) ->
  car_columns c = true ->
  consistent (with_cars db (cars db ++ [c])).
Proof.
  intros Hc Hid Hreg Hown Hcol. apply consistent_iff in Hc. apply consistent_iff.
  destruct Hc. constructor; cbn [with_cars users cars bookings payments reviews];
    try assumption.
  - rewrite map_app. now apply NoDup_snoc.
  - rewrite map_app. now apply NoDup_snoc.
  - apply Forall_app. split; [assumption | now repeat constructor].
  - rewrite map_app. now apply Forall_In_grows.
  - rewrite map_app. now apply Forall_In_grows.
  - apply Forall_app. split; [assumption | now repeat constructor].
Qed.

Lemma insert_car_consistent_inv (db : DB) (c : Car.t) :
  consistent (with_cars db (cars db ++ [c])) ->
  ~ In (Car.id c) (map Car.id (cars db))
  /\ ~ In (Car.registrationNumber c) (map Car.registrationNumber (cars db))
  /\ car_columns c = true.
Proof.
  intros Hc. apply consistent_iff in Hc.
  pose proof (car_ids _ Hc) as H1. pose proof (car_registrations _ Hc) as H2.
  pose proof (car_columns_ok _ Hc) as H3.
  cbn [with_cars cars] in *. rewrite map_app in H1, H2.
  apply NoDup_remove_2 in H1, H2. rewrite app_nil_r in H1, H2.
  apply Forall_app in H3. destruct H3 as [_ H3]. inversion H3; subst. now repeat split.
Qed.

Lemma caller_exists (db : DB) (userId role : varchar) :
  role_is_not (first_row (filter (fun u => eq_ (User.id u) userId) (users db))) role
  = false ->
  In userId (map User.id (users db)).
Proof.
  destruct (filter _ (users db)) as [|u r] eqn:F; [discriminate |]. intros _.
  assert (Hu : In u (filter (fun u => eq_ (User.id u) userId) (users db)))
    by (rewrite F; now left).
  apply filter_In in Hu. destruct Hu as [Hu Hid]. apply eq_true_iff in Hid.
  rewrite <- Hid. now apply in_map.
Qed.

Lemma insertCarSchema_parse_valid (c : InsertCar.t) :
  car_body_valid c -> insertCarSchema_parse c = Ok c.
Proof.
  unfold car_body_valid, insertCarSchema_parse.
  intros [H1 [H2 [H3 [H4 [H5 [H6 [H7 H8]]]]]]].
  apply Nat.leb_le in H1, H2, H3, H4, H5, H6.
  now rewrite H1, H2, H3, H4, H5, H6, H7, H8.
Qed.

Lemma insertCarSchema_parse_cases (c : InsertCar.t) :
  (car_body_valid c /\ insertCarSchema_parse c = Ok c)
  \/ (~ car_body_valid c /\ insertCarSchema_parse c = Throw "invalid car").
Proof.
  unfold car_body_valid, insertCarSchema_parse.
  match goal with |- context [if ?b then _ else _] => destruct b eqn:E end.
  - left. rewrite !andb_true_iff, !Nat.leb_le in E. tauto.
  - right. split; [| reflexivity]. intros H.
    assert (E' : true = false); [| discriminate]. rewrite <- E.
    symmetry. rewrite !andb_true_iff, !Nat.leb_le. tauto.
Qed.

Lemma valid_with_ownerId (body : InsertCar.t) (userId : varchar) :
  car_body_valid (with_ownerId body userId) <-> car_body_valid body.
Proof. reflexivity. Qed.

(** A string the schema accepts is stored as it is. *)
Lemma stored_as_sent (n : nat) (s : string) :
  (js_length s <= n)%nat -> varchar_n n s = s /\ fits n s = true.
Proof.
  intros H. assert (Hf : fits n s = true) by (apply js_length_fits; now apply Nat.leb_le).
  split; [now apply varchar_n_fits | assumption].
Qed.

Lemma posted_car_columns (d : Draw) (c : InsertCar.t) :
  car_body_valid c ->
  car_columns (new_car d c) = decimal_10_2 (round2 (InsertCar.pricePerDay c)).
Proof.
  intros [H1 [H2 [H3 [H4 [H5 [H6 [H7 H8]]]]]]]. unfold car_columns.
  cbn -[fits varchar_n int32 decimal_10_2 round2].
  destruct (stored_as_sent _ _ H1) as [-> ->], (stored_as_sent _ _ H2) as [-> ->],
    (stored_as_sent _ _ H3) as [-> ->], (stored_as_sent _ _ H4) as [-> ->],
    (stored_as_sent _ _ H5) as [-> ->], (stored_as_sent _ _ H6) as [-> ->].
  now rewrite H7, H8.
Qed.

Lemma post_api_cars_runs (d : Draw) (userId : varchar) (body : InsertCar.t) (db : DB) :
  Routes.post_api_cars d userId body db =
  if role_is_not (first_row (filter (fun u => eq_ (User.id u) userId) (users db))) "owner"
  then (Ok (status_json 403 (JMessage "Only owners can add cars")), db)
  else
    match insertCarSchema_parse (with_ownerId body userId) with
    | Throw message =>
        (Ok (status_json 400 (JMessage (message_or message "Failed to create car"))), db)
    | Ok carData =>
        match Storage.createCar d carData db with
        | (Ok car, db') => (Ok (json (JCar (Some car))), db')
        | (Throw message, db') =>
            (Ok (status_json 400 (JMessage (message_or message "Failed to create car"))),
             db')
        end
    end.
Proof.
  unfold Routes.post_api_cars, try_catch.
  unfold bind at 1, Storage.getUser, select at 1.
  destruct (role_is_not _ _); [reflexivity |].
  unfold bind, parsed. destruct (insertCarSchema_parse _) as [carData | message];
    [| reflexivity].
  now destruct (Storage.createCar d carData db) as [[c | m] db'].
Qed.

(** What a successful [POST /api/cars] has done. *)
Lemma post_api_cars_created (db db' : DB) (d : Draw) (userId : varchar)
      (body : InsertCar.t) (c : Car.t) :
  Routes.post_api_cars d userId body db = (Ok (json (JCar (Some c))), db') ->
  role_is_not (first_row (filter (fun u => eq_ (User.id u) userId) (users db))) "owner"
  = false
  /\ car_body_valid body
  /\ c = new_car d (with_ownerId body userId)
  /\ db' = with_cars db (cars db ++ [c])
  /\ consistent db'.
Proof.
  rewrite post_api_cars_runs. destruct (role_is_not _ _); [discriminate |].
  destruct (insertCarSchema_parse_cases (with_ownerId body userId)) as [[Hv ->] | [_ ->]];
    [| discriminate].
  unfold Storage.createCar.
  match goal with
  | |- context [statement d ?n ?r db] =>
      destruct (statement_cases d n r db) as [[H [_ Hc']] | [m H]]
  end; rewrite H; [| discriminate].
  intros [= <- <-].
  split; [reflexivity | split; [exact Hv | split; [reflexivity | split]]];
    [reflexivity | assumption].
Qed.

(** X8. [POST /api/cars] answers 403, writing nothing, unless the caller's
    stored role is owner. For an owner it creates the car exactly when the
    body passes [insertCarSchema] (strings within the lengths of their
    columns, year and seats within 32 bits), the price is one the
    [decimal(10,2)] column takes, the drawn id and the registration number
    are unused and the connection holds; any other request of an owner is
    answered 400 and writes nothing. A car it creates belongs to the
    caller, whatever owner the body names, holds the strings as sent and the
    price rounded to two decimals, and is appended to the table. *)
Theorem post_api_cars_owner_only :
  forall (db : DB) (d : Draw) (userId : varchar) (body : InsertCar.t),
    consistent db ->
    let caller := first_row (filter (fun u => eq_ (User.id u) userId) (users db)) in
    (role_is_not caller "owner" = true ->
     Routes.post_api_cars d userId body db
     = (Ok (status_json 403 (JMessage "Only owners can add cars")), db))
    /\ (role_is_not caller "owner" = false ->
        ((exists c db',
             Routes.post_api_cars d userId body db = (Ok (json (JCar (Some c))), db'))
         <-> (car_body_valid body
              /\ (Qabs (round2 (InsertCar.pricePerDay body)) < 100000000)%Q
              /\ ~ In (uuid d) (map Car.id (cars db))
              /\ ~ In (InsertCar.registrationNumber body)
                      (map Car.registrationNumber (cars db))
              /\ outage d = false))
        /\ ((forall c db',
               Routes.post_api_cars d userId body db <> (Ok (json (JCar (Some c))), db')) ->
            exists message,
              Routes.post_api_cars d userId body db
              = (Ok (status_json 400 (JMessage message)), db)))
    /\ (forall c db',
          Routes.post_api_cars d userId body db = (Ok (json (JCar (Some c))), db') ->
          Car.id c = uuid d
          /\ Car.ownerId c = userId
          /\ Car.brand c = InsertCar.brand body
          /\ Car.model c = InsertCar.model body
          /\ Car.year c = InsertCar.year body
          /\ Car.registrationNumber c = InsertCar.registrationNumber body
          /\ Car.carType c = InsertCar.carType body
          /\ Car.transmission c = InsertCar.transmission body
          /\ Car.fuelType c = InsertCar.fuelType body
          /\ Car.seats c = InsertCar.seats body
          /\ Car.pricePerDay c = round2 (InsertCar.pricePerDay body)
          /\ Car.isAvailable c = or_default (InsertCar.isAvailable body) true
          /\ db' = with_cars db (cars db ++ [c])).
Proof.
  intros db d userId body Hc caller. subst caller. split; [| split].
  - intros Hrole. now rewrite post_api_cars_runs, Hrole.
  - intros Hrole. split; [split |].
    + intros [c [db' Hrun]].
      destruct (post_api_cars_created db db' d userId body c Hrun)
        as [_ [Hv [-> [-> Hc']]]].
      rewrite post_api_cars_runs, Hrole in Hrun.
      rewrite (insertCarSchema_parse_valid _ (proj2 (valid_with_ownerId body userId) Hv))
        in Hrun.
      unfold Storage.createCar in Hrun.
      match type of Hrun with
      | context [statement d ?n ?r db] =>
          destruct (statement_cases d n r db) as [[H [Ho _]] | [m H]]
      end; rewrite H in Hrun; [| discriminate].
      apply insert_car_consistent_inv in Hc'. destruct Hc' as [Hid [Hreg Hcol]].
      rewrite posted_car_columns in Hcol by assumption.
      apply decimal_10_2_round2 in Hcol.
      pose proof Hv as [_ [_ [H3 _]]].
      cbn [new_car Car.id Car.registrationNumber with_ownerId
           InsertCar.registrationNumber] in Hid, Hreg.
      rewrite (proj1 (stored_as_sent _ _ H3)) in Hreg.
      split; [exact Hv |]. repeat split; assumption.
    + intros [Hv [Hfit [Hid [Hreg Ho]]]].
      rewrite post_api_cars_runs, Hrole.
      rewrite (insertCarSchema_parse_valid _ (proj2 (valid_with_ownerId body userId) Hv)).
      unfold Storage.createCar. rewrite statement_runs; [eauto | assumption |].
      apply insert_car_consistent; try assumption.
      * cbn. destruct Hv as [_ [_ [H3 _]]]. now rewrite (proj1 (stored_as_sent _ _ H3)).
      * cbn. now apply caller_exists with (role := "owner").
      * rewrite posted_car_columns by assumption. now apply decimal_10_2_round2.
    + intros Hnever. rewrite post_api_cars_runs, Hrole.
      destruct (insertCarSchema_parse_cases (with_ownerId body userId))
        as [[Hv Hp] | [_ Hp]]; rewrite Hp; [| eauto].
      unfold Storage.createCar.
      match goal with
      | |- context [statement d ?n ?r db] =>
          destruct (statement_cases d n r db) as [[H _] | [m H]]
      end; [| rewrite H; eauto].
      exfalso. eapply Hnever. rewrite post_api_cars_runs, Hrole, Hp.
      unfold Storage.createCar. rewrite H. reflexivity.
  - intros c db' Hrun.
    destruct (post_api_cars_created db db' d userId body c Hrun)
      as [_ [[H1 [H2 [H3 [H4 [H5 [H6 _]]]]]] [-> [-> _]]]].
    cbn. rewrite (proj1 (stored_as_sent _ _ H1)), (proj1 (stored_as_sent _ _ H2)),
      (proj1 (stored_as_sent _ _ H3)), (proj1 (stored_as_sent _ _ H4)),
      (proj1 (stored_as_sent _ _ H5)), (proj1 (stored_as_sent _ _ H6)).
    repeat split.
Qed.

Lemma post_api_cars_owner_only_witness :
  Routes.post_api_cars draw_car3 "bob" nexon june
  = (Ok (status_json 403 (JMessage "Only owners can add cars")), june).
Proof.
  apply (post_api_cars_owner_only june draw_car3 "bob").
  - vm_compute. reflexivity.
  - reflexivity.
Defined.

(** X9. A car [POST /api/cars] has created can be read back by its id and
    is among the caller's cars; unless the body set [isAvailable] to false
    it is listed by [getAllCars], with rating 0 and no review. *)
Theorem created_car_is_listed :
  forall (db db' : DB) (d : Draw) (userId : varchar) (body : InsertCar.t) (c : Car.t),
    consistent db ->
    Routes.post_api_cars d userId body db = (Ok (json (JCar (Some c))), db') ->
    Storage.getCarById (Car.id c) db' = (Ok (Some c), db')
    /\ (exists mine, Storage.getCarsByOwner userId db' = (Ok mine, db') /\ In c mine)
    /\ (InsertCar.isAvailable body <> Some false ->
        exists listed,
          Storage.getAllCars db' = (Ok listed, db')
          /\ In (CarWithRating.mk c (Finite 0) 0%nat) listed).
Proof.
  intros db db' d userId body c Hc Hrun.
  destruct (post_api_cars_created db db' d userId body c Hrun) as [_ [_ [-> [-> Hc']]]].
  apply insert_car_consistent_inv in Hc'. destruct Hc' as [Hfresh _].
  cbn [new_car Car.id] in Hfresh.
  assert (Hno : Storage.carReviews_of db (uuid d) = []).
  { unfold Storage.carReviews_of. apply (filter_key_absent Review.carId).
    intros Hin. apply Hfresh. apply in_map_iff in Hin. destruct Hin as [r [<- Hr]].
    pose proof (review_car db (proj1 (consistent_iff db) Hc)) as Hfk.
    rewrite Forall_forall in Hfk. now apply Hfk. }
  split; [| split].
  - unfold Storage.getCarById, select. cbn [with_cars cars new_car Car.id].
    rewrite filter_app, (filter_key_absent Car.id) by assumption.
    cbn. now rewrite eq_refl_true.
  - eexists. split; [reflexivity |]. cbn [with_cars cars]. apply filter_In. split.
    + apply in_or_app. right. now left.
    + cbn. apply eq_refl_true.
  - intros Hav. eexists. split; [apply getAllCars_runs |].
    apply in_map_iff. exists (new_car d (with_ownerId body userId)). split.
    + unfold ratings_of. cbn [new_car Car.id].
      change (Storage.carReviews_of (with_cars db _) (uuid d))
        with (Storage.carReviews_of db (uuid d)).
      now rewrite Hno.
    + apply filter_In. split.
      * cbn [with_cars cars]. apply in_or_app. right. now left.
      * cbn. destruct (InsertCar.isAvailable body) as [[|] |]; try reflexivity.
        now contradiction Hav.
Qed.

Lemma created_car_is_listed_witness :
  exists c db',
    Routes.post_api_cars draw_car3 "carol" nexon june = (Ok (json (JCar (Some c))), db')
    /\ Car.ownerId c = "carol"
    /\ Storage.getCarById (Car.id c) db' = (Ok (Some c), db').
Proof.
  exists (new_car draw_car3 (with_ownerId nexon "carol")).
  exists (with_cars june (cars june ++ [new_car draw_car3 (with_ownerId nexon "carol")])).
  assert (Hrun :
            Routes.post_api_cars draw_car3 "carol" nexon june
            = (Ok (json (JCar (Some (new_car draw_car3 (with_ownerId nexon "carol"))))),
               with_cars june
                 (cars june ++ [new_car draw_car3 (with_ownerId nexon "carol")])))
    by (vm_compute; reflexivity).
  split; [exact Hrun |]. split; [reflexivity |].
  apply (created_car_is_listed june _ draw_car3 "carol" nexon _);
    [vm_compute; reflexivity | exact Hrun].
Defined.

Lemma In_replaced {A B} (key : A -> B) (l1 l2 : list A) (a b : A) (k : B) :
  In k (map key (l1 ++ a :: l2)) ->
  key b = key a \/ k <> key a ->
  In k (map key (l1 ++ l2 ++ [b])).
Proof.
  rewrite !map_app. cbn [map]. rewrite !in_app_iff. cbn [In].
  intros [H | [H | H]] Hk; auto. destruct Hk as [Hk | Hk]; [| congruence].
  right. right. left. congruence.
Qed.

Lemma Forall_replaced {A} (P : A -> Prop) (l1 l2 : list A) (a b : A) :
  Forall P (l1 ++ a :: l2) -> P b -> Forall P (l1 ++ l2 ++ [b]).
Proof.
  intros H Hb. apply Forall_app in H. destruct H as [H1 H2]. inversion H2; subst.
  apply Forall_app. split; [assumption |]. apply Forall_app. split; [assumption |].
  now constructor.
Qed.

Lemma update_car_consistent (db : DB) (c : Car.t) (f : Car.t -> Car.t) :
  consistent db ->
  In c (cars db) ->
  (Car.id (f c) = Car.id c
   \/ (~ In (Car.id (f c)) (map Car.id (cars db))
       /\ ~ In (Car.id c) (map Booking.carId (bookings db))
       /\ ~ In (Car.id c) (map Review.carId (reviews db)))) ->
  In (Car.ownerId (f c)) (map User.id (users db)) ->
  (Car.registrationNumber (f c) = Car.registrationNumber c
   \/ ~ In (Car.registrationNumber (f c)) (map Car.registrationNumber (cars db))) ->
  car_columns (f c) = true ->
  consistent
    (with_cars db (update_where (fun x => eq_ (Car.id x) (Car.id c)) f (cars db))).
Proof.
  intros Hc Hin Hid Hown Hreg Hcol. apply consistent_iff in Hc. apply consistent_iff.
  pose proof (car_ids db Hc) as Hids.
  destruct (update_where_split Car.id f (cars db) c Hids Hin) as [l1 [l2 [Hl [Hl' _]]]].
  destruct Hc. constructor; cbn [with_cars users cars bookings payments reviews];
    try assumption; rewrite Hl'; rewrite Hl in *.
  - rewrite !map_app in *. cbn [map] in *.
    apply NoDup_replace with (a := Car.id c); [assumption |]. tauto.
  - rewrite !map_app in *. cbn [map] in *.
    now apply NoDup_replace with (a := Car.registrationNumber c).
  - now apply Forall_replaced with (a := c).
  - apply Forall_forall. intros b Hb. rewrite Forall_forall in booking_car0.
    apply In_replaced with (a := c); [now apply booking_car0 |].
    destruct Hid as [Hid | [_ [Hno _]]]; [now left | right].
    intros Heq. apply Hno. rewrite <- Heq. now apply in_map.
  - apply Forall_forall. intros r Hr. rewrite Forall_forall in review_car0.
    apply In_replaced with (a := c); [now apply review_car0 |].
    destruct Hid as [Hid | [_ [_ Hno]]]; [now left | right].
    intros Heq. apply Hno. rewrite <- Heq. now apply in_map.
  - now apply Forall_replaced with (a := c).
Qed.

Lemma patch_car_columns (c : Car.t) (data : PartialCar.t) (at_ : timestamp) :
  car_columns c = true -> car_values_fit data ->
  car_columns (patch_car c data at_) = true.
Proof.
  unfold car_columns. rewrite !andb_true_iff.
  intros [[[[[[[[H1 H2] H3] H4] H5] H6] H7] H8] H9].
  intros [F1 [F2 [F3 [F4 [F5 [F6 [F7 [F8 F9]]]]]]]]. cbn.
  repeat split;
    try (now apply column_takes_stored); try (now apply storable_stored).
  - destruct (PartialCar.year data) as [y |]; cbn; auto.
  - destruct (PartialCar.seats data) as [n |]; cbn; auto.
Qed.

Lemma patch_car_updated (c : Car.t) (data : PartialCar.t) (at_ : timestamp) :
  car_updated data at_ c (patch_car c data at_).
Proof. unfold car_updated. cbn. repeat split; apply overwrites_set_to. Qed.

(** What [updateCar] does to a car of the table when the store takes the
    new values. *)
Lemma updateCar_runs (db : DB) (d : Draw) (c : Car.t) (body : PartialCar.t) :
  consistent db -> outage d = false -> In c (cars db) ->
  PartialCar.createdAt body <> Some JsonNotADate ->
  (forall i, PartialCar.id body = Some i ->
     i = Car.id c
     \/ (~ In i (map Car.id (cars db))
         /\ ~ In (Car.id c) (map Booking.carId (bookings db))
         /\ ~ In (Car.id c) (map Review.carId (reviews db)))) ->
  (forall o, PartialCar.ownerId body = Some o -> In o (map User.id (users db))) ->
  (forall r, PartialCar.registrationNumber body = Some r ->
     varchar_n 50 r = Car.registrationNumber c
     \/ ~ In (varchar_n 50 r) (map Car.registrationNumber (cars db))) ->
  car_values_fit body ->
  exists before later,
    cars db = before ++ c :: later
    /\ Storage.updateCar d (Car.id c) body db
       = (Ok (Some (patch_car c body (now d))),
          mkDB (users db) (before ++ later ++ [patch_car c body (now d)])
               (bookings db) (payments db) (reviews db))
    /\ consistent (mkDB (users db) (before ++ later ++ [patch_car c body (now d)])
                        (bookings db) (payments db) (reviews db)).
Proof.
  intros Hc Ho Hin Hdate Hid Howner Hreg Hfit.
  pose proof (proj1 (consistent_iff db) Hc) as HC.
  destruct (update_where_split Car.id (fun x => patch_car x body (now d)) (cars db) c
              (car_ids db HC) Hin) as [before [later [Hl [Hl' Hrows]]]].
  exists before, later. split; [assumption |].
  assert (Hnext : consistent
                    (with_cars db
                       (update_where (fun x => eq_ (Car.id x) (Car.id c))
                                     (fun x => patch_car x body (now d)) (cars db)))).
  { apply update_car_consistent; try assumption; cbn.
    - destruct (PartialCar.id body) as [i |]; cbn; [now apply Hid | now left].
    - destruct (PartialCar.ownerId body) as [o |]; cbn; [now apply Howner |].
      pose proof (car_owner db HC) as Hfk. rewrite Forall_forall in Hfk. now apply Hfk.
    - destruct (PartialCar.registrationNumber body) as [r |]; cbn; [| now left].
      now apply Hreg.
    - apply patch_car_columns; [| assumption].
      pose proof (car_columns_ok db HC) as Hcol. rewrite Forall_forall in Hcol.
      now apply Hcol. }
  assert (Hrun : Storage.updateCar d (Car.id c) body db
                 = (Ok (Some (patch_car c body (now d))),
                    with_cars db
                      (update_where (fun x => eq_ (Car.id x) (Car.id c))
                                    (fun x => patch_car x body (now d)) (cars db)))).
  { unfold Storage.updateCar.
    destruct (PartialCar.createdAt body) as [[|] |]; try contradiction; cbv zeta;
      (rewrite statement_runs; [now rewrite Hrows | assumption | assumption]). }
  rewrite Hrun. rewrite Hl' in *. split; [reflexivity | exact Hnext].
Qed.

(** X10. When its owner updates a car, [PUT /api/cars/:id] hands the body
    to the store as it is. When the store takes it (an id named in the body
    is the car's own, or is unused while no booking and no review refers to
    the car; an owner named in the body exists; a registration number named
    in the body is the car's own or unused; strings, integers and price are
    values their columns take; [createdAt], if named, is null; the
    connection holds), the answer is the car rewritten by the body: every
    field the body names is overwritten, as the column stores it, the id and
    the owner among them; [createdAt] is kept unless the body names it, and
    is then emptied; [updatedAt] is stamped. The new version of the row
    comes last in the table; every other car and every other table is as
    before. A body whose [createdAt] is not null is answered 400 and
    nothing is written. *)
Theorem put_api_cars_id_updates :
  forall (db : DB) (d : Draw) (userId : varchar) (c : Car.t) (body : PartialCar.t),
    consistent db ->
    outage d = false ->
    In c (cars db) ->
    Car.ownerId c = userId ->
    (PartialCar.createdAt body <> Some JsonNotADate ->
     (forall i, PartialCar.id body = Some i ->
        i = Car.id c
        \/ (~ In i (map Car.id (cars db))
            /\ ~ In (Car.id c) (map Booking.carId (bookings db))
            /\ ~ In (Car.id c) (map Review.carId (reviews db)))) ->
     (forall o, PartialCar.ownerId body = Some o -> In o (map User.id (users db))) ->
     (forall r, PartialCar.registrationNumber body = Some r ->
        varchar_n 50 r = Car.registrationNumber c
        \/ ~ In (varchar_n 50 r) (map Car.registrationNumber (cars db))) ->
     car_values_fit body ->
     exists updated before later,
       Routes.put_api_cars_id d userId (Car.id c) body db
       = (Ok (json (JCar (Some updated))),
          mkDB (users db) (before ++ later ++ [updated]) (bookings db) (payments db)
               (reviews db))
       /\ cars db = before ++ c :: later
       /\ car_updated body (now d) c updated)
    /\ (PartialCar.createdAt body = Some JsonNotADate ->
        exists message,
          Routes.put_api_cars_id d userId (Car.id c) body db
          = (Ok (status_json 400 (JMessage message)), db)).
Proof.
  intros db d userId c body Hc Ho Hin Hown. split.
  - intros Hdate Hid Howner Hreg Hfit.
    destruct (updateCar_runs db d c body Hc Ho Hin Hdate Hid Howner Hreg Hfit)
      as [before [later [Hl [Hrun _]]]].
    exists (patch_car c body (now d)), before, later.
    split; [| split; [assumption | apply patch_car_updated]].
    rewrite put_api_cars_id_runs, car_lookup by assumption.
    rewrite Hown, eq_refl_true. cbn [negb]. now rewrite Hrun.
  - intros Hdate. rewrite put_api_cars_id_runs, car_lookup by assumption.
    rewrite Hown, eq_refl_true. cbn [negb]. unfold Storage.updateCar. rewrite Hdate.
    eexists. reflexivity.
Qed.

Lemma put_api_cars_id_updates_witness :
  exists updated db',
    Routes.put_api_cars_id draw_update "alice" "car-1" hand_to_carol june
    = (Ok (json (JCar (Some updated))), db')
    /\ Car.ownerId updated = "carol".
Proof.
  destruct (put_api_cars_id_updates june draw_update "alice" car1 hand_to_carol)
    as [Hdone _].
  - vm_compute. reflexivity.
  - reflexivity.
  - now left.
  - reflexivity.
  - destruct Hdone as [updated [before [later [Hrun [_ [_ [Hu _]]]]]]].
    + discriminate.
    + intros i [=].
    + intros o [= <-]. simpl. tauto.
    + intros r [=].
    + repeat split; intros v [=].
    + eexists. eexists. split; [exact Hrun |]. exact Hu.
Defined.

(** ** Reviews *)

Lemma insert_review_consistent (db : DB) (r : Review.t) :
  consistent db ->
  ~ In (Review.id r) (map Review.id (reviews db)) ->
  In (Review.carId r) (map Car.id (cars db)) ->
  In (Review.userId r) (map User.id (users db)) ->
  review_columns r = true ->
  consistent (with_reviews db (reviews db ++ [r])).
Proof.
  intros Hc Hid Hcar Huser Hcol. apply consistent_iff in Hc. apply consistent_iff.
  destruct Hc. constructor; cbn [with_reviews users cars bookings payments reviews];
    try assumption.
  - rewrite map_app. now apply NoDup_snoc.
  - apply Forall_app. split; [assumption | now repeat constructor].
  - apply Forall_app. split; [assumption | now repeat constructor].
  - apply Forall_app. split; [assumption | now repeat constructor].
Qed.

Lemma insert_review_consistent_inv (db : DB) (r : Review.t) :
  consistent (with_reviews db (reviews db ++ [r])) ->
  ~ In (Review.id r) (map Review.id (reviews db))
  /\ In (Review.carId r) (map Car.id (cars db))
  /\ In (Review.userId r) (map User.id (users db)).
Proof.
  intros Hc. apply consistent_iff in Hc.
  pose proof (review_ids _ Hc) as Hnd.
  pose proof (review_car _ Hc) as Hcar.
  pose proof (review_user _ Hc) as Huser.
  cbn [with_reviews reviews cars users] in *.
  rewrite map_app in Hnd. apply NoDup_remove_2 in Hnd. rewrite app_nil_r in Hnd.
  apply Forall_app in Hcar, Huser. destruct Hcar as [_ Hcar], Huser as [_ Huser].
  inversion Hcar; inversion Huser; subst. auto.
Qed.

Lemma int32_range (z : integer) : int32 z = true <-> -2147483648 <= z <= 2147483647.
Proof. unfold int32. rewrite andb_true_iff, !Z.leb_le. tauto. Qed.

Lemma post_api_reviews_runs (d : Draw) (userId : varchar) (body : ReviewBody.t) (db : DB) :
  Routes.post_api_reviews d userId body db =
  if int32 (ReviewBody.rating body)
  then
    match Storage.createReview d
            (InsertReview.mk (ReviewBody.carId body) userId (ReviewBody.rating body)
                             (ReviewBody.comment body)) db with
    | (Ok review, db') => (Ok (json (JReview (Some review))), db')
    | (Throw message, db') =>
        (Ok (status_json 400 (JMessage (message_or message "Failed to create review"))),
         db')
    end
  else (Ok (status_json 400 (JMessage "invalid review")), db).
Proof.
  unfold Routes.post_api_reviews, try_catch, bind, parsed, insertReviewSchema_parse.
  cbn [InsertReview.rating]. destruct (int32 _); [| reflexivity].
  now destruct (Storage.createReview d _ db) as [[r | m] db'].
Qed.

(** What a successful [POST /api/reviews] has done. *)
Lemma post_api_reviews_stored (db db' : DB) (d : Draw) (userId : varchar)
      (body : ReviewBody.t) (r : Review.t) :
  Routes.post_api_reviews d userId body db = (Ok (json (JReview (Some r))), db') ->
  r = new_review d (InsertReview.mk (ReviewBody.carId body) userId (ReviewBody.rating body)
                                    (ReviewBody.comment body))
  /\ db' = with_reviews db (reviews db ++ [r])
  /\ consistent db'.
Proof.
  rewrite post_api_reviews_runs. destruct (int32 _); [| discriminate].
  unfold Storage.createReview.
  match goal with
  | |- context [statement d ?n ?r db] =>
      destruct (statement_cases d n r db) as [[H [_ Hc']] | [m H]]
  end; rewrite H; [| discriminate].
  intros [= <- <-]. now repeat split.
Qed.

(** X11. With the schema constraints holding, [POST /api/reviews] stores a
    review exactly when the rating is a 32-bit integer, the car and the
    caller exist, the drawn id is unused and the connection holds; the
    review is stored as sent, under the caller's id and without owner
    response, whatever the rating within 32 bits (no range from 1 to 5 is
    checked) and whether or not the caller ever booked the car; otherwise
    the answer is 400 and nothing is written. *)
Theorem post_api_reviews_stores_as_sent :
  forall (db : DB) (d : Draw) (userId : varchar) (body : ReviewBody.t),
    consistent db ->
    ((exists r db',
         Routes.post_api_reviews d userId body db = (Ok (json (JReview (Some r))), db'))
     <-> (-2147483648 <= ReviewBody.rating body <= 2147483647
          /\ In (ReviewBody.carId body) (map Car.id (cars db))
          /\ In userId (map User.id (users db))
          /\ ~ In (uuid d) (map Review.id (reviews db))
          /\ outage d = false))
    /\ (forall r db',
          Routes.post_api_reviews d userId body db = (Ok (json (JReview (Some r))), db') ->
          Review.userId r = userId
          /\ Review.carId r = ReviewBody.carId body
          /\ Review.rating r = ReviewBody.rating body
          /\ Review.comment r = ReviewBody.comment body
          /\ Review.ownerResponse r = None
          /\ db' = with_reviews db (reviews db ++ [r]))
    /\ ((forall r db',
           Routes.post_api_reviews d userId body db
           <> (Ok (json (JReview (Some r))), db')) ->
        exists message,
          Routes.post_api_reviews d userId body db
          = (Ok (status_json 400 (JMessage message)), db)).
Proof.
  intros db d userId body Hc.
  rewrite post_api_reviews_runs. rewrite <- int32_range.
  destruct (int32 (ReviewBody.rating body)) eqn:Hrating.
  2:{ split; [| split].
      - split; [intros [r [db' Hr]]; discriminate | intros [Hr _]; discriminate].
      - intros r db' [=].
      - intros _. eexists. reflexivity. }
  unfold Storage.createReview.
  match goal with
  | |- context [statement d ?n ?r db] =>
      destruct (statement_cases d n r db) as [[H [Ho Hc']] | [m H]]
  end; rewrite H.
  - apply insert_review_consistent_inv in Hc'. cbn in Hc'.
    split; [| split].
    + split; [intros _; tauto | intros _; eauto].
    + intros r db' [= <- <-]. repeat split.
    + intros Hnever. exfalso. eapply Hnever. reflexivity.
  - split; [| split].
    + split; [intros [r [db' Hr]]; discriminate |].
      intros [_ [Hcar [Huser [Hid Ho]]]]. exfalso.
      rewrite statement_runs in H;
        [discriminate | assumption | now apply insert_review_consistent].
    + intros r db' [=].
    + intros _. eexists. reflexivity.
Qed.

Lemma post_api_reviews_stores_as_sent_witness :
  exists r db',
    Routes.post_api_reviews draw_review4 "bob" four_stars june_reviewed
    = (Ok (json (JReview (Some r))), db').
Proof.
  apply (post_api_reviews_stores_as_sent june_reviewed draw_review4 "bob" four_stars).
  - vm_compute. reflexivity.
  - repeat split; simpl; try tauto; try discriminate; intuition discriminate.
Defined.

(** A rating of [2^31] is answered 400. *)
Example rating_out_of_range :
  exists message,
    Routes.post_api_reviews draw_review4 "bob"
      (ReviewBody.mk "car-1" 2147483648 None) june_reviewed
    = (Ok (status_json 400 (JMessage message)), june_reviewed).
Proof. eexists. vm_compute. reflexivity. Qed.

(** X12. After [POST /api/reviews] has stored a review, the average rating
    of every other car is what it was; and, while the reviews table has no
    more than [2^22] rows, the average rating of the reviewed car is the
    double nearest to the arithmetic mean of its former ratings and the new
    one. *)
Theorem review_moves_the_average :
  forall (db db' : DB) (d : Draw) (userId : varchar) (body : ReviewBody.t) (r : Review.t),
    consistent db ->
    Routes.post_api_reviews d userId body db = (Ok (json (JReview (Some r))), db') ->
    (Z.of_nat (List.length (reviews db)) < 4194304 ->
     Storage.getAverageRating (ReviewBody.carId body) db'
     = (Ok (to_double
              (exact_mean (ratings_of db (ReviewBody.carId body)
                           ++ [ReviewBody.rating body]))), db'))
    /\ (forall carId,
          carId <> ReviewBody.carId body ->
          answer (Storage.getAverageRating carId) db'
          = answer (Storage.getAverageRating carId) db).
Proof.
  intros db db' d userId body r Hc Hrun.
  destruct (post_api_reviews_stored db db' d userId body r Hrun) as [-> [-> Hc']].
  split.
  - intros Hn. rewrite getAverageRating_exact; [| assumption |].
    + unfold ratings_of, Storage.carReviews_of.
      cbn [with_reviews reviews]. rewrite filter_app, map_app. cbn.
      now rewrite eq_refl_true.
    + cbn [with_reviews reviews]. rewrite length_app. cbn [List.length]. lia.
  - intros carId Hne. unfold answer. rewrite !getAverageRating_runs. cbn [fst].
    unfold Storage.carReviews_of.
    cbn [with_reviews reviews]. rewrite filter_app.
    cbn [filter new_review Review.carId InsertReview.carId].
    apply not_eq_sym in Hne. apply eq_false_iff in Hne. rewrite Hne.
    now rewrite app_nil_r.
Qed.

Lemma review_moves_the_average_witness :
  exists r db',
    Routes.post_api_reviews draw_review4 "bob" four_stars june_reviewed
    = (Ok (json (JReview (Some r))), db')
    /\ Storage.getAverageRating "car-1" db' = (Ok (Finite 4), db').
Proof.
  pose (r := new_review draw_review4
               (InsertReview.mk "car-1" "bob" 4 (Some "Smooth ride"))).
  pose (db' := with_reviews june_reviewed (reviews june_reviewed ++ [r])).
  assert (Hrun :
            Routes.post_api_reviews draw_review4 "bob" four_stars june_reviewed
            = (Ok (json (JReview (Some r))), db'))
    by (vm_compute; reflexivity).
  exists r, db'. split; [exact Hrun |].
  destruct (review_moves_the_average june_reviewed db' draw_review4 "bob" four_stars r)
    as [Havg _]; [vm_compute; reflexivity | exact Hrun |].
  etransitivity; [apply Havg; vm_compute; reflexivity | reflexivity].
Defined.

(** ** Listings *)

Lemma insert_desc_newest_first {A} (created : A -> timestamp) (x : A) (l : list A) :
  newest_first created l -> newest_first created (insert_desc created x l).
Proof.
  unfold newest_first. induction l as [|y r IH]; intros Hs; simpl.
  - repeat constructor.
  - inversion Hs as [|? ? Hr Hy]; subst.
    destruct (created y <=? created x) eqn:E.
    + apply Z.leb_le in E. constructor; [assumption |]. constructor; [assumption |].
      revert Hy. apply Forall_impl. intros b Hb. lia.
    + apply Z.leb_gt in E. constructor; [now apply IH |].
      apply (Permutation_Forall (Permutation_sym (insert_desc_permutation created x r))).
      constructor; [lia | assumption].
Qed.

Lemma orderBy_desc_newest_first {A} (created : A -> timestamp) (l : list A) :
  newest_first created (orderBy_desc created l).
Proof.
  induction l as [|x r IH]; [constructor |].
  unfold orderBy_desc in *. simpl. now apply insert_desc_newest_first.
Qed.

(** X13. [getAllBookings], [getBookingsByUser] and [getReviewsByCarId]
    answer every row they select exactly once, ordered by creation time,
    newest first: all bookings, the bookings of the user and of nobody
    else, the reviews of the car and of no other car. *)
Theorem listings_newest_first :
  forall (db : DB) (userId carId : varchar),
    (exists l,
        Storage.getAllBookings db = (Ok l, db)
        /\ newest_first Booking.createdAt l
        /\ Permutation l (bookings db))
    /\ (exists l,
          Storage.getBookingsByUser userId db = (Ok l, db)
          /\ newest_first Booking.createdAt l
          /\ Permutation l (filter (fun b => eq_ (Booking.userId b) userId) (bookings db))
          /\ forall b, In b l <-> In b (bookings db) /\ Booking.userId b = userId)
    /\ (exists l,
          Storage.getReviewsByCarId carId db = (Ok l, db)
          /\ newest_first Review.createdAt l
          /\ Permutation l (filter (fun r => eq_ (Review.carId r) carId) (reviews db))
          /\ forall r, In r l <-> In r (reviews db) /\ Review.carId r = carId).
Proof.
  intros db userId carId. split; [| split].
  - eexists. split; [reflexivity |].
    split; [apply orderBy_desc_newest_first | apply orderBy_desc_permutation].
  - eexists. split; [reflexivity |].
    split; [apply orderBy_desc_newest_first |].
    split; [apply orderBy_desc_permutation |].
    intros b. split.
    + intros Hin. apply (Permutation_in _ (orderBy_desc_permutation _ _)) in Hin.
      apply filter_In in Hin. now rewrite eq_true_iff in Hin.
    + intros Hin. rewrite <- eq_true_iff in Hin.
      apply (Permutation_in _ (Permutation_sym (orderBy_desc_permutation _ _))).
      now apply filter_In.
  - eexists. split; [reflexivity |].
    split; [apply orderBy_desc_newest_first |].
    split; [apply orderBy_desc_permutation |].
    intros r. split.
    + intros Hin. apply (Permutation_in _ (orderBy_desc_permutation _ _)) in Hin.
      apply filter_In in Hin. now rewrite eq_true_iff in Hin.
    + intros Hin. rewrite <- eq_true_iff in Hin.
      apply (Permutation_in _ (Permutation_sym (orderBy_desc_permutation _ _))).
      now apply filter_In.
Qed.

Lemma count_permutation {A} (f : A -> bool) (l l' : list A) :
  Permutation l l' -> List.length (filter f l) = List.length (filter f l').
Proof.
  induction 1 as [| x l l' _ IH | x y l | l l' l'' _ IH1 _ IH2]; simpl.
  - reflexivity.
  - destruct (f x); simpl; now rewrite IH.
  - destruct (f x), (f y); reflexivity.
  - now rewrite IH1.
Qed.

Lemma count_disjoint {A} (f g : A -> bool) (l : list A) :
  (forall x, f x = true -> g x = false) ->
  (List.length (filter f l) + List.length (filter g l) <= List.length l)%nat.
Proof.
  intros Hd. induction l as [|x r IH]; simpl; [lia |].
  destruct (f x) eqn:Ef; [rewrite (Hd x Ef) |]; [simpl; lia |].
  destruct (g x); simpl; lia.
Qed.

Lemma first_row_found {A} (key : A -> varchar) (k : varchar) (l : list A) :
  In k (map key l) ->
  exists x, first_row (filter (fun y => eq_ (key y) k) l) = Some x
            /\ key x = k /\ In x l.
Proof.
  intros Hk. apply (selected_at_least_one key) in Hk.
  destruct (filter (fun y => eq_ (key y) k) l) as [|x r] eqn:F; [simpl in Hk; lia |].
  assert (Hx : In x (filter (fun y => eq_ (key y) k) l)) by (rewrite F; now left).
  apply filter_In in Hx. destruct Hx as [Hx Hkey]. apply eq_true_iff in Hkey.
  exists x. auto.
Qed.

Lemma get_api_user_bookings_runs (db : DB) (clock : timestamp) (userId : varchar) :
  let mine :=
    orderBy_desc Booking.createdAt
      (filter (fun b => eq_ (Booking.userId b) userId) (bookings db)) in
  Routes.get_api_user_bookings clock userId db
  = (Ok (UserBookingsJson
           (map (fun b =>
                   (b,
                    first_row (filter (fun c => eq_ (Car.id c) (Booking.carId b)) (cars db)),
                    first_row (payments_of db (Booking.id b))))
                mine)
           (UserStats.mk
              (List.length mine)
              (List.length
                 (filter (fun b => eq_ (Booking.status b) "confirmed"
                                   && (clock <? Booking.startDate b)) mine))
              (List.length
                 (filter (fun b => eq_ (Booking.status b) "completed") mine)))),
     db).
Proof.
  intros mine. unfold Routes.get_api_user_bookings, try_catch.
  unfold bind at 1, Storage.getBookingsByUser, select at 1.
  unfold bind at 1.
  rewrite (reads_promise_all_map _
             (fun b db =>
                (b,
                 first_row (filter (fun c => eq_ (Car.id c) (Booking.carId b)) (cars db)),
                 first_row (payments_of db (Booking.id b)))))
    by (intros b db'; reflexivity).
  reflexivity.
Qed.

(** X14. [GET /api/user/bookings] writes nothing and lists exactly the
    caller's bookings, each once, newest first, each with the car it names
    and with its payment, if it has one; [totalBookings] counts them,
    [upcomingBookings] those confirmed and starting after the clock
    reading, [completedBookings] those completed, so that upcoming and
    completed together never exceed the total. *)
Theorem get_api_user_bookings_lists_own :
  forall (db : DB) (clock : timestamp) (userId : varchar),
    consistent db ->
    exists listed stats,
      Routes.get_api_user_bookings clock userId db = (Ok (UserBookingsJson listed stats), db)
      /\ newest_first Booking.createdAt (map (fun x => fst (fst x)) listed)
      /\ Permutation (map (fun x => fst (fst x)) listed)
                     (filter (fun b => eq_ (Booking.userId b) userId) (bookings db))
      /\ (forall b c p,
            In (b, c, p) listed ->
            In b (bookings db) /\ Booking.userId b = userId
            /\ (exists car, c = Some car /\ In car (cars db)
                            /\ Car.id car = Booking.carId b)
            /\ p = first_row (payments_of db (Booking.id b))
            /\ (forall payment, p = Some payment ->
                  In payment (payments db)
                  /\ Payment.bookingId payment = Booking.id b))
      /\ UserStats.totalBookings stats
         = List.length (filter (fun b => eq_ (Booking.userId b) userId) (bookings db))
      /\ UserStats.upcomingBookings stats
         = List.length
             (filter (fun b => eq_ (Booking.status b) "confirmed"
                               && (clock <? Booking.startDate b))
                     (filter (fun b => eq_ (Booking.userId b) userId) (bookings db)))
      /\ UserStats.completedBookings stats
         = List.length
             (filter (fun b => eq_ (Booking.status b) "completed")
                     (filter (fun b => eq_ (Booking.userId b) userId) (bookings db)))
      /\ (UserStats.upcomingBookings stats + UserStats.completedBookings stats
          <= UserStats.totalBookings stats)%nat.
Proof.
  intros db clock userId Hc. eexists. eexists.
  split; [apply get_api_user_bookings_runs |].
  set (own := filter (fun b => eq_ (Booking.userId b) userId) (bookings db)).
  pose proof (orderBy_desc_permutation Booking.createdAt own) as Hperm.
  cbn [UserStats.totalBookings UserStats.upcomingBookings UserStats.completedBookings].
  rewrite map_map. cbn [fst]. rewrite map_id.
  split; [apply orderBy_desc_newest_first |].
  split; [exact Hperm |].
  split.
  { intros b c p Hin. apply in_map_iff in Hin. destruct Hin as [b' [[= -> <- <-] Hb]].
    apply (Permutation_in _ Hperm) in Hb. apply filter_In in Hb.
    destruct Hb as [Hb Hu]. apply eq_true_iff in Hu.
    split; [assumption |]. split; [assumption |]. split.
    - pose proof (booking_car db (proj1 (consistent_iff db) Hc)) as Hfk.
      rewrite Forall_forall in Hfk.
      destruct (first_row_found Car.id (Booking.carId b) (cars db) (Hfk b Hb))
        as [car [Hrow [Hid Hcar]]].
      exists car. auto.
    - split; [reflexivity |]. intros payment Hp. unfold payments_of in Hp.
      destruct (filter _ (payments db)) as [|x r] eqn:F; [discriminate |].
      injection Hp as ->.
      assert (Hx : In payment (filter (fun p => eq_ (Payment.bookingId p) (Booking.id b))
                                      (payments db))) by (rewrite F; now left).
      apply filter_In in Hx. destruct Hx as [Hx Hid]. now apply eq_true_iff in Hid. }
  split; [apply (Permutation_length Hperm) |].
  split; [apply count_permutation, Hperm |].
  split; [apply count_permutation, Hperm |].
  apply count_disjoint. intros b Hb. apply andb_true_iff in Hb. destruct Hb as [Hb _].
  apply eq_true_iff in Hb. rewrite Hb. reflexivity.
Qed.

Lemma get_api_user_bookings_lists_own_witness :
  exists listed stats,
    Routes.get_api_user_bookings jun01 "bob" june = (Ok (UserBookingsJson listed stats), june)
    /\ UserStats.totalBookings stats = 1%nat.
Proof.
  destruct (get_api_user_bookings_lists_own june jun01 "bob")
    as [listed [stats [Hrun [_ [_ [_ [Htotal _]]]]]]].
  - vm_compute. reflexivity.
  - exists listed, stats. split; [exact Hrun |]. rewrite Htotal. reflexivity.
Defined.

Lemma owned_by_iff (db : DB) (ownerId carId : varchar) :
  owned_by db ownerId carId = true
  <-> exists c, In c (cars db) /\ Car.id c = carId /\ Car.ownerId c = ownerId.
Proof.
  unfold owned_by. rewrite existsb_exists. split.
  - intros [c [Hc H]]. apply andb_true_iff in H. destruct H as [H1 H2].
    apply eq_true_iff in H1, H2. now exists c.
  - intros [c [Hc [H1 H2]]]. exists c. split; [assumption |].
    apply andb_true_iff. split; now apply eq_true_iff.
Qed.

(** X15. With car ids distinct, [getBookingsByOwner] answers each booking
    of a car of the owner exactly once and no other booking; it answers the
    empty list for a user who owns no car; the answers for two different
    owners share no booking, and every booking is in the answer for the
    owner of its car. *)
Theorem getBookingsByOwner_partitions :
  forall (db : DB) (ownerId : varchar),
    consistent db ->
    exists l,
      Storage.getBookingsByOwner ownerId db = (Ok l, db)
      /\ Permutation l
           (filter (fun b => owned_by db ownerId (Booking.carId b)) (bookings db))
      /\ (forall b,
            In b l
            <-> In b (bookings db)
                /\ exists c, In c (cars db) /\ Car.id c = Booking.carId b
                             /\ Car.ownerId c = ownerId)
      /\ ((forall c, In c (cars db) -> Car.ownerId c <> ownerId) -> l = [])
      /\ (forall other l',
            other <> ownerId ->
            Storage.getBookingsByOwner other db = (Ok l', db) ->
            forall b, In b l -> ~ In b l')
      /\ (forall b,
            In b (bookings db) ->
            exists c l',
              In c (cars db) /\ Car.id c = Booking.carId b
              /\ Storage.getBookingsByOwner (Car.ownerId c) db = (Ok l', db)
              /\ In b l').
Proof.
  intros db ownerId Hc.
  pose proof (car_ids db (proj1 (consistent_iff db) Hc)) as Hnd.
  assert (Hmem :
            forall owner l,
              Storage.getBookingsByOwner owner db = (Ok l, db) ->
              forall b,
                In b l
                <-> In b (bookings db)
                    /\ exists c, In c (cars db) /\ Car.id c = Booking.carId b
                                 /\ Car.ownerId c = owner).
  { intros owner l Hl b.
    destruct (getBookingsByOwner_runs db owner) as [l0 [Hl0 Hperm]].
    rewrite Hl in Hl0. injection Hl0 as <-. specialize (Hperm Hnd).
    rewrite <- owned_by_iff. split.
    - intros Hin. apply (Permutation_in _ Hperm) in Hin. now apply filter_In in Hin.
    - intros Hin. apply (Permutation_in _ (Permutation_sym Hperm)). now apply filter_In. }
  destruct (getBookingsByOwner_runs db ownerId) as [l [Hl Hperm]].
  exists l. split; [exact Hl |]. split; [exact (Hperm Hnd) |].
  split; [exact (Hmem ownerId l Hl) |]. split; [| split].
  - intros Hnone. destruct l as [|b r]; [reflexivity |]. exfalso.
    destruct (proj1 (Hmem ownerId _ Hl b) (or_introl Logic.eq_refl)) as [_ [c [Hin [_ Hown]]]].
    now apply (Hnone c).
  - intros other l' Hne Hl' b Hb Hb'.
    apply (Hmem ownerId l Hl) in Hb. apply (Hmem other l' Hl') in Hb'.
    destruct Hb as [_ [c [Hcin [Hid Hown]]]]. destruct Hb' as [_ [c' [Hcin' [Hid' Hown']]]].
    assert (c' = c)
      by (apply (NoDup_map_injective Car.id (cars db)); try assumption; congruence).
    subst c'. congruence.
  - intros b Hb.
    pose proof (booking_car db (proj1 (consistent_iff db) Hc)) as Hfk.
    rewrite Forall_forall in Hfk. specialize (Hfk b Hb).
    apply in_map_iff in Hfk. destruct Hfk as [c [Hid Hcin]].
    destruct (getBookingsByOwner_runs db (Car.ownerId c)) as [l' [Hl' _]].
    exists c, l'. split; [assumption |]. split; [assumption |]. split; [assumption |].
    apply (Hmem _ _ Hl'). split; [assumption |]. now exists c.
Qed.

Lemma getBookingsByOwner_partitions_witness :
  exists l, Storage.getBookingsByOwner "carol" june = (Ok l, june) /\ l = [].
Proof.
  destruct (getBookingsByOwner_partitions june "carol") as [l [Hl [_ [_ [Hnone _]]]]].
  - vm_compute. reflexivity.
  - exists l. split; [exact Hl |]. apply Hnone.
    intros c [<- | [<- | []]]; discriminate.
Defined.

(** ** Users *)



(** ** The filters of the car list *)

Lemma filter_all {A} (l : list A) : filter (fun _ => true) l = l.
Proof. induction l as [|a r IH]; [reflexivity |]. simpl. now rewrite IH. Qed.

Lemma filter_twice {A} (f g : A -> bool) (l : list A) :
  filter f (filter g l) = filter (fun x => g x && f x) l.
Proof.
  induction l as [|a r IH]; [reflexivity |]. simpl.
  destruct (g a); simpl; [destruct (f a) |]; now rewrite IH.
Qed.

Lemma when_param_filter {P A} (param : option P) (keep : P -> A -> bool) (l : list A) :
  when_param param keep l
  = filter (fun x => match param with Some p => keep p x | None => true end) l.
Proof. destruct param; [reflexivity | now rewrite filter_all]. Qed.

Lemma append_String (s : string) (c : ascii) (t : string) :
  ((s ++ String c EmptyString) ++ t)%string = (s ++ String c t)%string.
Proof. induction s as [|a s IH]; simpl; [reflexivity | now rewrite IH]. Qed.

Lemma append_empty (s : string) : (s ++ EmptyString)%string = s.
Proof. induction s as [|a s IH]; simpl; [reflexivity | now rewrite IH]. Qed.

Lemma split_from_pieces (s cur : string) :
  exists piece rest, split_from s cur = piece :: rest.
Proof.
  revert cur. induction s as [|c r IH]; intros cur; simpl; [eauto |].
  destruct (Ascii.eqb c ","%char); [eauto | apply IH].
Qed.

Lemma split_from_joins (s cur : string) :
  String.concat "," (split_from s cur) = (cur ++ s)%string.
Proof.
  revert cur. induction s as [|c r IH]; intros cur; simpl.
  - symmetry. apply append_empty.
  - destruct (Ascii.eqb c ","%char) eqn:E.
    + apply Ascii.eqb_eq in E. subst c.
      destruct (split_from_pieces r EmptyString) as [piece [rest Hp]].
      specialize (IH EmptyString). rewrite Hp in *.
      change (String.concat "," (cur :: piece :: rest))
        with (cur ++ "," ++ String.concat "," (piece :: rest))%string.
      rewrite IH. reflexivity.
    + rewrite IH. apply append_String.
Qed.

Lemma comma_free_append (s t : string) :
  comma_free (s ++ t) = comma_free s && comma_free t.
Proof.
  induction s as [|c r IH]; [reflexivity |]. simpl. rewrite IH. apply andb_assoc.
Qed.

Lemma split_from_comma_free (s cur : string) :
  comma_free cur = true ->
  Forall (fun piece => comma_free piece = true) (split_from s cur).
Proof.
  revert cur. induction s as [|c r IH]; intros cur Hcur; simpl.
  - now repeat constructor.
  - destruct (Ascii.eqb c ","%char) eqn:E.
    + constructor; [assumption | now apply IH].
    + apply IH. rewrite comma_free_append, Hcur. simpl. now rewrite E.
Qed.

Lemma split_from_piece (v cur : string) :
  comma_free v = true -> split_from v cur = [(cur ++ v)%string].
Proof.
  revert cur. induction v as [|c r IH]; intros cur Hv; simpl in *.
  - now rewrite append_empty.
  - apply andb_true_iff in Hv. destruct Hv as [Hc Hr]. apply negb_true_iff in Hc.
    rewrite Hc, IH by assumption. now rewrite append_String.
Qed.

Lemma split_from_append (a b cur : string) :
  split_from (a ++ "," ++ b) cur = split_from a cur ++ split_comma b.
Proof.
  revert cur. induction a as [|c r IH]; intros cur; [reflexivity |].
  change (String c r ++ "," ++ b)%string with (String c (r ++ "," ++ b))%string.
  cbn [split_from]. destruct (Ascii.eqb c ","%char).
  - now rewrite (IH EmptyString).
  - apply IH.
Qed.

(** Comma-free pieces joined by commas are split into themselves. *)
Lemma split_joined (pieces : list string) :
  pieces <> [] ->
  Forall (fun piece => comma_free piece = true) pieces ->
  split_comma (String.concat "," pieces) = pieces.
Proof.
  induction pieces as [|p rest IH]; [contradiction |]. intros _ Hall.
  inversion Hall as [|? ? Hp Hrest]; subst. destruct rest as [|q rest].
  - cbn [String.concat]. unfold split_comma. now rewrite split_from_piece.
  - change (String.concat "," (p :: q :: rest))
      with (p ++ "," ++ String.concat "," (q :: rest))%string.
    unfold split_comma. rewrite split_from_append, split_from_piece by assumption.
    rewrite IH by (assumption || discriminate). reflexivity.
Qed.

Lemma prefix_is_start (sub s : string) :
  String.prefix sub s = true <-> exists post, s = (sub ++ post)%string.
Proof.
  revert s. induction sub as [|a sub IH]; intros s.
  - destruct s; simpl; split; eauto.
  - destruct s as [|b s]; simpl.
    + split; [discriminate | intros [post H]; discriminate].
    + destruct (ascii_dec a b) as [-> | Hne].
      * rewrite IH. split; intros [post H]; exists post; [now rewrite H | now injection H].
      * split; [discriminate |]. intros [post H]. injection H as H1 H2. congruence.
Qed.

(** [includes] holds exactly of the strings that contain the text
    somewhere. *)
Lemma includes_contains (s sub : string) : includes s sub = true <-> contains s sub.
Proof.
  unfold contains. induction s as [|c r IH].
  - cbn [includes]. rewrite orb_false_r, prefix_is_start. split.
    + intros [post H]. exists EmptyString, post. exact H.
    + intros [before [later H]]. destruct before; [now exists later | discriminate].
  - cbn [includes]. rewrite orb_true_iff, prefix_is_start, IH. split.
    + intros [[post H] | [before [later H]]].
      * exists EmptyString, post. exact H.
      * exists (String c before), later. simpl. now rewrite H.
    + intros [before [later H]]. destruct before as [|b before].
      * left. now exists later.
      * right. simpl in H. injection H as _ H. now exists before, later.
Qed.

(** [split(',')] followed by [includes] finds the pieces of the list. *)
Lemma split_names (value list_ : string) :
  existsb (String.eqb value) (split_comma list_) = true <-> named_in value list_.
Proof.
  rewrite existsb_exists. unfold named_in. split.
  - intros [piece [Hin Heq]]. apply String.eqb_eq in Heq. subst piece.
    exists (split_comma list_). split; [| split; [| split]].
    + unfold split_comma. destruct (split_from_pieces list_ EmptyString) as [x [r ->]].
      discriminate.
    + now apply split_from_comma_free.
    + apply (split_from_joins list_ EmptyString).
    + assumption.
  - intros [pieces [Hne [Hall [<- Hin]]]]. rewrite split_joined by assumption.
    exists value. split; [assumption | apply String.eqb_refl].
Qed.

Lemma leb_value_le (x y : number) : leb x y = true <-> value_le x y.
Proof.
  destruct x as [a | [|] |], y as [b | [|] |]; cbn; try tauto;
    try (split; [discriminate | contradiction]).
  apply Qle_bool_iff.
Qed.

Lemma if_given_iff {P} (param : option P) (holds : P -> bool) (spec : P -> Prop) :
  (forall p, holds p = true <-> spec p) ->
  match param with Some p => holds p | None => true end = true <-> if_given param spec.
Proof. intros H. destruct param; cbn; [apply H | tauto]. Qed.

(** X17. [GET /api/cars] answers, in table order, exactly the available
    cars that pass every filter the query names, whatever the case tables
    [toLowerCase] follows: the lowered search text occurs in the lowered
    brand or model; the price, read as a double, is at least the lower and
    at most the upper bound (both inclusive, compared as doubles; a whole
    price is read as it is); brand, type and transmission are among the
    comma-separated pieces of their lists. A price bound that is not a
    number leaves no car; and no filter leaves them all. *)
Theorem get_api_cars_filters :
  forall (toLowerCase : string -> string) (db : DB) (query : CarsQuery.t),
    exists listed shown keep_row,
      Storage.getAllCars db = (Ok listed, db)
      /\ Routes.get_api_cars toLowerCase query db = (Ok (json (JCars shown)), db)
      /\ shown = filter (fun x => keep_row (CarWithRating.car x)) listed
      /\ (forall c, keep_row c = true <-> passes toLowerCase query c)
      /\ (forall x, In x shown
                    <-> In x listed /\ passes toLowerCase query (CarWithRating.car x))
      /\ (CarsQuery.minPrice query = Some NaN \/ CarsQuery.maxPrice query = Some NaN ->
          shown = [])
      /\ (query = CarsQuery.none -> shown = listed)
      /\ (forall c z,
            (Car.pricePerDay c == inject_Z z)%Q -> Z.abs z <= 2 ^ 53 ->
            Number (Car.pricePerDay c) = Finite (inject_Z z)).
Proof.
  intros toLowerCase db query.
  set (keep_row := fun c =>
         match CarsQuery.search query with
         | Some search =>
             includes (toLowerCase (Car.brand c)) (toLowerCase search)
             || includes (toLowerCase (Car.model c)) (toLowerCase search)
         | None => true
         end
         && match CarsQuery.minPrice query with
            | Some minPrice => geb (Number (Car.pricePerDay c)) minPrice
            | None => true
            end
         && match CarsQuery.maxPrice query with
            | Some maxPrice => leb (Number (Car.pricePerDay c)) maxPrice
            | None => true
            end
         && match CarsQuery.brands query with
            | Some brands => existsb (String.eqb (Car.brand c)) (split_comma brands)
            | None => true
            end
         && match CarsQuery.carTypes query with
            | Some carTypes => existsb (String.eqb (Car.carType c)) (split_comma carTypes)
            | None => true
            end
         && match CarsQuery.transmission query with
            | Some transmission =>
                existsb (String.eqb (Car.transmission c)) (split_comma transmission)
            | None => true
            end).
  assert (Hkeep : forall c, keep_row c = true <-> passes toLowerCase query c).
  { intros c. unfold keep_row, passes. rewrite !andb_true_iff.
    rewrite (if_given_iff (CarsQuery.search query) _
               (fun search =>
                  contains (toLowerCase (Car.brand c)) (toLowerCase search)
                  \/ contains (toLowerCase (Car.model c)) (toLowerCase search)))
      by (intros p; now rewrite orb_true_iff, !includes_contains).
    rewrite (if_given_iff (CarsQuery.minPrice query) _
               (fun minPrice => value_le minPrice (Number (Car.pricePerDay c))))
      by (intros p; apply leb_value_le).
    rewrite (if_given_iff (CarsQuery.maxPrice query) _
               (fun maxPrice => value_le (Number (Car.pricePerDay c)) maxPrice))
      by (intros p; apply leb_value_le).
    rewrite (if_given_iff (CarsQuery.brands query) _ (named_in (Car.brand c)))
      by (intros p; apply split_names).
    rewrite (if_given_iff (CarsQuery.carTypes query) _ (named_in (Car.carType c)))
      by (intros p; apply split_names).
    rewrite (if_given_iff (CarsQuery.transmission query) _
               (named_in (Car.transmission c)))
      by (intros p; apply split_names).
    tauto. }
  eexists. exists (filter (fun x => keep_row (CarWithRating.car x))
                          (map (fun car =>
                                  CarWithRating.mk car (mean (ratings_of db (Car.id car)))
                                    (List.length (Storage.carReviews_of db (Car.id car))))
                               (filter (fun c => Bool.eqb (Car.isAvailable c) true)
                                       (cars db)))).
  exists keep_row. split; [apply getAllCars_runs |].
  split; [| split; [reflexivity | split; [exact Hkeep |]]].
  - unfold Routes.get_api_cars, try_catch, bind. rewrite getAllCars_runs. cbv zeta.
    rewrite !when_param_filter, !filter_twice. unfold ret, json.
    cbv beta iota. do 4 f_equal. apply filter_ext. intros x. unfold keep_row.
    destruct (CarsQuery.search query), (CarsQuery.minPrice query),
      (CarsQuery.maxPrice query), (CarsQuery.brands query), (CarsQuery.carTypes query),
      (CarsQuery.transmission query); now rewrite !andb_assoc.
  - split; [| split; [| split]].
    + intros x. rewrite filter_In, Hkeep. tauto.
    + intros Hnan. apply filter_nothing. intros x _. apply not_true_is_false.
      intros Hx. apply Hkeep in Hx. destruct Hx as [_ [Hmin [Hmax _]]].
      destruct Hnan as [Hq | Hq]; rewrite Hq in *; cbn in *.
      * exact Hmin.
      * destruct (Number _) as [? | [|] |]; exact Hmax.
    + intros Hq. apply filter_everything. intros x _. unfold keep_row. now rewrite Hq.
    + intros c z Hz Hbound. unfold Number. now apply (to_double_whole _ z).
Qed.

(** On the sample data, with the letters A to Z lowered: the text SWI finds
    the Swift, a lower bound of 1500 keeps it and one of 1501 does not. *)
Example search_on_june :
  (exists shown,
      Routes.get_api_cars lower_ascii_only
        (CarsQuery.mk (Some "SWI") (Some (Finite 1500)) None (Some "Tata,Maruti") None None)
        june
      = (Ok (json (JCars shown)), june)
      /\ map (fun x => Car.id (CarWithRating.car x)) shown = ["car-1"])
  /\ Routes.get_api_cars lower_ascii_only
       (CarsQuery.mk None (Some (Finite 1501)) None None None None) june
     = (Ok (json (JCars [])), june).
Proof. split; [eexists; split |]; vm_compute; reflexivity. Qed.

(** ** The dashboards and the car page *)

Lemma dashboard_forbidden (db : DB) (userId : varchar) :
  (role_is_not (first_row (filter (fun u => eq_ (User.id u) userId) (users db))) "owner"
   = true ->
   Routes.get_api_owner_dashboard userId db
   = (Ok (status_json 403 (JMessage "Not authorized")), db))
  /\ (role_is_not (first_row (filter (fun u => eq_ (User.id u) userId) (users db))) "admin"
      = true ->
      Routes.get_api_admin_dashboard userId db
      = (Ok (status_json 403 (JMessage "Not authorized")), db)).
Proof.
  split; intros Hrole.
  - unfold Routes.get_api_owner_dashboard, try_catch.
    unfold bind at 1, Storage.getUser, select at 1. now rewrite Hrole.
  - unfold Routes.get_api_admin_dashboard, try_catch.
    unfold bind at 1, Storage.getUser at 1, select at 1. now rewrite Hrole.
Qed.

Lemma get_api_owner_dashboard_bookings (db : DB) (userId : varchar) :
  role_is_not (first_row (filter (fun u => eq_ (User.id u) userId) (users db))) "owner"
  = false ->
  exists ownerBookings stats,
    Storage.getBookingsByOwner userId db = (Ok ownerBookings, db)
    /\ Routes.get_api_owner_dashboard userId db
       = (Ok (json
                (JOwnerDashboard
                   (filter (fun c => eq_ (Car.ownerId c) userId) (cars db))
                   (map (fun b =>
                           (b, first_row (filter (fun c => eq_ (Car.id c) (Booking.carId b))
                                                 (cars db))))
                        ownerBookings)
                   stats)),
          db)
    /\ OwnerStats.totalCars stats
       = List.length (filter (fun c => eq_ (Car.ownerId c) userId) (cars db))
    /\ OwnerStats.activeBookings stats
       = List.length
           (filter (fun b => eq_ (Booking.status b) "confirmed"
                             || eq_ (Booking.status b) "pending")
                   ownerBookings).
Proof.
  intros Hrole.
  destruct (get_api_owner_dashboard_runs db userId Hrole)
    as [ownerBookings [bookingsWithCars [Hl [Hrun ->]]]].
  exists ownerBookings. eexists. split; [exact Hl |]. split; [exact Hrun |].
  split; reflexivity.
Qed.

(** X18. With the schema constraints holding, [GET /api/owner/dashboard]
    answers 403 unless the caller's role is owner. For an owner it lists all the caller's cars, those off the
    listing included, and counts them in [totalCars]; it lists each booking
    of those cars once, with its car, and no other booking; and
    [activeBookings] is the number of pending or confirmed bookings of those
    cars. Nothing is written. *)
Theorem owner_dashboard_figures :
  forall (db : DB) (userId : varchar),
    consistent db ->
    let caller := first_row (filter (fun u => eq_ (User.id u) userId) (users db)) in
    (role_is_not caller "owner" = true ->
     Routes.get_api_owner_dashboard userId db
     = (Ok (status_json 403 (JMessage "Not authorized")), db))
    /\ (role_is_not caller "owner" = false ->
        exists ownerCars bookingsWithCars stats,
          Routes.get_api_owner_dashboard userId db
          = (Ok (json (JOwnerDashboard ownerCars bookingsWithCars stats)), db)
          /\ (forall c, In c ownerCars <-> In c (cars db) /\ Car.ownerId c = userId)
          /\ OwnerStats.totalCars stats
             = List.length (filter (fun c => eq_ (Car.ownerId c) userId) (cars db))
          /\ Permutation (map fst bookingsWithCars)
               (filter (fun b => owned_by db userId (Booking.carId b)) (bookings db))
          /\ (forall b c,
                In (b, c) bookingsWithCars ->
                exists car, c = Some car /\ In car (cars db)
                            /\ Car.id car = Booking.carId b
                            /\ Car.ownerId car = userId)
          /\ OwnerStats.activeBookings stats
             = List.length
                 (filter (fun b => eq_ (Booking.status b) "confirmed"
                                   || eq_ (Booking.status b) "pending")
                         (filter (fun b => owned_by db userId (Booking.carId b))
                                 (bookings db)))).
Proof.
  intros db userId Hc caller. subst caller.
  split; [apply dashboard_forbidden |].
  intros Hrole.
  destruct (get_api_owner_dashboard_bookings db userId Hrole)
    as [ownerBookings [stats [Hl [Hrun [Htotal Hactive]]]]].
  destruct (getBookingsByOwner_runs db userId) as [l [Hl' Hperm]].
  rewrite Hl in Hl'. injection Hl' as <-.
  pose proof (car_ids db (proj1 (consistent_iff db) Hc)) as Hnd.
  specialize (Hperm Hnd).
  eexists. eexists. exists stats. split; [exact Hrun |].
  split.
  { intros c. rewrite filter_In, eq_true_iff. tauto. }
  split; [exact Htotal |].
  split.
  { rewrite map_map. cbn [fst]. now rewrite map_id. }
  split.
  { intros b c Hin. apply in_map_iff in Hin. destruct Hin as [b' [[= -> <-] Hb]].
    apply (Permutation_in _ Hperm) in Hb. apply filter_In in Hb. destruct Hb as [Hb Hown].
    apply owned_by_iff in Hown. destruct Hown as [car [Hcar [Hid Hown]]].
    exists car. split; [| auto].
    rewrite <- Hid. now apply car_lookup. }
  rewrite Hactive. now apply count_permutation.
Qed.

Lemma owner_dashboard_figures_witness :
  exists ownerCars bookingsWithCars stats,
    Routes.get_api_owner_dashboard "alice" june
    = (Ok (json (JOwnerDashboard ownerCars bookingsWithCars stats)), june)
    /\ OwnerStats.totalCars stats = 2%nat
    /\ OwnerStats.activeBookings stats = 1%nat.
Proof.
  destruct (owner_dashboard_figures june "alice") as [_ H].
  - vm_compute. reflexivity.
  - destruct H as [ownerCars [bookingsWithCars [stats [Hrun [_ [Htotal [_ [_ Hactive]]]]]]]];
      [reflexivity |].
    exists ownerCars, bookingsWithCars, stats.
    split; [exact Hrun |]. rewrite Htotal, Hactive. split; reflexivity.
Defined.

Lemma user_lookup (db : DB) (id : varchar) :
  In id (map User.id (users db)) ->
  exists u, first_row (filter (fun x => eq_ (User.id x) id) (users db)) = Some u
            /\ User.id u = id /\ In u (users db).
Proof. apply (first_row_found User.id). Qed.

Lemma get_api_admin_dashboard_bookings (db : DB) (userId : varchar) :
  role_is_not (first_row (filter (fun u => eq_ (User.id u) userId) (users db))) "admin"
  = false ->
  exists carsWithOwners stats,
    Routes.get_api_admin_dashboard userId db
    = (Ok (json
             (JAdminDashboard [] carsWithOwners
                (map (fun b =>
                        (b,
                         first_row (filter (fun c => eq_ (Car.id c) (Booking.carId b))
                                           (cars db)),
                         first_row (filter (fun u => eq_ (User.id u) (Booking.userId b))
                                           (users db))))
                     (orderBy_desc Booking.createdAt (bookings db)))
                stats)),
       db)
    /\ AdminStats.totalUsers stats = 0%nat
    /\ AdminStats.totalCars stats
       = List.length (filter (fun c => Bool.eqb (Car.isAvailable c) true) (cars db))
    /\ AdminStats.totalBookings stats
       = List.length (orderBy_desc Booking.createdAt (bookings db)).
Proof.
  intros Hrole. eexists. eexists.
  unfold Routes.get_api_admin_dashboard, try_catch.
  unfold bind at 1, Storage.getUser at 1, select at 1. rewrite Hrole.
  unfold bind at 1. rewrite getAllCars_runs.
  unfold bind at 1, Storage.getAllBookings, select at 1.
  unfold bind at 1.
  rewrite (reads_promise_all_map _
             (fun (x : CarWithRating.t) db =>
                (x,
                 first_row (filter (fun u => eq_ (User.id u)
                                               (Car.ownerId (CarWithRating.car x)))
                                   (users db)))))
    by (intros x db'; reflexivity).
  unfold bind at 1.
  rewrite (reads_promise_all_map _
             (fun booking db =>
                (booking,
                 first_row (filter (fun c => eq_ (Car.id c) (Booking.carId booking))
                                   (cars db)),
                 first_row (filter (fun u => eq_ (User.id u) (Booking.userId booking))
                                   (users db)))))
    by (intros booking db'; reflexivity).
  split; [reflexivity |]. split; [reflexivity |].
  split; [apply length_map | reflexivity].
Qed.

(** X19. With the schema constraints holding, [GET /api/admin/dashboard]
    answers 403 unless the caller's role is admin. For an admin it lists every booking once, newest first, each
    with its car and the user who made it, and [totalBookings] counts the
    bookings table; [totalCars] counts the listed cars only; the user list
    is always empty and [totalUsers] always 0, although the users table
    holds the caller at least. Nothing is written. *)
Theorem admin_dashboard_figures :
  forall (db : DB) (userId : varchar),
    consistent db ->
    let caller := first_row (filter (fun u => eq_ (User.id u) userId) (users db)) in
    (role_is_not caller "admin" = true ->
     Routes.get_api_admin_dashboard userId db
     = (Ok (status_json 403 (JMessage "Not authorized")), db))
    /\ (role_is_not caller "admin" = false ->
        exists carsWithOwners bookingsWithDetails stats,
          Routes.get_api_admin_dashboard userId db
          = (Ok (json (JAdminDashboard [] carsWithOwners bookingsWithDetails stats)), db)
          /\ AdminStats.totalUsers stats = 0%nat
          /\ (0 < List.length (users db))%nat
          /\ AdminStats.totalCars stats
             = List.length (filter Car.isAvailable (cars db))
          /\ AdminStats.totalBookings stats = List.length (bookings db)
          /\ Permutation (map (fun x => fst (fst x)) bookingsWithDetails) (bookings db)
          /\ newest_first Booking.createdAt (map (fun x => fst (fst x)) bookingsWithDetails)
          /\ (forall b c u,
                In (b, c, u) bookingsWithDetails ->
                (exists car, c = Some car /\ Car.id car = Booking.carId b
                             /\ In car (cars db))
                /\ (exists user, u = Some user /\ User.id user = Booking.userId b
                                 /\ In user (users db)))).
Proof.
  intros db userId Hc caller. subst caller.
  split; [apply dashboard_forbidden |].
  intros Hrole.
  destruct (get_api_admin_dashboard_bookings db userId Hrole)
    as [carsWithOwners [stats [Hrun [Husers [Hcars Htotal]]]]].
  pose proof (orderBy_desc_permutation Booking.createdAt (bookings db)) as Hperm.
  eexists. eexists. exists stats. split; [exact Hrun |].
  split; [exact Husers |].
  split.
  { pose proof (caller_exists db userId "admin" Hrole) as Hin.
    destruct (users db); [destruct Hin | simpl; lia]. }
  split.
  { rewrite Hcars. f_equal. apply filter_ext. intros c. now destruct (Car.isAvailable c). }
  split; [rewrite Htotal; apply (Permutation_length Hperm) |].
  rewrite map_map. cbn [fst]. rewrite map_id.
  split; [exact Hperm |]. split; [apply orderBy_desc_newest_first |].
  intros b c u Hin. apply in_map_iff in Hin. destruct Hin as [b' [[= -> <- <-] Hb]].
  apply (Permutation_in _ Hperm) in Hb.
  pose proof (proj1 (consistent_iff db) Hc) as HC.
  pose proof (booking_car db HC) as Hcar. pose proof (booking_user db HC) as Huser.
  rewrite Forall_forall in Hcar, Huser. split.
  - destruct (first_row_found Car.id (Booking.carId b) (cars db) (Hcar b Hb))
      as [car [Hrow [Hid Hcin]]]. exists car. auto.
  - destruct (user_lookup db (Booking.userId b) (Huser b Hb)) as [user [Hrow [Hid Huin]]].
    exists user. auto.
Qed.

Lemma admin_dashboard_figures_witness :
  exists carsWithOwners bookingsWithDetails stats,
    Routes.get_api_admin_dashboard "dave" june
    = (Ok (json (JAdminDashboard [] carsWithOwners bookingsWithDetails stats)), june)
    /\ AdminStats.totalUsers stats = 0%nat
    /\ List.length (users june) = 4%nat.
Proof.
  destruct (admin_dashboard_figures june "dave") as [_ H].
  - vm_compute. reflexivity.
  - destruct H as [carsWithOwners [bookingsWithDetails [stats [Hrun [Hzero _]]]]];
      [reflexivity |].
    exists carsWithOwners, bookingsWithDetails, stats. repeat split; assumption.
Defined.

(** X20. With the schema constraints holding, [GET /api/cars/:id] answers
    404 when no car has the id; otherwise it answers the car, its owner's user row, and the reviews of the car
    and of no other car, each once, newest first, each with the row of the
    user who wrote it. Nothing is written. *)
Theorem get_api_cars_id_page :
  forall (db : DB) (id : varchar),
    consistent db ->
    (~ In id (map Car.id (cars db)) ->
     Routes.get_api_cars_id id db
     = (Ok (status_json 404 (JMessage "Car not found")), db))
    /\ (forall c,
          In c (cars db) -> Car.id c = id ->
          exists owner reviewsWithUsers averageRating,
            Routes.get_api_cars_id id db
            = (Ok (json (JCarDetail c (Some owner) reviewsWithUsers averageRating)), db)
            /\ In owner (users db) /\ User.id owner = Car.ownerId c
            /\ newest_first Review.createdAt (map fst reviewsWithUsers)
            /\ Permutation (map fst reviewsWithUsers)
                 (filter (fun r => eq_ (Review.carId r) id) (reviews db))
            /\ (forall r u,
                  In (r, u) reviewsWithUsers ->
                  exists author, u = Some author /\ In author (users db)
                                 /\ User.id author = Review.userId r)).
Proof.
  intros db id Hc. pose proof (proj1 (consistent_iff db) Hc) as HC. split.
  - intros Hid. unfold Routes.get_api_cars_id, try_catch.
    unfold bind at 1, Storage.getCarById, select at 1.
    now rewrite car_lookup_absent.
  - intros c Hin <-.
    pose proof (car_owner db HC) as Hown. rewrite Forall_forall in Hown.
    destruct (user_lookup db (Car.ownerId c) (Hown c Hin)) as [owner [Hrow [Hoid Hoin]]].
    exists owner. eexists. eexists. split.
    { unfold Routes.get_api_cars_id, try_catch.
      unfold bind at 1, Storage.getCarById, select at 1.
      rewrite car_lookup by assumption.
      unfold bind at 1, Storage.getUser, select at 1. rewrite Hrow.
      unfold bind at 1, Storage.getReviewsByCarId, select at 1.
      unfold bind at 1.
      rewrite (reads_promise_all_map _
                 (fun review db =>
                    (review,
                     first_row (filter (fun u => eq_ (User.id u) (Review.userId review))
                                       (users db)))))
        by (intros review db'; reflexivity).
      unfold bind at 1. rewrite getAverageRating_runs. reflexivity. }
    split; [assumption |]. split; [assumption |].
    rewrite map_map. cbn [fst]. rewrite map_id.
    split; [apply orderBy_desc_newest_first |].
    split; [apply orderBy_desc_permutation |].
    intros r u Hr. apply in_map_iff in Hr. destruct Hr as [r' [[= -> <-] Hr]].
    apply (Permutation_in _ (orderBy_desc_permutation _ _)) in Hr.
    apply filter_In in Hr. destruct Hr as [Hr _].
    pose proof (review_user db HC) as Hfk. rewrite Forall_forall in Hfk.
    destruct (user_lookup db (Review.userId r) (Hfk r Hr)) as [author [Ha [Haid Hain]]].
    exists author. auto.
Qed.

Lemma get_api_cars_id_page_witness :
  Routes.get_api_cars_id "ghost" june
  = (Ok (status_json 404 (JMessage "Car not found")), june).
Proof.
  apply (get_api_cars_id_page june "ghost").
  - vm_compute. reflexivity.
  - simpl. intuition discriminate.
Defined.

(** ** The listing flag *)

(** X21. The listing flag of a car and its bookings do not look at each
    other. With the schema constraints holding, when its owner takes a car
    off the listing with [PUT /api/cars/:id] (the body leaving the id, the
    owner and the registration number alone and naming values the columns
    take), the car leaves the list of [getAllCars], which is what
    [GET /api/cars] and the admin dashboard show; the availability check
    answers for every car and range as it did before; and
    [POST /api/bookings] still books the unlisted car for a free range, at
    an amount the column takes. *)
Theorem unlisted_car_is_still_booked :
  forall (db : DB) (d d1 d2 : Draw) (c : Car.t) (body : PartialCar.t)
         (userId : varchar) (request : BookingBody.t),
    consistent db ->
    outage d = false ->
    In c (cars db) ->
    PartialCar.isAvailable body = Some false ->
    PartialCar.id body = None ->
    PartialCar.createdAt body <> Some JsonNotADate ->
    PartialCar.ownerId body = None ->
    PartialCar.registrationNumber body = None ->
    car_values_fit body ->
    BookingBody.carId request = Car.id c ->
    answer (Storage.checkAvailability (Car.id c) (BookingBody.startDate request)
              (BookingBody.endDate request)) db = Ok true ->
    In userId (map User.id (users db)) ->
    ~ In (uuid d1) (map Booking.id (bookings db)) ->
    ~ In (uuid d2) (map Payment.id (payments db)) ->
    outage d1 = false -> outage d2 = false ->
    (Qabs (round2 (BookingBody.totalCost request)) < 100000000)%Q ->
    exists updated db1 listed booking db2,
      Routes.put_api_cars_id d (Car.ownerId c) (Car.id c) body db
      = (Ok (json (JCar (Some updated))), db1)
      /\ Car.isAvailable updated = false
      /\ Storage.getAllCars db1 = (Ok listed, db1)
      /\ ~ In (Car.id c) (map (fun x => Car.id (CarWithRating.car x)) listed)
      /\ (forall carId s e,
            answer (Storage.checkAvailability carId s e) db1
            = answer (Storage.checkAvailability carId s e) db)
      /\ Routes.post_api_bookings d1 d2 userId request db1
         = (Ok (json (JBooking booking)), db2)
      /\ Booking.carId booking = Car.id c
      /\ In booking (bookings db2).
Proof.
  intros db d d1 d2 c body userId request Hc Ho Hin Hflag Hid Hdate Hown Hreg Hfit Hcar
         Hfree Huser Hb Hp Ho1 Ho2 Hamount.
  destruct (updateCar_runs db d c body Hc Ho Hin Hdate) as [before [later [Hl [Hrun Hc1]]]];
    [intros i; rewrite Hid; discriminate | intros o; rewrite Hown; discriminate
     | intros r; rewrite Hreg; discriminate | assumption |].
  set (updated := patch_car c body (now d)) in *.
  set (db1 := mkDB _ _ _ _ _) in *.
  assert (Hsame_id : Car.id updated = Car.id c)
    by (subst updated; cbn; now rewrite Hid).
  assert (Hput : Routes.put_api_cars_id d (Car.ownerId c) (Car.id c) body db
                 = (Ok (json (JCar (Some updated))), db1)).
  { rewrite put_api_cars_id_runs, car_lookup by assumption.
    rewrite eq_refl_true. cbn [negb]. now rewrite Hrun. }
  assert (Hsame : forall carId s e,
             answer (Storage.checkAvailability carId s e) db1
             = answer (Storage.checkAvailability carId s e) db) by reflexivity.
  assert (Hlast : In updated (cars db1)).
  { subst db1. cbn [cars]. rewrite !in_app_iff. right. right. now left. }
  destruct (post_api_bookings_accepted db1 d1 d2 userId request Hc1) as [Hpost _];
    try assumption.
  - rewrite Hcar, Hsame. exact Hfree.
  - rewrite Hcar, <- Hsame_id. now apply in_map.
  - exists updated, db1. eexists. eexists. eexists.
    split; [exact Hput |].
    split; [subst updated; cbn; now rewrite Hflag |].
    split; [apply getAllCars_runs |].
    split.
    { rewrite map_map. cbn [CarWithRating.car]. intros Hl'.
      apply in_map_iff in Hl'. destruct Hl' as [x [Hx Hxin]].
      apply filter_In in Hxin. destruct Hxin as [Hxin Hlisted].
      assert (x = updated).
      { apply (NoDup_map_injective Car.id (cars db1)); try assumption;
          [apply (car_ids db1 (proj1 (consistent_iff db1) Hc1)) | congruence]. }
      subst x. subst updated. cbn in Hlisted. rewrite Hflag in Hlisted. discriminate. }
    split; [exact Hsame |].
    split; [exact Hpost |].
    split; [cbn; exact Hcar |].
    cbn. apply in_or_app. right. now left.
Qed.

Lemma unlisted_car_is_still_booked_witness :
  exists updated db1 listed booking db2,
    Routes.put_api_cars_id draw_update "alice" "car-1" unlist june
    = (Ok (json (JCar (Some updated))), db1)
    /\ Storage.getAllCars db1 = (Ok listed, db1)
    /\ ~ In "car-1" (map (fun x => Car.id (CarWithRating.car x)) listed)
    /\ Routes.post_api_bookings draw_booking2 draw_payment2 "bob" body_free db1
       = (Ok (json (JBooking booking)), db2)
    /\ Booking.carId booking = "car-1".
Proof.
  destruct (unlisted_car_is_still_booked june draw_update draw_booking2 draw_payment2
              car1 unlist "bob" body_free)
    as [updated [db1 [listed [booking [db2 [Hput [_ [Hall [Hout [_ [Hpost [Hid _]]]]]]]]]]]].
  - vm_compute. reflexivity.
  - reflexivity.
  - now left.
  - reflexivity.
  - reflexivity.
  - discriminate.
  - reflexivity.
  - reflexivity.
  - repeat split; intros v [=].
  - reflexivity.
  - vm_compute. reflexivity.
  - simpl. tauto.
  - simpl. intuition discriminate.
  - simpl. intuition discriminate.
  - reflexivity.
  - reflexivity.
  - reflexivity.
  - exists updated, db1, listed, booking, db2. repeat split; assumption.
Defined.
